(** * vector-triage: a shallow embedding of the retrieval core

    The development follows the Go packages of the repository:
    [ingest] (embeddable text), [store] (item ids, upserts, migrations,
    vector and full-text search, fusion), [github] (managed comment,
    state transport, event repository), [embed] (the embedding client),
    [engine] (the per-event pipeline) and [main] (the configuration of
    a run).

    Modelling conventions.
    - A Go [string] is the sequence of its Unicode code points
      ([list Z]); the text is taken to be valid UTF-8, so [[]rune(s)] is
      the identity and byte-wise comparison is code-point-wise comparison.
    - A Go [int] is a [Z]; 64-bit wrap-around is written out where the
      code multiplies.
    - A [float64] score is an exact rational ([Q]); NaN, infinities and
      rounding are outside the model.  Only the thresholds read from the
      environment in [main] keep NaN and the infinities, which the range
      check there has to face.
    - A [float32] of a stored vector is its 32-bit pattern where the
      codec is concerned.
    - SQL statements are replaced by their effect on tables kept as
      finite maps or row lists; the clock is passed in explicitly. *)

From Stdlib Require Import ZArith QArith Qabs List String Ascii Lia Lqa.
From Stdlib Require Import DecimalString Permutation Sorted.
From stdpp Require Import gmap list.


(* ===================================================================== *)
(** * Part I: definitions *)
(* ===================================================================== *)

(** ** Go strings *)

Module GoStr.

(** A [rune] is a code point. *)
Abbreviation rune := Z (only parsing).

(** An ASCII literal of the source as a code point sequence. *)
Definition str (s : string) : list Z :=
  map (fun a => Z.of_N (N_of_ascii a)) (list_ascii_of_string s).
Arguments str s%_string.

(** [unicode.IsSpace]: the White_Space property. *)
Definition isSpace (r : rune) : bool :=
  ((9 <=? r) && (r <=? 13) || (r =? 32) || (r =? 133) || (r =? 160)
   || (r =? 5760) || (8192 <=? r) && (r <=? 8202) || (r =? 8232)
   || (r =? 8233) || (r =? 8239) || (r =? 8287) || (r =? 12288))%Z.

Fixpoint TrimLeftSpace (s : list Z) : list Z :=
  match s with
  | c :: rest => if isSpace c then TrimLeftSpace rest else s
  | [] => []
  end.

Definition TrimRightSpace (s : list Z) : list Z :=
  rev (TrimLeftSpace (rev s)).

(** [strings.TrimSpace] *)
Definition TrimSpace (s : list Z) : list Z :=
  TrimRightSpace (TrimLeftSpace s).

(** [strings.HasPrefix] *)
Fixpoint HasPrefix (s p : list Z) : bool :=
  match p, s with
  | [], _ => true
  | _ :: _, [] => false
  | c :: p', d :: s' => (c =? d)%Z && HasPrefix s' p'
  end.

(** [strings.Contains] *)
Fixpoint Contains (s sub : list Z) : bool :=
  HasPrefix s sub ||
  match s with
  | [] => false
  | _ :: rest => Contains rest sub
  end.

(** [strings.Join] *)
Fixpoint Join (parts : list (list Z)) (sep : list Z) : list Z :=
  match parts with
  | [] => []
  | [p] => p
  | p :: rest => p ++ sep ++ Join rest sep
  end.

(** [fmt.Sprintf("%d", n)] *)
Definition itoa (n : Z) : list Z :=
  str (NilZero.string_of_int (Z.to_int n)).

(** [a < b] on strings: lexicographic on code points. *)
Fixpoint ltb (a b : list Z) : bool :=
  match a, b with
  | _, [] => false
  | [], _ :: _ => true
  | x :: a', y :: b' => (x <? y)%Z || (x =? y)%Z && ltb a' b'
  end.

(** [strings.Count(s, sub)] for a non-empty [sub]: occurrences that do
    not overlap, scanned from the left.  [skip] counts the characters
    of the last match still to be passed over. *)
Fixpoint CountFrom (skip : nat) (s sub : list Z) : Z :=
  match s with
  | [] => 0
  | _ :: rest =>
      match skip with
      | S k => CountFrom k rest sub
      | O => if HasPrefix s sub
             then 1 + CountFrom (Nat.pred (length sub)) rest sub
             else CountFrom 0 rest sub
      end
  end%Z.

Definition Count (s sub : list Z) : Z :=
  match sub with
  | [] => Z.of_nat (length s) + 1
  | _ => CountFrom 0 s sub
  end%Z.

(** The case table of [unicode.ToLower] is not part of the repository;
    it is taken as a parameter. *)
Class UnicodeCase := unicode_ToLower : rune -> rune.

(** [strings.ToLower] *)
Definition ToLower `{UnicodeCase} (s : list Z) : list Z :=
  map unicode_ToLower s.

(** What the table does on ASCII, the only fact the proofs use. *)
Definition ascii_ToLower (r : rune) : rune :=
  if ((65 <=? r) && (r <=? 90))%Z then (r + 32)%Z else r.

Definition lower_ascii `{UnicodeCase} : Prop :=
  forall r, (0 <= r < 128)%Z -> unicode_ToLower r = ascii_ToLower r.

End GoStr.
Import GoStr.

(** ** Results of fallible calls *)

Inductive result (A : Type) : Type :=
| Ok (a : A)
| Err (msg : list Z).
Arguments Ok {A} a.
Arguments Err {A} msg.

(** ** Package ingest: embeddable text *)

Module Ingest.

(** [PRDiffMode] is an [int] with three named values. *)
Definition PRDiffModeInclude : Z := 0.
Definition PRDiffModeSkipDiffKeepFiles : Z := 1.
Definition PRDiffModeTitleBodyOnly : Z := 2.

Record PRInput := {
  Title : list Z;
  Body : list Z;
  Files : list (list Z);
  Diff : list Z;
  Mode : Z
}.

Definition MaxDiffChars : Z := 4000.

(** [TruncateDiff]: at most [maxChars] code points. *)
Definition TruncateDiff (diff : list Z) (maxChars : Z) : list Z :=
  if (maxChars <=? 0)%Z then []
  else if (Z.of_nat (length diff) <=? maxChars)%Z then diff
  else firstn (Z.to_nat maxChars) diff.

(** [normalizeFiles] *)
Fixpoint normalizeFiles (files : list (list Z)) : list (list Z) :=
  match files with
  | [] => []
  | file :: rest =>
      let trimmed := TrimSpace file in
      if bool_decide (trimmed = []) then normalizeFiles rest
      else trimmed :: normalizeFiles rest
  end.

(** The separator ["\n\n"] between sections. *)
Definition blank_line : list Z := [10; 10]%Z.

(** [BuildPRContent] *)
Definition BuildPRContent (i : PRInput) : list Z :=
  let title := TrimSpace (Title i) in
  let body := TrimSpace (Body i) in
  if bool_decide (title = []) && bool_decide (body = []) then []
  else if bool_decide (title = []) then body
  else if bool_decide (body = []) then str "PR: " ++ title
  else
    let parts := [str "PR: " ++ title; str "Description: " ++ body] in
    let parts :=
      if negb (Mode i =? PRDiffModeTitleBodyOnly)%Z then
        let files := normalizeFiles (Files i) in
        if (0 <? length files)%nat
        then parts ++ [str "Files changed: " ++ Join files (str ", ")]
        else parts
      else parts in
    let parts :=
      if (Mode i =? PRDiffModeInclude)%Z then
        let diff := TrimSpace (Diff i) in
        if negb (bool_decide (diff = []))
        then parts ++ [str "Diff summary: " ++ TruncateDiff diff MaxDiffChars]
        else parts
      else parts in
    Join parts blank_line.

(** [BuildIssueContent] *)
Definition BuildIssueContent (title body : list Z) : list Z :=
  let title := TrimSpace title in
  let body := TrimSpace body in
  if negb (bool_decide (title = [])) && negb (bool_decide (body = []))
  then str "Issue: " ++ title ++ blank_line ++ body
  else if negb (bool_decide (title = [])) then str "Issue: " ++ title
  else if negb (bool_decide (body = [])) then body
  else [].

(** The text the claim describes for a pull request: the four sections
    in order, each left out when it would be empty, with the fall-back
    to the body alone when there is no title. *)
Definition PRSections_spec (i : PRInput) : list (list Z) :=
  let title := TrimSpace (Title i) in
  let body := TrimSpace (Body i) in
  let files := normalizeFiles (Files i) in
  let diff := TrimSpace (Diff i) in
  (if bool_decide (title = []) then [] else [str "PR: " ++ title]) ++
  (if bool_decide (body = []) then [] else [str "Description: " ++ body]) ++
  (if bool_decide (Mode i = PRDiffModeTitleBodyOnly) || bool_decide (files = [])
   then [] else [str "Files changed: " ++ Join files (str ", ")]) ++
  (if bool_decide (Mode i = PRDiffModeInclude) && negb (bool_decide (diff = []))
   then [str "Diff summary: " ++ firstn (Z.to_nat MaxDiffChars) diff] else []).

Definition BuildPRContent_spec (i : PRInput) : list Z :=
  let title := TrimSpace (Title i) in
  let body := TrimSpace (Body i) in
  if bool_decide (title = []) then body
  else Join (PRSections_spec i) blank_line.

(** A pull request with a title, no description and one changed file. *)
Definition pr_title_and_files : PRInput :=
  {| Title := str "Fix login"; Body := []; Files := [str "auth/login.go"];
     Diff := []; Mode := PRDiffModeSkipDiffKeepFiles |}.

End Ingest.

(** ** Package store: item ids *)

Module Store.

(** [BuildItemID] *)
Definition BuildItemID `{UnicodeCase} (kind : list Z) (number : Z) : list Z :=
  let kind := TrimSpace (ToLower kind) in
  if bool_decide (kind = str "issue") then str "issue/" ++ itoa number
  else if bool_decide (kind = str "pr") || bool_decide (kind = str "pull_request")
          || bool_decide (kind = str "pull_request_target")
  then str "pr/" ++ itoa number
  else kind ++ str "/" ++ itoa number.


(** *** Scores *)

(** [a < b] on scores. *)
Definition Qltb (a b : Q) : bool := negb (Qle_bool b a).

(** [clamp01] *)
Definition clamp01 (v : Q) : Q :=
  if Qltb v 0 then 0
  else if Qltb 1 v then 1
  else v.

(** [maxFloat] *)
Definition maxFloat (a b : Q) : Q :=
  if Qltb b a then a else b.

(** *** Search results *)

Record VectorResult := {
  vec_ID : list Z;
  vec_Type : list Z;
  vec_Number : Z;
  vec_Title : list Z;
  vec_State : list Z;
  vec_URL : list Z;
  vec_Distance : Q;
  vec_VecScore : Q
}.

Record FTSResult := {
  fts_ID : list Z;
  fts_Type : list Z;
  fts_Number : Z;
  fts_Title : list Z;
  fts_State : list Z;
  fts_URL : list Z;
  fts_RawBM25 : Q;
  fts_FTSScore : Q
}.

(** *** Fusion *)

Definition defaultSimilarityThreshold : Q := 0.75.
Definition defaultDuplicateThreshold : Q := 0.92.
Definition defaultMaxResults : Z := 5.
Definition rrfK : Z := 60.

Record FuseConfig := {
  SimilarityThreshold : Q;
  DuplicateThreshold : Q;
  MaxResults : Z
}.

Record FusedResult := {
  fused_ID : list Z;
  fused_Type : list Z;
  fused_Number : Z;
  fused_Title : list Z;
  fused_State : list Z;
  fused_URL : list Z;
  fused_RRFScore : Q;
  fused_VecScore : Q;
  fused_FTSScore : Q;
  fused_DisplaySimilarity : Q;
  fused_IsDuplicate : bool
}.

Record fusedAccumulator := {
  acc_ID : list Z;
  acc_Type : list Z;
  acc_Number : Z;
  acc_Title : list Z;
  acc_State : list Z;
  acc_URL : list Z;
  acc_RRFScore : Q;
  acc_VecScore : Q;
  acc_FTSScore : Q
}.

(** [c == (FuseConfig{})] *)
Definition is_zero_config (c : FuseConfig) : bool :=
  Qeq_bool (SimilarityThreshold c) 0 && Qeq_bool (DuplicateThreshold c) 0
  && (MaxResults c =? 0)%Z.

(** [FuseConfig.normalized] *)
Definition normalized (c : FuseConfig) : FuseConfig :=
  if is_zero_config c then
    {| SimilarityThreshold := defaultSimilarityThreshold;
       DuplicateThreshold := defaultDuplicateThreshold;
       MaxResults := defaultMaxResults |}
  else
    {| SimilarityThreshold := clamp01 (SimilarityThreshold c);
       DuplicateThreshold := clamp01 (DuplicateThreshold c);
       MaxResults := if (MaxResults c <=? 0)%Z then defaultMaxResults
                     else MaxResults c |}.

(** [getOrCreateAccumulator]: the entry of [id], a fresh one when the
    map has none.  The caller stores the updated entry back, which is
    what writing through the pointer does. *)
Definition getOrCreateAccumulator (acc : gmap (list Z) fusedAccumulator)
    (id : list Z) : fusedAccumulator :=
  match acc !! id with
  | Some current => current
  | None =>
      {| acc_ID := id; acc_Type := []; acc_Number := 0; acc_Title := [];
         acc_State := []; acc_URL := []; acc_RRFScore := 0;
         acc_VecScore := 0; acc_FTSScore := 0 |}
  end.

(** [mergeMetadata]: first non-empty value wins. *)
Definition mergeMetadata (target : fusedAccumulator)
    (typ : list Z) (number : Z) (title state url : list Z) : fusedAccumulator :=
  {| acc_ID := acc_ID target;
     acc_Type := if bool_decide (acc_Type target = []) then typ else acc_Type target;
     acc_Number := if (acc_Number target =? 0)%Z then number else acc_Number target;
     acc_Title := if bool_decide (acc_Title target = []) then title else acc_Title target;
     acc_State := if bool_decide (acc_State target = []) then state else acc_State target;
     acc_URL := if bool_decide (acc_URL target = []) then url else acc_URL target;
     acc_RRFScore := acc_RRFScore target;
     acc_VecScore := acc_VecScore target;
     acc_FTSScore := acc_FTSScore target |}.

(** [1.0 / float64(rrfK+rank+1)] *)
Definition rrfTerm (rank : Z) : Q := 1 / inject_Z (rrfK + rank + 1).

Definition addVec (current : fusedAccumulator) (score : Q) (rank : Z) : fusedAccumulator :=
  {| acc_ID := acc_ID current; acc_Type := acc_Type current;
     acc_Number := acc_Number current; acc_Title := acc_Title current;
     acc_State := acc_State current; acc_URL := acc_URL current;
     acc_RRFScore := acc_RRFScore current + rrfTerm rank;
     acc_VecScore := maxFloat (acc_VecScore current) (clamp01 score);
     acc_FTSScore := acc_FTSScore current |}.

Definition addFTS (current : fusedAccumulator) (score : Q) (rank : Z) : fusedAccumulator :=
  {| acc_ID := acc_ID current; acc_Type := acc_Type current;
     acc_Number := acc_Number current; acc_Title := acc_Title current;
     acc_State := acc_State current; acc_URL := acc_URL current;
     acc_RRFScore := acc_RRFScore current + rrfTerm rank;
     acc_VecScore := acc_VecScore current;
     acc_FTSScore := maxFloat (acc_FTSScore current) (clamp01 score) |}.

(** The loop over [vecResults]; [rank] is the index of the head of
    [items] in the full list, [vecSeen] the ids already counted. *)
Fixpoint fuseVec (excludeID : list Z) (rank : Z) (items : list VectorResult)
    (vecSeen : gset (list Z)) (acc : gmap (list Z) fusedAccumulator)
    : gmap (list Z) fusedAccumulator :=
  match items with
  | [] => acc
  | item :: rest =>
      if bool_decide (vec_ID item = []) || bool_decide (vec_ID item = excludeID)
      then fuseVec excludeID (rank + 1) rest vecSeen acc
      else if bool_decide (vec_ID item ∈ vecSeen)
      then fuseVec excludeID (rank + 1) rest vecSeen acc
      else
        let vecSeen := {[vec_ID item]} ∪ vecSeen in
        let current := getOrCreateAccumulator acc (vec_ID item) in
        let current := mergeMetadata current (vec_Type item) (vec_Number item)
                         (vec_Title item) (vec_State item) (vec_URL item) in
        let current := addVec current (vec_VecScore item) rank in
        fuseVec excludeID (rank + 1) rest vecSeen (<[vec_ID item := current]> acc)
  end.

(** The loop over [ftsResults]. *)
Fixpoint fuseFTS (excludeID : list Z) (rank : Z) (items : list FTSResult)
    (ftsSeen : gset (list Z)) (acc : gmap (list Z) fusedAccumulator)
    : gmap (list Z) fusedAccumulator :=
  match items with
  | [] => acc
  | item :: rest =>
      if bool_decide (fts_ID item = []) || bool_decide (fts_ID item = excludeID)
      then fuseFTS excludeID (rank + 1) rest ftsSeen acc
      else if bool_decide (fts_ID item ∈ ftsSeen)
      then fuseFTS excludeID (rank + 1) rest ftsSeen acc
      else
        let ftsSeen := {[fts_ID item]} ∪ ftsSeen in
        let current := getOrCreateAccumulator acc (fts_ID item) in
        let current := mergeMetadata current (fts_Type item) (fts_Number item)
                         (fts_Title item) (fts_State item) (fts_URL item) in
        let current := addFTS current (fts_FTSScore item) rank in
        fuseFTS excludeID (rank + 1) rest ftsSeen (<[fts_ID item := current]> acc)
  end.

(** The body of the loop over the accumulator: threshold and flag. *)
Definition toFused (cfg : FuseConfig) (item : fusedAccumulator) : option FusedResult :=
  let displaySimilarity := maxFloat (acc_VecScore item) (acc_FTSScore item) in
  if Qltb displaySimilarity (SimilarityThreshold cfg) then None
  else Some
    {| fused_ID := acc_ID item; fused_Type := acc_Type item;
       fused_Number := acc_Number item; fused_Title := acc_Title item;
       fused_State := acc_State item; fused_URL := acc_URL item;
       fused_RRFScore := acc_RRFScore item;
       fused_VecScore := acc_VecScore item;
       fused_FTSScore := acc_FTSScore item;
       fused_DisplaySimilarity := displaySimilarity;
       fused_IsDuplicate := Qle_bool (DuplicateThreshold cfg) displaySimilarity |}.

(** The comparison handed to [sort.Slice]. *)
Definition fusedLess (a b : FusedResult) : bool :=
  if Qeq_bool (fused_RRFScore a) (fused_RRFScore b) then
    if Qeq_bool (fused_DisplaySimilarity a) (fused_DisplaySimilarity b)
    then ltb (fused_ID a) (fused_ID b)
    else Qltb (fused_DisplaySimilarity b) (fused_DisplaySimilarity a)
  else Qltb (fused_RRFScore b) (fused_RRFScore a).

(** The order of the ranking in words: higher RRF score first, then
    higher display similarity, then smaller id.  [rankedBefore a b]
    lets [a] stand before [b]. *)
Definition rankedBefore (a b : FusedResult) : Prop :=
  (fused_RRFScore b < fused_RRFScore a)%Q \/
  ((fused_RRFScore a == fused_RRFScore b)%Q /\
   ((fused_DisplaySimilarity b < fused_DisplaySimilarity a)%Q \/
    ((fused_DisplaySimilarity a == fused_DisplaySimilarity b)%Q /\
     ltb (fused_ID b) (fused_ID a) = false))).

(** [sort.Slice] as an insertion sort.  The library sort is not stable
    and a Go map is ranged over in no fixed order; [sortSlice_unique]
    below shows that neither matters for a total comparison. *)
Fixpoint insertSorted {A} (less : A -> A -> bool) (x : A) (l : list A) : list A :=
  match l with
  | [] => [x]
  | y :: rest => if less y x then y :: insertSorted less x rest else x :: l
  end.

Fixpoint sortSlice {A} (less : A -> A -> bool) (l : list A) : list A :=
  match l with
  | [] => []
  | x :: rest => insertSorted less x (sortSlice less rest)
  end.

(** [a] may stand before [b] in a slice sorted by [less]: [b] is not
    less than [a]. *)
Definition notAfter {A} (less : A -> A -> bool) (a b : A) : Prop :=
  less b a = false.

(** [if len(s) > n { s = s[:n] }] *)
Definition truncateTo {A} (n : Z) (s : list A) : list A :=
  if (n <? Z.of_nat (length s))%Z then firstn (Z.to_nat n) s else s.

(** The accumulator after both loops. *)
Definition accumulate (vecResults : list VectorResult) (ftsResults : list FTSResult)
    (excludeID : list Z) : gmap (list Z) fusedAccumulator :=
  let acc := fuseVec excludeID 0 vecResults ∅ ∅ in
  fuseFTS excludeID 0 ftsResults ∅ acc.

(** The invariant of both loops: every entry sits under its own id,
    which is neither blank nor the excluded id. *)
Definition acc_ok (excludeID : list Z)
    (acc : gmap (list Z) fusedAccumulator) : Prop :=
  forall k a, acc !! k = Some a ->
    acc_ID a = k /\ k <> excludeID /\ k <> [].

(** The tail of [FuseResults] from the accumulator entries, taken in
    the order [entries] lists them. *)
Definition rankEntries (cfg : FuseConfig) (entries : list fusedAccumulator)
    : list FusedResult :=
  let fused := omap (toFused cfg) entries in
  let fused := sortSlice fusedLess fused in
  truncateTo (MaxResults cfg) fused.

(** [FuseResults] *)
Definition FuseResults (vecResults : list VectorResult) (ftsResults : list FTSResult)
    (excludeID : list Z) (config : FuseConfig) : list FusedResult :=
  let cfg := normalized config in
  let acc := accumulate vecResults ftsResults excludeID in
  rankEntries cfg (map snd (map_to_list acc)).


(** Results as the fusion tests write them: an id and a score. *)
Definition vecOf (id : list Z) (number : Z) (score : Q) : VectorResult :=
  {| vec_ID := id; vec_Type := str "issue"; vec_Number := number;
     vec_Title := id; vec_State := []; vec_URL := [];
     vec_Distance := 0; vec_VecScore := score |}.

Definition ftsOf (id : list Z) (number : Z) (score : Q) : FTSResult :=
  {| fts_ID := id; fts_Type := str "issue"; fts_Number := number;
     fts_Title := id; fts_State := []; fts_URL := [];
     fts_RawBM25 := 0; fts_FTSScore := score |}.

(** *** The database *)

(** An instant; [0] is the zero [time.Time].  A timestamp column holds
    the instant itself rather than its RFC 3339 text. *)
Definition Time := Z.
Definition IsZero (t : Time) : bool := (t =? 0)%Z.

Record ItemRecord := {
  rec_ID : list Z;
  rec_Type : list Z;
  rec_Number : Z;
  rec_Title : list Z;
  rec_Body : list Z;
  rec_Author : list Z;
  rec_State : list Z;
  rec_Labels : list (list Z);
  rec_Files : list (list Z);
  rec_URL : list Z;
  rec_CreatedAt : Time;
  rec_UpdatedAt : Time
}.

(** A row of [items]; the primary key [id] is the key of the table.
    [labels] and [files] hold the lists rather than their JSON text. *)
Record ItemRow := {
  row_type : list Z;
  row_number : Z;
  row_title : list Z;
  row_body : list Z;
  row_author : list Z;
  row_state : list Z;
  row_labels : list (list Z);
  row_files : list (list Z);
  row_url : list Z;
  row_created_at : Time;
  row_updated_at : Time
}.

Inductive objKind := Table | VirtualTable | Index | Trigger.

(** A stored embedding; [None] stands for a blob that does not decode
    (its length is not a multiple of four). *)
Definition storedVector := option (list Q).

Record DB := {
  schema_version : option (list (Z * Time));
  objects : gmap (list Z) objKind;
  items : gmap (list Z) ItemRow;
  items_vec : list (list Z * storedVector)
}.

Definition set_schema_version (rows : option (list (Z * Time))) (db : DB) : DB :=
  {| schema_version := rows; objects := objects db; items := items db;
     items_vec := items_vec db |}.

Definition set_objects (objs : gmap (list Z) objKind) (db : DB) : DB :=
  {| schema_version := schema_version db; objects := objs; items := items db;
     items_vec := items_vec db |}.

Definition set_items (rows : gmap (list Z) ItemRow) (db : DB) : DB :=
  {| schema_version := schema_version db; objects := objects db; items := rows;
     items_vec := items_vec db |}.

(** [*Store]: [None] is a nil store or a store without a handle. *)
Definition Store := option DB.

Record vectorHit := {
  hit_ID : list Z;
  hit_Distance : Q
}.

Record ftsRow := {
  frow_ID : list Z;
  frow_Type : list Z;
  frow_Number : Z;
  frow_Title : list Z;
  frow_State : list Z;
  frow_URL : list Z;
  frow_score : Q
}.

Record fallbackFTSRow := {
  fb_ID : list Z;
  fb_Type : list Z;
  fb_Number : Z;
  fb_Title : list Z;
  fb_State : list Z;
  fb_URL : list Z;
  fb_LowerText : list Z
}.

(** The SQLite build the store runs on: which modules it has, the
    failure the driver reports for a statement (if any), and what the
    three search statements return.  None of this is code of the
    repository. *)
Class Sqlite := {
  has_fts5 : bool;
  has_vec0 : bool;
  fault : option (list Z);
  vec0_knn : DB -> list Q -> Z -> result (list vectorHit);
  fts5_match : DB -> list Z -> list Z -> Z -> result (list ftsRow);
  like_match : DB -> list Z -> list (list Z) -> Z -> result (list fallbackFTSRow)
}.

(** [ExecContext] of a statement with effect [f]. *)
Definition exec `{Sqlite} (f : DB -> DB) (db : DB) : result DB :=
  match fault with
  | Some e => Err e
  | None => Ok (f db)
  end.

(** *** UpsertItem *)

(** The row the [INSERT] proposes ([excluded] in the statement). *)
Definition excludedRow (rec : ItemRecord) (createdAt updatedAt : Time) : ItemRow :=
  {| row_type := rec_Type rec; row_number := rec_Number rec;
     row_title := rec_Title rec; row_body := rec_Body rec;
     row_author := rec_Author rec; row_state := rec_State rec;
     row_labels := rec_Labels rec; row_files := rec_Files rec;
     row_url := rec_URL rec;
     row_created_at := createdAt; row_updated_at := updatedAt |}.

(** [INSERT ... ON CONFLICT(id) DO UPDATE SET ...]: every column named in
    the [SET] list is taken from [excluded]; [id] and [created_at] are
    not named. *)
Definition upsertRow (excluded : ItemRow) (existing : option ItemRow) : ItemRow :=
  match existing with
  | None => excluded
  | Some old =>
      {| row_type := row_type excluded; row_number := row_number excluded;
         row_title := row_title excluded; row_body := row_body excluded;
         row_author := row_author excluded; row_state := row_state excluded;
         row_labels := row_labels excluded; row_files := row_files excluded;
         row_url := row_url excluded;
         row_created_at := row_created_at old;
         row_updated_at := row_updated_at excluded |}
  end.

(** [UpsertItem]; [now] is the reading of [time.Now().UTC()].  Returns
    the error, if any, and the store afterwards. *)
Definition UpsertItem `{Sqlite} (now : Time) (s : Store) (rec : ItemRecord)
    : option (list Z) * Store :=
  match s with
  | None => (Some (str "store is not initialized"), s)
  | Some db =>
      if bool_decide (TrimSpace (rec_ID rec) = [])
      then (Some (str "item id is required"), s)
      else if bool_decide (TrimSpace (rec_Type rec) = [])
      then (Some (str "item type is required"), s)
      else if (rec_Number rec <=? 0)%Z
      then (Some (str "item number must be positive"), s)
      else
        let createdAt := if IsZero (rec_CreatedAt rec) then now else rec_CreatedAt rec in
        let updatedAt := if IsZero (rec_UpdatedAt rec) then now else rec_UpdatedAt rec in
        let excluded := excludedRow rec createdAt updatedAt in
        match exec (fun db =>
                 set_items (<[rec_ID rec :=
                                upsertRow excluded (items db !! rec_ID rec)]> (items db)) db)
                 db with
        | Err e => (Some (str "upsert item: " ++ e), s)
        | Ok db' => (None, Some db')
        end
  end.

(** *** Migrations *)

Definition latestSchemaVersion : Z := 2.

Record migration := {
  version : Z;
  name : list Z;
  up : DB -> result DB
}.

(** [CREATE ... IF NOT EXISTS name] *)
Definition createIfNotExists (name : list Z) (kind : objKind) (db : DB) : DB :=
  match objects db !! name with
  | Some _ => db
  | None => set_objects (<[name := kind]> (objects db)) db
  end.

(** [execStatements] over statements given by their effect. *)
Fixpoint execStatements `{Sqlite} (stmts : list (DB -> DB)) (db : DB) : result DB :=
  match stmts with
  | [] => Ok db
  | stmt :: rest =>
      match exec stmt db with
      | Err e => Err e
      | Ok db' => execStatements rest db'
      end
  end.

(** [isModuleUnavailable] *)
Definition isModuleUnavailable `{UnicodeCase} (err : list Z) (module : list Z) : bool :=
  let msg := ToLower err in
  let needle := str "no such module: " ++ ToLower module in
  Contains msg needle.

(** [CREATE VIRTUAL TABLE IF NOT EXISTS name USING module(...)] *)
Definition createVirtualTable `{Sqlite} (name module : list Z) (available : bool)
    (db : DB) : result DB :=
  match fault with
  | Some e => Err e
  | None =>
      match objects db !! name with
      | Some _ => Ok db
      | None =>
          if available
          then Ok (set_objects (<[name := VirtualTable]> (objects db)) db)
          else Err (str "no such module: " ++ module)
      end
  end.

(** [migrateV1] *)
Definition migrateV1 `{Sqlite} (tx : DB) : result DB :=
  execStatements
    [createIfNotExists (str "items") Table;
     createIfNotExists (str "idx_items_type") Index;
     createIfNotExists (str "idx_items_number") Index;
     createIfNotExists (str "idx_items_state") Index] tx.

(** [ensureFTSTable] *)
Definition ensureFTSTable `{Sqlite} `{UnicodeCase} (tx : DB) : result DB :=
  match createVirtualTable (str "items_fts") (str "fts5") has_fts5 tx with
  | Ok tx' => Ok tx'
  | Err err =>
      if negb (isModuleUnavailable err (str "fts5")) then Err err
      else exec (createIfNotExists (str "items_fts") Table) tx
  end.

(** [ensureVectorTable] *)
Definition ensureVectorTable `{Sqlite} `{UnicodeCase} (tx : DB) : result DB :=
  match createVirtualTable (str "items_vec") (str "vec0") has_vec0 tx with
  | Ok tx' => Ok tx'
  | Err err =>
      if negb (isModuleUnavailable err (str "vec0")) then Err err
      else exec (createIfNotExists (str "items_vec") Table) tx
  end.

(** [migrateV2] *)
Definition migrateV2 `{Sqlite} `{UnicodeCase} (tx : DB) : result DB :=
  match ensureFTSTable tx with
  | Err err => Err err
  | Ok tx =>
      match execStatements
              [createIfNotExists (str "items_fts_insert") Trigger;
               createIfNotExists (str "items_fts_delete") Trigger;
               createIfNotExists (str "items_fts_update") Trigger] tx with
      | Err err => Err err
      | Ok tx => ensureVectorTable tx
      end
  end.

Definition migrations `{Sqlite} `{UnicodeCase} : list migration :=
  [ {| version := 1; name := str "create_items"; up := migrateV1 |};
    {| version := 2; name := str "create_search_tables"; up := migrateV2 |} ].

(** [ensureSchemaVersionTable] *)
Definition ensureSchemaVersionTable `{Sqlite} (db : DB) : result DB :=
  exec (fun db =>
          match schema_version db with
          | Some _ => db
          | None => set_schema_version (Some []) db
          end) db.

(** [currentSchemaVersion]: [COALESCE(MAX(version), 0)]. *)
Definition currentSchemaVersion `{Sqlite} (db : DB) : result Z :=
  match fault with
  | Some e => Err e
  | None =>
      match schema_version db with
      | None => Err (str "no such table: schema_version")
      | Some [] => Ok 0%Z
      | Some (row :: rows) =>
          Ok (fold_left Z.max (map fst rows) (fst row))
      end
  end.

(** [INSERT INTO schema_version (version, applied_at)]; [version] is the
    primary key. *)
Definition insertVersion `{Sqlite} (v : Z) (appliedAt : Time) (tx : DB) : result DB :=
  match fault with
  | Some e => Err e
  | None =>
      match schema_version tx with
      | None => Err (str "no such table: schema_version")
      | Some rows =>
          if bool_decide (v ∈ map fst rows)
          then Err (str "UNIQUE constraint failed: schema_version.version")
          else Ok (set_schema_version (Some (rows ++ [(v, appliedAt)])) tx)
      end
  end.

(** [applyMigration]: the migration and its version row in one
    transaction.  On an error the transaction is rolled back, so the
    database is the one before; [now] is the clock when the row is
    written. *)
Definition applyMigration `{Sqlite} (now : Time) (db : DB) (m : migration)
    : option (list Z) * DB :=
  match up m db with
  | Err err => (Some err, db)
  | Ok tx =>
      match insertVersion (version m) now tx with
      | Err err => (Some err, db)
      | Ok tx => (None, tx)
      end
  end.

(** The loop of [ApplyMigrations]; [now v] is the clock when migration
    [v] is recorded. *)
Fixpoint applyPending `{Sqlite} (now : Z -> Time) (current : Z)
    (ms : list migration) (db : DB) : option (list Z) * DB :=
  match ms with
  | [] => (None, db)
  | m :: rest =>
      if (version m <=? current)%Z then applyPending now current rest db
      else
        match applyMigration (now (version m)) db m with
        | (Some err, db') =>
            (Some (str "apply migration v" ++ itoa (version m) ++ str " (" ++
                   name m ++ str "): " ++ err), db')
        | (None, db') => applyPending now current rest db'
        end
  end.

(** [ApplyMigrations]; [None] is a nil handle. *)
Definition ApplyMigrations `{Sqlite} `{UnicodeCase} (now : Z -> Time) (db : Store)
    : option (list Z) * Store :=
  match db with
  | None => (Some (str "nil db"), None)
  | Some db =>
      match ensureSchemaVersionTable db with
      | Err err => (Some (str "ensure schema_version table: " ++ err), Some db)
      | Ok db =>
          match currentSchemaVersion db with
          | Err err => (Some (str "read current schema version: " ++ err), Some db)
          | Ok current =>
              let (err, db) := applyPending now current migrations db in
              (err, Some db)
          end
      end
  end.

(** [ApplyMigrations] run once per clock in [nows], stopping at the
    first error. *)
Fixpoint ApplyMigrationsTimes `{Sqlite} `{UnicodeCase} (nows : list (Z -> Time))
    (db : Store) : option (list Z) * Store :=
  match nows with
  | [] => (None, db)
  | now :: rest =>
      match ApplyMigrations now db with
      | (Some err, db') => (Some err, db')
      | (None, db') => ApplyMigrationsTimes rest db'
      end
  end.

(** *** Vector search *)

(** [cosineDistance] is floating-point arithmetic with square roots; its
    value is taken as given. *)
Class VectorMath := cosineDistance : list Q -> list Q -> Q.

Record itemMeta := {
  meta_ID : list Z;
  meta_Type : list Z;
  meta_Number : Z;
  meta_Title : list Z;
  meta_State : list Z;
  meta_URL : list Z
}.

(** What [lookupItemMeta] returns: the row, [sql.ErrNoRows], or another
    error. *)
Inductive lookup :=
| Found (item : itemMeta)
| ErrNoRows
| LookupErr (err : list Z).

(** [lookupItemMeta]: [SELECT ... FROM items WHERE id = ?]. *)
Definition lookupItemMeta `{Sqlite} (db : DB) (id : list Z) : lookup :=
  match fault with
  | Some e => LookupErr e
  | None =>
      match items db !! id with
      | None => ErrNoRows
      | Some row =>
          Found {| meta_ID := id; meta_Type := row_type row;
                   meta_Number := row_number row; meta_Title := row_title row;
                   meta_State := row_state row; meta_URL := row_url row |}
      end
  end.

(** [shouldFallbackToBruteForce] *)
Definition shouldFallbackToBruteForce `{UnicodeCase} (err : list Z) : bool :=
  let msg := ToLower err in
  existsb (Contains msg)
    [str "no such module: vec0"; str "no such column: distance";
     str "no such column: k"; str "unable to use function match";
     str "no such function: vec_distance"].

(** The comparison of the brute-force sort: distance, then id. *)
Definition hitLess (a b : vectorHit) : bool :=
  if Qeq_bool (hit_Distance a) (hit_Distance b)
  then ltb (hit_ID a) (hit_ID b)
  else Qltb (hit_Distance a) (hit_Distance b).

(** The scan of [vectorOnlySearchBruteForce]: rows that do not decode
    are skipped. *)
Fixpoint scanVectors `{VectorMath} (queryEmbedding : list Q)
    (rows : list (list Z * storedVector)) : list vectorHit :=
  match rows with
  | [] => []
  | (id, None) :: rest => scanVectors queryEmbedding rest
  | (id, Some candidate) :: rest =>
      {| hit_ID := id; hit_Distance := cosineDistance queryEmbedding candidate |}
        :: scanVectors queryEmbedding rest
  end.

(** [vectorOnlySearchBruteForce] *)
Definition vectorOnlySearchBruteForce `{Sqlite} `{VectorMath} (db : DB)
    (queryEmbedding : list Q) (candidateLimit : Z) : result (list vectorHit) :=
  match fault with
  | Some e => Err (str "fallback vector query failed: " ++ e)
  | None =>
      let hits := scanVectors queryEmbedding (items_vec db) in
      let hits := sortSlice hitLess hits in
      Ok (truncateTo candidateLimit hits)
  end.

(** [vectorOnlySearch] *)
Definition vectorOnlySearch `{Sqlite} `{VectorMath} `{UnicodeCase} (db : DB)
    (queryEmbedding : list Q) (candidateLimit : Z) : result (list vectorHit) :=
  match vec0_knn db queryEmbedding candidateLimit with
  | Ok hits => Ok hits
  | Err err =>
      if negb (shouldFallbackToBruteForce err)
      then Err (str "vector query failed: " ++ err)
      else vectorOnlySearchBruteForce db queryEmbedding candidateLimit
  end.

(** Arithmetic on [int]: the product modulo [2^64], read as signed. *)
Definition wrap64 (n : Z) : Z :=
  ((n + 2 ^ 63) mod 2 ^ 64 - 2 ^ 63)%Z.

Definition hydrated (item : itemMeta) (hit : vectorHit) : VectorResult :=
  {| vec_ID := meta_ID item; vec_Type := meta_Type item;
     vec_Number := meta_Number item; vec_Title := meta_Title item;
     vec_State := meta_State item; vec_URL := meta_URL item;
     vec_Distance := hit_Distance hit;
     vec_VecScore := clamp01 (1 - hit_Distance hit) |}.

(** The loop of [SearchVector] over the hits still to visit, [results]
    being the slice built so far. *)
Fixpoint hydrateHits `{Sqlite} (db : DB) (excludeID : list Z) (limit : Z)
    (hits : list vectorHit) (results : list VectorResult)
    : result (list VectorResult) :=
  match hits with
  | [] => Ok results
  | hit :: rest =>
      if bool_decide (hit_ID hit = excludeID)
      then hydrateHits db excludeID limit rest results
      else
        match lookupItemMeta db (hit_ID hit) with
        | LookupErr err => Err err
        | ErrNoRows => hydrateHits db excludeID limit rest results
        | Found item =>
            let results := results ++ [hydrated item hit] in
            if (limit <=? Z.of_nat (length results))%Z then Ok results
            else hydrateHits db excludeID limit rest results
        end
  end.

(** [candidateLimit] of [SearchVector] and [searchFTSFallback]. *)
Definition candidateLimit (limit : Z) : Z :=
  let c := wrap64 (limit * 3) in
  if (c <? 1)%Z then 1%Z else c.

(** [SearchVector] *)
Definition SearchVector `{Sqlite} `{VectorMath} `{UnicodeCase} (s : Store)
    (queryEmbedding : list Q) (excludeID : list Z) (limit : Z)
    : result (list VectorResult) :=
  match s with
  | None => Err (str "store is not initialized")
  | Some db =>
      if (length queryEmbedding =? 0)%nat || (limit <=? 0)%Z then Ok []
      else
        match vectorOnlySearch db queryEmbedding (candidateLimit limit) with
        | Err err => Err err
        | Ok hits => hydrateHits db excludeID limit hits []
        end
  end.

(** What the loop makes of one hit when the driver does not fail: nothing
    for the excluded id and for an id without item row. *)
Definition hydrateHit (db : DB) (excludeID : list Z) (hit : vectorHit)
    : option VectorResult :=
  if bool_decide (hit_ID hit = excludeID) then None
  else
    match items db !! hit_ID hit with
    | None => None
    | Some row =>
        Some (hydrated {| meta_ID := hit_ID hit; meta_Type := row_type row;
                          meta_Number := row_number row;
                          meta_Title := row_title row;
                          meta_State := row_state row;
                          meta_URL := row_url row |} hit)
    end.

(** The order of the brute-force candidates in words: nearer first, then
    smaller id. *)
Definition hitBefore (a b : vectorHit) : Prop :=
  (hit_Distance a < hit_Distance b)%Q \/
  ((hit_Distance a == hit_Distance b)%Q /\ ltb (hit_ID b) (hit_ID a) = false).

(** The largest [int]. *)
Definition maxInt : Z := (2 ^ 63 - 1)%Z.

(** *** Full-text search *)

(** [unicode.IsLetter] and [unicode.IsDigit], tables of the Go library. *)
Class UnicodeClass := {
  unicode_IsLetter : rune -> bool;
  unicode_IsDigit : rune -> bool
}.

Definition ftsStopWords : list (list Z) :=
  map str
    ["a"; "an"; "and"; "are"; "as"; "at"; "be"; "by"; "for"; "from";
     "has"; "he"; "in"; "is"; "it"; "its"; "of"; "on"; "or"; "that";
     "the"; "to"; "was"; "were"; "will"; "with"; "this"; "these"; "those"]%string.

(** [normalizeBM25] *)
Definition normalizeBM25 (rawBM25 : Q) : Q :=
  let abs := Qabs rawBM25 in
  abs / (1 + abs).

(** The loop of [splitWords]: [b] is the word being built, [words] the
    words so far. *)
Fixpoint splitWordsFrom `{UnicodeClass} (input : list Z) (b : list Z)
    (words : list (list Z)) : list (list Z) :=
  let flush := match b with [] => words | _ => words ++ [b] end in
  match input with
  | [] => flush
  | r :: rest =>
      if unicode_IsLetter r || unicode_IsDigit r || (r =? 95)%Z
      then splitWordsFrom rest (b ++ [r]) words
      else splitWordsFrom rest [] flush
  end.

(** [splitWords] *)
Definition splitWords `{UnicodeClass} `{UnicodeCase} (input : list Z) : list (list Z) :=
  splitWordsFrom (ToLower input) [] [].

(** [tokenizeFTSQuery] *)
Definition tokenizeFTSQuery `{UnicodeClass} `{UnicodeCase} (input : list Z)
    : list (list Z) :=
  filter (fun word => negb (bool_decide (word ∈ ftsStopWords))) (splitWords input).

(** [strings.ReplaceAll] on the quote character (code point 34): every
    quote is doubled. *)
Definition escapeQuotes (term : list Z) : list Z :=
  flat_map (fun r => if (r =? 34)%Z then [34; 34]%Z else [r]) term.

(** [buildFTS5Query] *)
Definition buildFTS5Query `{UnicodeClass} `{UnicodeCase} (input : list Z) : list Z :=
  let terms := tokenizeFTSQuery input in
  Join (map (fun term => [34%Z] ++ escapeQuotes term ++ [34%Z]) terms) (str " AND ").

(** [searchFTSNative] *)
Definition searchFTSNative `{Sqlite} (db : DB) (ftsQuery excludeID : list Z)
    (limit : Z) : result (list FTSResult) :=
  match fts5_match db ftsQuery excludeID limit with
  | Err err => Err err
  | Ok rows =>
      Ok (map (fun row =>
                 {| fts_ID := frow_ID row; fts_Type := frow_Type row;
                    fts_Number := frow_Number row; fts_Title := frow_Title row;
                    fts_State := frow_State row; fts_URL := frow_URL row;
                    fts_RawBM25 := frow_score row;
                    fts_FTSScore := normalizeBM25 (frow_score row) |}) rows)
  end.

(** [fallbackTermFrequency] *)
Definition fallbackTermFrequency (text : list Z) (terms : list (list Z)) : Z :=
  fold_left (fun score term => (score + Count text term)%Z) terms 0%Z.

(** The comparison of the fallback sort: more occurrences first, then id. *)
Definition fallbackLess (terms : list (list Z)) (a b : fallbackFTSRow) : bool :=
  let iScore := fallbackTermFrequency (fb_LowerText a) terms in
  let jScore := fallbackTermFrequency (fb_LowerText b) terms in
  if (iScore =? jScore)%Z then ltb (fb_ID a) (fb_ID b)
  else (jScore <? iScore)%Z.

(** [searchFTSFallback] *)
Definition searchFTSFallback `{Sqlite} (db : DB) (terms : list (list Z))
    (excludeID : list Z) (limit : Z) : result (list FTSResult) :=
  match like_match db excludeID terms (candidateLimit limit) with
  | Err err => Err (str "fallback fts query failed: " ++ err)
  | Ok rawRows =>
      let rawRows := sortSlice (fallbackLess terms) rawRows in
      let rawRows := truncateTo limit rawRows in
      Ok (map (fun row =>
                 let raw := - inject_Z (fallbackTermFrequency (fb_LowerText row) terms) in
                 {| fts_ID := fb_ID row; fts_Type := fb_Type row;
                    fts_Number := fb_Number row; fts_Title := fb_Title row;
                    fts_State := fb_State row; fts_URL := fb_URL row;
                    fts_RawBM25 := raw;
                    fts_FTSScore := normalizeBM25 raw |}) rawRows)
  end.

(** [shouldFallbackFTS] *)
Definition shouldFallbackFTS `{UnicodeCase} (err : list Z) : bool :=
  let msg := ToLower err in
  existsb (Contains msg)
    [str "no such function: bm25"; str "no such module: fts5";
     str "unable to use function match"; str "no such table: items_fts";
     str "no such column: items_fts"; str "no such column: f"].

(** [SearchFTS] *)
Definition SearchFTS `{Sqlite} `{UnicodeClass} `{UnicodeCase} (s : Store)
    (query excludeID : list Z) (limit : Z) : result (list FTSResult) :=
  match s with
  | None => Err (str "store is not initialized")
  | Some db =>
      if (limit <=? 0)%Z then Ok []
      else
        let terms := tokenizeFTSQuery query in
        if (length terms =? 0)%nat then Ok []
        else
          let ftsQuery := buildFTS5Query query in
          match searchFTSNative db ftsQuery excludeID limit with
          | Ok results => Ok results
          | Err err =>
              if negb (shouldFallbackFTS err)
              then Err (str "fts query failed: " ++ err)
              else searchFTSFallback db terms excludeID limit
          end
  end.

(** *** A small index for the examples *)

(** A build without the [vec0] and [fts5] modules and without driver
    failures: the searches take their fallback paths. *)
Definition plainSqlite : Sqlite :=
  {| has_fts5 := false; has_vec0 := false; fault := None;
     vec0_knn := fun _ _ _ => Err (str "no such module: vec0");
     fts5_match := fun _ _ _ _ => Err (str "no such module: fts5");
     like_match := fun _ _ _ _ => Ok [] |}.

(** The cosine distance of unit vectors: one minus the dot product. *)
Definition unitCosine : VectorMath :=
  fun a b => (1 - fold_right Qplus 0 (zip_with Qmult a b))%Q.

Definition issueRow (number : Z) (title : list Z) : ItemRow :=
  {| row_type := str "issue"; row_number := number; row_title := title;
     row_body := []; row_author := []; row_state := str "open";
     row_labels := []; row_files := []; row_url := [];
     row_created_at := 1%Z; row_updated_at := 1%Z |}.

(** Four stored vectors; the item row of [issue/3] is gone. *)
Definition sampleDB : DB :=
  {| schema_version := Some [(1, 1); (2, 1)]%Z;
     objects := ∅;
     items := <[str "issue/1" := issueRow 1 (str "one")]>
              (<[str "issue/2" := issueRow 2 (str "two")]>
              (<[str "issue/4" := issueRow 4 (str "four")]> ∅));
     items_vec :=
       [ (str "issue/4", Some [-1; 0; 0]);
         (str "issue/3", Some [0; 1; 0]);
         (str "issue/2", Some [0.6; 0.8; 0]);
         (str "issue/1", Some [1; 0; 0]) ]%Q |}.

(** A second event for [issue/1], which [sampleDB] already holds. *)
Definition issueOneEdited : ItemRecord :=
  {| rec_ID := str "issue/1"; rec_Type := str "issue"; rec_Number := 1;
     rec_Title := str "one, edited"; rec_Body := str "new body";
     rec_Author := str "bob"; rec_State := str "closed";
     rec_Labels := [str "bug"]; rec_Files := []; rec_URL := str "u";
     rec_CreatedAt := 0%Z; rec_UpdatedAt := 7%Z |}.

(** A build without [fts5] whose [LIKE] query finds two items. *)
Definition likeRows : list fallbackFTSRow :=
  [ {| fb_ID := str "issue/2"; fb_Type := str "issue"; fb_Number := 2;
       fb_Title := str "Login page"; fb_State := str "open"; fb_URL := [];
       fb_LowerText := str "login page blank" |};
    {| fb_ID := str "issue/1"; fb_Type := str "issue"; fb_Number := 1;
       fb_Title := str "Login timeout"; fb_State := str "open"; fb_URL := [];
       fb_LowerText := str "login timeout after login" |} ].

Definition likeSqlite : Sqlite :=
  {| has_fts5 := false; has_vec0 := false; fault := None;
     vec0_knn := fun _ _ _ => Err (str "no such module: vec0");
     fts5_match := fun _ _ _ _ => Err (str "no such module: fts5");
     like_match := fun _ _ _ _ => Ok likeRows |}.

(** The versions recorded in [schema_version], in row order. *)
Definition recordedVersions (db : DB) : list Z :=
  match schema_version db with
  | Some rows => map fst rows
  | None => []
  end.

(** The states of [schema_version] that [ApplyMigrations] itself
    produces: no row, version 1, versions 1 and 2. *)
Definition schemaReachable (db : DB) : Prop :=
  recordedVersions db = [] \/ recordedVersions db = [1%Z] \/
  recordedVersions db = [1%Z; 2%Z].

(** A database file that does not exist yet. *)
Definition freshDB : DB :=
  {| schema_version := None; objects := ∅; items := ∅; items_vec := [] |}.

(** *** The schema after a run of the migrations *)

(** The value [currentSchemaVersion] reads once the table exists: the
    largest recorded version, zero for no row. *)
Definition versionOf (db : DB) : Z :=
  match schema_version db with
  | Some (row :: rows) => fold_left Z.max (map fst rows) (fst row)
  | _ => 0%Z
  end.

(** The versions of [migrations] above [current], the ones a run applies. *)
Definition pendingVersions (current : Z) : list Z :=
  List.filter (fun v => (current <? v)%Z) [1; 2]%Z.

(** The objects [migrateV1] creates when they do not exist. *)
Definition objectsV1 : gmap (list Z) objKind :=
  {[str "items" := Table]} ∪ {[str "idx_items_type" := Index]} ∪
  {[str "idx_items_number" := Index]} ∪ {[str "idx_items_state" := Index]}.

(** The objects [migrateV2] creates when they do not exist: a search
    table is virtual when its module is there, a plain table otherwise. *)
Definition objectsV2 `{Sqlite} : gmap (list Z) objKind :=
  {[str "items_fts" := if has_fts5 then VirtualTable else Table]} ∪
  {[str "items_fts_insert" := Trigger]} ∪ {[str "items_fts_delete" := Trigger]} ∪
  {[str "items_fts_update" := Trigger]} ∪
  {[str "items_vec" := if has_vec0 then VirtualTable else Table]}.

(** [db'] is [db] with the objects of [added] that [db] does not have,
    every table row as it was. *)
Definition withObjects (added : gmap (list Z) objKind) (db db' : DB) : Prop :=
  schema_version db' = schema_version db /\
  items db' = items db /\
  items_vec db' = items_vec db /\
  objects db' = objects db ∪ added.

(** A database whose version table holds a row that no migration of this
    program wrote, and which has a plain [items_fts] table already. *)
Definition foreignDB : DB :=
  {| schema_version := Some [(-4, 5)]%Z;
     objects := {[str "items_fts" := Table]};
     items := {[str "issue/1" := issueRow 1 (str "one")]};
     items_vec := [(str "issue/1", None)] |}.

(** *** Vector codec *)

(** The little-endian assembly of [decodeFloat32Vector]: four bytes give
    the bit pattern handed to [math.Float32frombits].  A [float32] is
    kept as this 32-bit pattern. *)
Definition float32bits (b0 b1 b2 b3 : Z) : Z :=
  Z.lor (Z.lor (Z.lor b0 (Z.shiftl b1 8)) (Z.shiftl b2 16)) (Z.shiftl b3 24).

(** The loop of [decodeFloat32Vector] over a blob whose length is a
    multiple of four. *)
Fixpoint decodeWords (blob : list Z) : list Z :=
  match blob with
  | b0 :: b1 :: b2 :: b3 :: rest => float32bits b0 b1 b2 b3 :: decodeWords rest
  | _ => []
  end.

(** [decodeFloat32Vector] *)
Definition decodeFloat32Vector (blob : list Z) : result (list Z) :=
  if negb (Z.of_nat (length blob) mod 4 =? 0)%Z
  then Err (str "invalid float32 vector byte length: " ++ itoa (Z.of_nat (length blob)))
  else Ok (decodeWords blob).

(** The four bytes of a 32-bit pattern, lowest first: the layout
    [SerializeFloat32] of the sqlite-vec binding writes. *)
Definition littleEndian32 (w : Z) : list Z :=
  [Z.land w 255; Z.land (Z.shiftr w 8) 255; Z.land (Z.shiftr w 16) 255;
   Z.land (Z.shiftr w 24) 255].

Definition encodeWords (ws : list Z) : list Z := flat_map littleEndian32 ws.

(** The values of a [byte] and of a [uint32]. *)
Definition isByte (b : Z) : Prop := (0 <= b < 256)%Z.
Definition isWord32 (w : Z) : Prop := (0 <= w < 2 ^ 32)%Z.

(** *** UpsertVector *)

(** Whether the [vec0] build refuses [INSERT OR REPLACE] on an id that
    is already stored. *)
Class Vec0Build := rejects_replace : bool.

Definition set_items_vec (rows : list (list Z * storedVector)) (db : DB) : DB :=
  {| schema_version := schema_version db; objects := objects db; items := items db;
     items_vec := rows |}.

Definition hasVector (id : list Z) (rows : list (list Z * storedVector)) : bool :=
  existsb (fun row => bool_decide (fst row = id)) rows.

(** [DELETE FROM items_vec WHERE id = ?] on the rows. *)
Definition deleteVector (id : list Z) (rows : list (list Z * storedVector))
    : list (list Z * storedVector) :=
  List.filter (fun row => negb (bool_decide (fst row = id))) rows.

(** [INSERT OR REPLACE INTO items_vec(id, embedding)] *)
Definition insertOrReplaceVector `{Sqlite} `{Vec0Build} (id : list Z)
    (embedding : list Q) (db : DB) : result DB :=
  match fault with
  | Some e => Err e
  | None =>
      if rejects_replace && hasVector id (items_vec db)
      then Err (str "UNIQUE constraint failed on items_vec primary key")
      else Ok (set_items_vec (deleteVector id (items_vec db) ++ [(id, Some embedding)]) db)
  end.

(** [INSERT INTO items_vec(id, embedding)] *)
Definition insertVector `{Sqlite} (id : list Z) (embedding : list Q) (db : DB)
    : result DB :=
  match fault with
  | Some e => Err e
  | None =>
      if hasVector id (items_vec db)
      then Err (str "UNIQUE constraint failed on items_vec primary key")
      else Ok (set_items_vec (items_vec db ++ [(id, Some embedding)]) db)
  end.

(** [UpsertVector] *)
Definition UpsertVector `{Sqlite} `{Vec0Build} `{UnicodeCase} (s : Store)
    (id : list Z) (embedding : list Q) : option (list Z) * Store :=
  match s with
  | None => (Some (str "store is not initialized"), s)
  | Some db =>
      if bool_decide (TrimSpace id = [])
      then (Some (str "item id is required"), s)
      else if (length embedding =? 0)%nat
      then (Some (str "embedding is required"), s)
      else
        match insertOrReplaceVector id embedding db with
        | Ok db' => (None, Some db')
        | Err err =>
            if negb (Contains (ToLower err) (str "unique constraint failed"))
            then (Some (str "upsert vector: " ++ err), s)
            else
              match exec (fun db => set_items_vec (deleteVector id (items_vec db)) db) db with
              | Err err => (Some (str "upsert vector delete existing: " ++ err), s)
              | Ok db1 =>
                  match insertVector id embedding db1 with
                  | Err err => (Some (str "upsert vector insert: " ++ err), Some db1)
                  | Ok db2 => (None, Some db2)
                  end
              end
        end
  end.

(** The order of the fallback results in words: more occurrences (a
    more negative raw score) first, then smaller id. *)
Definition ftsBefore (a b : FTSResult) : Prop :=
  (fts_RawBM25 a < fts_RawBM25 b)%Q \/
  ((fts_RawBM25 a == fts_RawBM25 b)%Q /\ ltb (fts_ID b) (fts_ID a) = false).

(** A word character of [splitWords]. *)
Definition wordChar `{UnicodeClass} (r : Z) : bool :=
  unicode_IsLetter r || unicode_IsDigit r || (r =? 95)%Z.

(** The first of [items] filed under [id], with its rank; the head of
    [items] has rank [rank]. *)
Fixpoint firstAt {A} (key : A -> list Z) (id : list Z) (rank : Z) (items : list A)
    : option (Z * A) :=
  match items with
  | [] => None
  | item :: rest =>
      if bool_decide (key item = id) then Some (rank, item)
      else firstAt key id (rank + 1) rest
  end.

(** What one result list adds to the RRF score of [id]: the term of the
    rank of its first entry for [id]. *)
Definition rrfShare {A} (key : A -> list Z) (id : list Z) (items : list A) : Q :=
  match firstAt key id 0 items with
  | Some (rank, _) => rrfTerm rank
  | None => 0
  end.

(** The score one result list gives [id]: the clamped score of its
    first entry for [id]. *)
Definition scoreShare {A} (key : A -> list Z) (score : A -> Q) (id : list Z)
    (items : list A) : Q :=
  match firstAt key id 0 items with
  | Some (_, item) => clamp01 (score item)
  | None => 0
  end.

End Store.

(** ** Effects: calls on the outside world *)

Module Eff.

(** A computation that reads and changes a world [W]. *)
Definition M (W A : Type) : Type := W -> A * W.

Definition ret {W A} (a : A) : M W A := fun w => (a, w).

Definition bind {W A B} (m : M W A) (k : A -> M W B) : M W B :=
  fun w => let (a, w') := m w in k a w'.

End Eff.
Import Eff.

Notation "x <- m ;; k" := (bind m (fun x => k))
  (at level 100, m at next level, right associativity).

(** ** Package github: the managed comment and the state transport *)

Module Github.

Definition CommentMarker : list Z := str "<!-- triage-bot:v1 -->".

Inductive CommentAction :=
| CommentActionNoop
| CommentActionCreated
| CommentActionUpdated
| CommentActionDeleted.

Record IssueComment := {
  ic_ID : Z;
  ic_Body : list Z;
  ic_Author : list Z
}.

(** The interface [CommentAPI] over a platform state [W]; the arguments
    are owner, repository, then issue number or comment id, then body. *)
Class CommentAPI (W : Type) := {
  ListIssueComments : list Z -> list Z -> Z -> M W (result (list IssueComment));
  CreateIssueComment : list Z -> list Z -> Z -> list Z -> M W (result IssueComment);
  UpdateIssueComment : list Z -> list Z -> Z -> list Z -> M W (result IssueComment);
  DeleteIssueComment : list Z -> list Z -> Z -> M W (option (list Z))
}.

(** [FindTriageComment] *)
Fixpoint FindTriageComment (comments : list IssueComment) : IssueComment * bool :=
  match comments with
  | [] => ({| ic_ID := 0; ic_Body := []; ic_Author := [] |}, false)
  | comment :: rest =>
      if Contains (ic_Body comment) CommentMarker then (comment, true)
      else FindTriageComment rest
  end.

(** [normalizeCommentBody] *)
Definition normalizeCommentBody (body : list Z) : list Z :=
  let body := TrimSpace body in
  if bool_decide (body = []) then []
  else if HasPrefix body CommentMarker then body
  else CommentMarker ++ [10%Z] ++ body.

(** [CommentManager.UpsertTriageComment]; an [Err] stands for the empty
    action returned with an error. *)
Definition UpsertTriageComment {W} `{CommentAPI W} (owner repo : list Z)
    (number : Z) (body : list Z) : M W (result CommentAction) :=
  comments <- ListIssueComments owner repo number ;;
  match comments with
  | Err err => ret (Err err)
  | Ok comments =>
      let (existing, found) := FindTriageComment comments in
      let normalizedBody := normalizeCommentBody body in
      if bool_decide (TrimSpace normalizedBody = []) then
        if negb found then ret (Ok CommentActionNoop)
        else
          err <- DeleteIssueComment owner repo (ic_ID existing) ;;
          match err with
          | Some err => ret (Err err)
          | None => ret (Ok CommentActionDeleted)
          end
      else if found then
        if bool_decide (TrimSpace (ic_Body existing) = TrimSpace normalizedBody)
        then ret (Ok CommentActionNoop)
        else
          r <- UpdateIssueComment owner repo (ic_ID existing) normalizedBody ;;
          match r with
          | Err err => ret (Err err)
          | Ok _ => ret (Ok CommentActionUpdated)
          end
      else
        r <- CreateIssueComment owner repo number normalizedBody ;;
        match r with
        | Err err => ret (Err err)
        | Ok _ => ret (Ok CommentActionCreated)
        end
  end.

(** The reconcile table of the claim, on the three facts it names. *)
Definition reconcile (existsBefore bodyEquivalent candidateEmpty : bool)
    : CommentAction :=
  if candidateEmpty then
    if existsBefore then CommentActionDeleted else CommentActionNoop
  else if existsBefore then
    if bodyEquivalent then CommentActionNoop else CommentActionUpdated
  else CommentActionCreated.

(** An in-memory platform in the manner of the fake of the tests: the
    comments of the one issue, never failing. *)
Definition nextCommentID (comments : list IssueComment) : Z :=
  (1 + fold_right Z.max 0 (map ic_ID comments))%Z.

#[export] Instance memoryAPI : CommentAPI (list IssueComment) := {
  ListIssueComments _ _ _ := fun w => (Ok w, w);
  CreateIssueComment _ _ _ body := fun w =>
    let c := {| ic_ID := nextCommentID w; ic_Body := body; ic_Author := [] |} in
    (Ok c, w ++ [c]);
  UpdateIssueComment _ _ id body := fun w =>
    let c := {| ic_ID := id; ic_Body := body; ic_Author := [] |} in
    (Ok c, map (fun old => if (ic_ID old =? id)%Z then c else old) w);
  DeleteIssueComment _ _ id := fun w =>
    (None, filter (fun old => negb (ic_ID old =? id)%Z) w)
}.

(** *** State transport *)

Definition defaultIndexFileName : list Z := str "index.db".

(** The interface [CommandRunner]: directory, program, arguments; the
    answer is the combined output and the error, if any. *)
Class CommandRunner (W : Type) :=
  Run : list Z -> list Z -> list (list Z) -> M W (list Z * option (list Z)).

(** The calls on the operating system made by [Pull]: [os.MkdirTemp],
    [os.RemoveAll], [os.Stat] and the file copy of [copyFile]. *)
Class FileSystem (W : Type) := {
  MkdirTemp : list Z -> M W (result (list Z));
  RemoveAll : list Z -> M W unit;
  Stat : list Z -> M W (option (list Z));
  copyFile : list Z -> list Z -> M W (option (list Z))
}.

Record StateManager := {
  Owner : list Z;
  Repo : list Z;
  Token : list Z;
  Branch : list Z
}.

(** [StateManager.branchName] *)
Definition branchName (m : StateManager) : list Z :=
  if bool_decide (TrimSpace (Branch m) = []) then str "triage-index"
  else Branch m.

(** [StateManager.remoteURL] *)
Definition remoteURL (m : StateManager) : result (list Z) :=
  if bool_decide (TrimSpace (Token m) = [])
  then Err (str "token is required for state manager")
  else if bool_decide (TrimSpace (Owner m) = []) || bool_decide (TrimSpace (Repo m) = [])
  then Err (str "owner/repo is required for state manager")
  else Ok (str "https://x-access-token:" ++ Token m ++ str "@github.com/" ++
           Owner m ++ str "/" ++ Repo m ++ str ".git").

(** [isMissingBranchError] *)
Definition isMissingBranchError `{UnicodeCase} (raw : list Z) : bool :=
  let raw := ToLower raw in
  Contains raw (str "couldn't find remote ref") || Contains raw (str "unknown revision").

(** [filepath.Join] of a directory and a file name. *)
Definition pathJoin (dir file : list Z) : list Z := dir ++ str "/" ++ file.

(** [Pull] once the temporary directory exists. *)
Definition pullInto {W} `{CommandRunner W} `{FileSystem W} `{UnicodeCase}
    (m : StateManager) (url dstPath tmpDir : list Z) : M W (bool * option (list Z)) :=
  r <- Run tmpDir (str "git") [str "init"] ;;
  match snd r with
  | Some err => ret (false, Some err)
  | None =>
  r <- Run tmpDir (str "git") [str "remote"; str "add"; str "origin"; url] ;;
  match snd r with
  | Some err => ret (false, Some err)
  | None =>
  let branch := branchName m in
  r <- Run tmpDir (str "git") [str "fetch"; str "origin"; branch; str "--depth=1"] ;;
  match r with
  | (out, Some err) =>
      if isMissingBranchError out || isMissingBranchError err
      then ret (false, None)
      else ret (false, Some err)
  | (_, None) =>
  r <- Run tmpDir (str "git")
         [str "checkout"; str "FETCH_HEAD"; str "--"; defaultIndexFileName] ;;
  match snd r with
  | Some err => ret (false, Some err)
  | None =>
  let src := pathJoin tmpDir defaultIndexFileName in
  err <- Stat src ;;
  match err with
  | Some err => ret (false, Some (str "pulled index file missing: " ++ err))
  | None =>
  err <- copyFile src dstPath ;;
  match err with
  | Some err => ret (false, Some (str "copy pulled index file: " ++ err))
  | None => ret (true, None)
  end end end end end end.

(** [StateManager.Pull]: found, and the error if any. *)
Definition Pull {W} `{CommandRunner W} `{FileSystem W} `{UnicodeCase}
    (m : StateManager) (dstPath : list Z) : M W (bool * option (list Z)) :=
  match remoteURL m with
  | Err err => ret (false, Some err)
  | Ok url =>
      if bool_decide (TrimSpace dstPath = [])
      then ret (false, Some (str "destination path is required"))
      else
        tmp <- MkdirTemp (str "triage-state-pull-*") ;;
        match tmp with
        | Err err => ret (false, Some (str "create temp dir: " ++ err))
        | Ok tmpDir =>
            r <- pullInto m url dstPath tmpDir ;;
            _ <- RemoveAll tmpDir ;;
            ret r
        end
  end.

(** A world that records the commands run, with a remote that has no
    index branch yet: the fake runner of the first-run test. *)
Record FakeWorld := {
  commands : list (list (list Z));
  copied : list (list Z * list Z)
}.

#[export] Instance firstRunRunner : CommandRunner FakeWorld :=
  fun dir name args w =>
    let w' := {| commands := commands w ++ [name :: args]; copied := copied w |} in
    match args with
    | verb :: _ =>
        if bool_decide (verb = str "fetch")
        then ((str "fatal: couldn't find remote ref triage-index",
               Some (str "missing branch")), w')
        else (([], None), w')
    | [] => (([], None), w')
    end.

#[export] Instance fakeFileSystem : FileSystem FakeWorld := {
  MkdirTemp pattern := fun w => (Ok (str "/tmp/triage-state-pull-1"), w);
  RemoveAll _ := fun w => (tt, w);
  Stat _ := fun w => (None, w);
  copyFile src dst := fun w =>
    (None, {| commands := commands w; copied := copied w ++ [(src, dst)] |})
}.

Definition emptyWorld : FakeWorld := {| commands := []; copied := [] |}.

(** *** Push and the event repository *)

(** [Push] once the temporary directory exists. *)
Definition pushFrom {W} `{CommandRunner W} `{FileSystem W}
    (m : StateManager) (url srcPath tmpDir : list Z) : M W (option (list Z)) :=
  r <- Run tmpDir (str "git") [str "init"] ;;
  match snd r with
  | Some err => ret (Some err)
  | None =>
  r <- Run tmpDir (str "git") [str "remote"; str "add"; str "origin"; url] ;;
  match snd r with
  | Some err => ret (Some err)
  | None =>
  let branch := branchName m in
  r <- Run tmpDir (str "git") [str "checkout"; str "--orphan"; branch] ;;
  match snd r with
  | Some err => ret (Some err)
  | None =>
  _ <- Run tmpDir (str "git") [str "rm"; str "-rf"; str "."] ;;
  let dst := pathJoin tmpDir defaultIndexFileName in
  err <- copyFile srcPath dst ;;
  match err with
  | Some err => ret (Some (str "copy index file for push: " ++ err))
  | None =>
  r <- Run tmpDir (str "git") [str "add"; defaultIndexFileName] ;;
  match snd r with
  | Some err => ret (Some err)
  | None =>
  r <- Run tmpDir (str "git")
         [str "-c"; str "user.name=triage-bot"; str "-c";
          str "user.email=triage-bot@users.noreply.github.com";
          str "commit"; str "-m"; str "Update triage index [skip ci]"] ;;
  match snd r with
  | Some err => ret (Some err)
  | None =>
  r <- Run tmpDir (str "git") [str "push"; str "origin"; branch; str "--force"] ;;
  match snd r with
  | Some err => ret (Some err)
  | None => ret None
  end end end end end end end.

(** [StateManager.Push] *)
Definition Push {W} `{CommandRunner W} `{FileSystem W}
    (m : StateManager) (srcPath : list Z) : M W (option (list Z)) :=
  match remoteURL m with
  | Err err => ret (Some err)
  | Ok url =>
      if bool_decide (TrimSpace srcPath = [])
      then ret (Some (str "source path is required"))
      else
        st <- Stat srcPath ;;
        match st with
        | Some err => ret (Some (str "source index file missing: " ++ err))
        | None =>
            tmp <- MkdirTemp (str "triage-state-push-*") ;;
            match tmp with
            | Err err => ret (Some (str "create temp dir: " ++ err))
            | Ok tmpDir =>
                r <- pushFrom m url srcPath tmpDir ;;
                _ <- RemoveAll tmpDir ;;
                ret r
            end
        end
  end.

(** A runner that records the commands and fails only [git rm], as on
    the first push into an empty tree. *)
#[export] Instance emptyTreeRunner : CommandRunner FakeWorld :=
  fun dir name args w =>
    let w' := {| commands := commands w ++ [name :: args]; copied := copied w |} in
    match args with
    | verb :: _ =>
        if bool_decide (verb = str "rm")
        then ((str "fatal: pathspec '.' did not match any files",
               Some (str "exit status 128")), w')
        else (([], None), w')
    | [] => (([], None), w')
    end.

(** [strings.Split(s, sep)] for a one-character separator. *)
Fixpoint splitOn (sep : Z) (s : list Z) : list (list Z) :=
  match s with
  | [] => [[]]
  | c :: rest =>
      if (c =? sep)%Z then [] :: splitOn sep rest
      else
        match splitOn sep rest with
        | part :: parts => (c :: part) :: parts
        | [] => [[c]]
        end
  end.

(** [ParseRepository]: owner and repository. *)
Definition ParseRepository (repository : list Z) : result (list Z * list Z) :=
  let repository := TrimSpace repository in
  match splitOn 47 repository with
  | [owner; repo] =>
      if bool_decide (TrimSpace owner = []) || bool_decide (TrimSpace repo = [])
      then Err (str "invalid repository format, expected owner/repo: " ++ repository)
      else Ok (TrimSpace owner, TrimSpace repo)
  | _ => Err (str "invalid repository format, expected owner/repo: " ++ repository)
  end.

(** [normalizeFilePaths] *)
Fixpoint normalizeFilePaths (paths : list (list Z)) : list (list Z) :=
  match paths with
  | [] => []
  | p :: rest =>
      let p := TrimSpace p in
      if bool_decide (p = []) then normalizeFilePaths rest
      else p :: normalizeFilePaths rest
  end.

(** A state manager with every field it needs. *)
Definition sampleManager : StateManager :=
  {| Owner := str "acme"; Repo := str "repo"; Token := str "t0ken"; Branch := [] |}.

End Github.

(** ** Package embed: the embedding client *)

Module Embed.

Definition DefaultEmbeddingDimensions : Z := 1536.
Definition DefaultMaxInputChars : Z := 30000.

(** One second of [time.Duration], in nanoseconds. *)
Definition Second : Z := 1000000000.

(** [truncateForEmbedding] *)
Definition truncateForEmbedding (text : list Z) (maxChars : Z) : list Z :=
  if (maxChars <=? 0)%Z then []
  else if (Z.of_nat (length text) <=? maxChars)%Z then text
  else firstn (Z.to_nat maxChars) text.

(** [1 << attempt] on [int] for a count that is not negative: the power
    of two modulo [2^64], read as signed. *)
Definition shiftOne (attempt : Z) : Z :=
  ((2 ^ attempt + 2 ^ 63) mod 2 ^ 64 - 2 ^ 63)%Z.

(** [backoffDuration]; a negative [attempt] makes the shift panic, which
    is [None]. *)
Definition backoffDuration (attempt : Z) : option Z :=
  if (attempt <? 0)%Z then None
  else
    let seconds := shiftOne attempt in
    let seconds := if (seconds <? 1)%Z then 1%Z else seconds in
    let seconds := if (30 <? seconds)%Z then 30%Z else seconds in
    Some (seconds * Second)%Z.

(** What [requestEmbeddings] returns: the vectors, or the wait asked for
    by [Retry-After] (zero when none) with the error. *)
Inductive response :=
| Vectors (vectors : list (list Q))
| Failed (retryAfter : Z) (err : list Z).

(** The two calls of [EmbedBatch] on the outside: the HTTP round trip of
    [requestEmbeddings] for a request of the given inputs, and the
    [sleep] of the configuration. *)
Class Transport (W : Type) := {
  requestEmbeddings : list (list Z) -> M W response;
  sleep : Z -> M W unit
}.

Record GitHubModelsEmbedder := {
  maxRetries : Z;
  maxChars : Z;
  dimensions : Z
}.

(** The normalisation of the numeric settings in
    [NewGitHubModelsEmbedder]. *)
Definition NewGitHubModelsEmbedder (cfgMaxRetries cfgMaxChars cfgDimensions : Z)
    : GitHubModelsEmbedder :=
  {| maxRetries := if (cfgMaxRetries <? 0)%Z then 0%Z else cfgMaxRetries;
     maxChars := if (cfgMaxChars <=? 0)%Z then DefaultMaxInputChars else cfgMaxChars;
     dimensions := if (cfgDimensions <=? 0)%Z then DefaultEmbeddingDimensions
                   else cfgDimensions |}.

(** The retry loop of [EmbedBatch]: [fuel] is the number of iterations
    left, [attempt] the loop counter, [lastErr] the last error seen. *)
Fixpoint retryLoop {W} `{Transport W} (g : GitHubModelsEmbedder) (fuel : nat)
    (attempt : Z) (truncated : list (list Z)) (lastErr : list Z)
    : M W (result (list (list Q))) :=
  match fuel with
  | O =>
      ret (Err (str "embed batch failed after " ++ itoa (maxRetries g + 1) ++
                str " attempts: " ++ lastErr))
  | S fuel' =>
      r <- requestEmbeddings truncated ;;
      match r with
      | Vectors vectors => ret (Ok vectors)
      | Failed retryAfter err =>
          if (attempt =? maxRetries g)%Z
          then ret (Err (str "embed batch failed after " ++ itoa (maxRetries g + 1) ++
                         str " attempts: " ++ err))
          else
            let wait :=
              if (retryAfter <=? 0)%Z
              then match backoffDuration attempt with Some d => d | None => 0%Z end
              else retryAfter in
            _ <- sleep wait ;;
            retryLoop g fuel' (attempt + 1) truncated err
      end
  end.

(** [GitHubModelsEmbedder.EmbedBatch] *)
Definition EmbedBatch {W} `{Transport W} (g : GitHubModelsEmbedder)
    (texts : list (list Z)) : M W (result (list (list Q))) :=
  if (length texts =? 0)%nat then ret (Ok [])
  else
    let truncated := map (fun text => truncateForEmbedding text (maxChars g)) texts in
    retryLoop g (Z.to_nat (maxRetries g + 1)) 0 truncated [].

(** [GitHubModelsEmbedder.Embed] *)
Definition Embed {W} `{Transport W} (g : GitHubModelsEmbedder) (text : list Z)
    : M W (result (list Q)) :=
  r <- EmbedBatch g [text] ;;
  match r with
  | Err err => ret (Err err)
  | Ok [] => ret (Err (str "embed response contained no vectors"))
  | Ok (v :: _) => ret (Ok v)
  end.

(** A transport that answers from a script and records what it is asked
    and how long the client sleeps. *)
Record Scripted := {
  script : list response;
  asked : list (list (list Z));
  slept : list Z
}.

#[export] Instance scriptedTransport : Transport Scripted := {
  requestEmbeddings inputs := fun w =>
    match script w with
    | [] => (Failed 0 (str "connection refused"),
             {| script := []; asked := asked w ++ [inputs]; slept := slept w |})
    | r :: rest => (r, {| script := rest; asked := asked w ++ [inputs];
                          slept := slept w |})
    end;
  sleep d := fun w =>
    (tt, {| script := script w; asked := asked w; slept := slept w ++ [d] |})
}.

(** A failed attempt as the script has it: the wait asked for and the
    error. *)
Definition failed (f : Z * list Z) : response := Failed (fst f) (snd f).

(** The waits after the failed attempts [attempt], [attempt + 1], ...:
    the wait the failure asked for when there is one, the backoff of
    the attempt otherwise. *)
Fixpoint waitsFrom (attempt : Z) (failures : list (Z * list Z)) : list Z :=
  match failures with
  | [] => []
  | f :: rest =>
      (if (fst f <=? 0)%Z
       then match backoffDuration attempt with Some d => d | None => 0%Z end
       else fst f) :: waitsFrom (attempt + 1) rest
  end.

End Embed.

(** ** Package engine: the per-event pipeline *)

Module Engine.

Record Event := {
  ev_Type : list Z;
  ev_Action : list Z;
  ev_Owner : list Z;
  ev_Repo : list Z;
  ev_Number : Z;
  ev_Title : list Z;
  ev_Body : list Z;
  ev_Author : list Z;
  ev_Labels : list (list Z);
  ev_State : list Z;
  ev_URL : list Z;
  ev_Diff : list Z;
  ev_Files : list (list Z)
}.

(** The interfaces [SearchIndexer], [CommentManager] and
    [embed.Embedder] over a world [W]. *)
Record SearchIndexer (W : Type) := {
  SearchVector : list Q -> list Z -> Z -> M W (result (list Store.VectorResult));
  SearchFTS : list Z -> list Z -> Z -> M W (result (list Store.FTSResult));
  UpsertItem : Store.ItemRecord -> M W (option (list Z));
  UpsertVector : list Z -> list Q -> M W (option (list Z))
}.
Arguments SearchVector {W}.
Arguments SearchFTS {W}.
Arguments UpsertItem {W}.
Arguments UpsertVector {W}.

Definition CommentManager (W : Type) : Type :=
  list Z -> list Z -> Z -> list Z -> M W (result Github.CommentAction).

Definition Embedder (W : Type) : Type := list Z -> M W (result (list Q)).

Definition Formatter : Type := Event -> list Store.FusedResult -> list Z.

Record Config := {
  cfg_SimilarityThreshold : Q;
  cfg_DuplicateThreshold : Q;
  cfg_MaxResults : Z
}.

(** [Engine]; a [None] field is a nil dependency. *)
Record Engine (W : Type) := {
  eng_Embedder : option (Embedder W);
  eng_Store : option (SearchIndexer W);
  eng_Comments : option (CommentManager W);
  eng_Formatter : option Formatter;
  eng_Config : Config
}.
Arguments eng_Embedder {W}.
Arguments eng_Store {W}.
Arguments eng_Comments {W}.
Arguments eng_Formatter {W}.
Arguments eng_Config {W}.

Definition similarityThreshold {W} (e : Engine W) : Q :=
  if Qle_bool (cfg_SimilarityThreshold (eng_Config e)) 0 then 0.75
  else cfg_SimilarityThreshold (eng_Config e).

Definition duplicateThreshold {W} (e : Engine W) : Q :=
  if Qle_bool (cfg_DuplicateThreshold (eng_Config e)) 0 then 0.92
  else cfg_DuplicateThreshold (eng_Config e).

Definition maxResults {W} (e : Engine W) : Z :=
  if (cfg_MaxResults (eng_Config e) <=? 0)%Z then 5%Z
  else cfg_MaxResults (eng_Config e).

(** [buildEmbeddableContent] *)
Definition buildEmbeddableContent (event : Event) : list Z :=
  if bool_decide (ev_Type event = str "issue")
  then Ingest.BuildIssueContent (ev_Title event) (ev_Body event)
  else if bool_decide (ev_Type event = str "pr") then
    let mode :=
      if (0 <? length (ev_Files event))%nat
         && bool_decide (TrimSpace (ev_Diff event) = [])
      then Ingest.PRDiffModeSkipDiffKeepFiles
      else if (length (ev_Files event) =? 0)%nat
              && bool_decide (TrimSpace (ev_Diff event) = [])
      then Ingest.PRDiffModeTitleBodyOnly
      else Ingest.PRDiffModeInclude in
    Ingest.BuildPRContent
      {| Ingest.Title := ev_Title event; Ingest.Body := ev_Body event;
         Ingest.Files := ev_Files event; Ingest.Diff := ev_Diff event;
         Ingest.Mode := mode |}
  else [].

(** [normalizeItemType] *)
Definition normalizeItemType (kind : list Z) : list Z :=
  if bool_decide (kind = str "issue") then str "issue" else str "pr".

(** [buildItemRecord] *)
Definition buildItemRecord (event : Event) (id : list Z) : Store.ItemRecord :=
  {| Store.rec_ID := id;
     Store.rec_Type := normalizeItemType (ev_Type event);
     Store.rec_Number := ev_Number event;
     Store.rec_Title := ev_Title event;
     Store.rec_Body := ev_Body event;
     Store.rec_Author := ev_Author event;
     Store.rec_State := ev_State event;
     Store.rec_Labels := ev_Labels event;
     Store.rec_Files := ev_Files event;
     Store.rec_URL := ev_URL event;
     Store.rec_CreatedAt := 0%Z;
     Store.rec_UpdatedAt := 0%Z |}.

(** [int(x)] for a score: truncation toward zero. *)
Definition truncQ (x : Q) : Z := Z.quot (Qnum x) (Zpos (Qden x)).

(** [defaultReport] *)
Definition defaultReport (event : Event) (results : list Store.FusedResult) : list Z :=
  Github.CommentMarker ++ [10%Z] ++ str "### Triage Report" ++ [10; 10]%Z ++
  flat_map (fun result =>
    let percent := truncQ (Store.fused_DisplaySimilarity result * 100) in
    str "- #" ++ itoa (Store.fused_Number result) ++ str " " ++
    Store.fused_Title result ++ str " (" ++ itoa percent ++ str "%)" ++ [10%Z])
    results.

(** The id under which the event is stored and which the searches and
    the fusion exclude. *)
Definition currentID `{UnicodeCase} (event : Event) : list Z :=
  Store.BuildItemID (ev_Type event) (ev_Number event).

Definition fuseConfig {W} (e : Engine W) : Store.FuseConfig :=
  {| Store.SimilarityThreshold := similarityThreshold e;
     Store.DuplicateThreshold := duplicateThreshold e;
     Store.MaxResults := maxResults e |}.

(** What the search stage of [Handle] hands on: the embedding and the
    fused list. *)
Definition Searched : Type := list Q * list Store.FusedResult.

(** The search stage of [Handle]: embed, search both indexes with the
    current id excluded, fuse. *)
Definition searchAndFuse {W} `{UnicodeCase} (e : Engine W) (store : SearchIndexer W)
    (event : Event) : M W (result Searched) :=
  let currentID := currentID event in
  let content := buildEmbeddableContent event in
  let fuse vecResults ftsResults :=
    Store.FuseResults vecResults ftsResults currentID (fuseConfig e) in
  if negb (bool_decide (TrimSpace content = [])) then
    match eng_Embedder e with
    | None =>
        ret (Err (str "embedder dependency is required when content is available"))
    | Some embed =>
        vec <- embed content ;;
        match vec with
        | Err err => ret (Err (str "embed content: " ++ err))
        | Ok embedding =>
            let limit := maxResults e in
            vecResults <- SearchVector store embedding currentID limit ;;
            match vecResults with
            | Err err => ret (Err (str "vector search: " ++ err))
            | Ok vecResults =>
                ftsResults <- SearchFTS store content currentID limit ;;
                match ftsResults with
                | Err err => ret (Err (str "fts search: " ++ err))
                | Ok ftsResults => ret (Ok (embedding, fuse vecResults ftsResults))
                end
            end
        end
    end
  else ret (Ok ([], fuse [] [])).

(** [Engine.Handle]; [None] for the engine is a nil receiver. *)
Definition Handle {W} `{UnicodeCase} (e : option (Engine W)) (event : Event)
    : M W (option (list Z)) :=
  match e with
  | None => ret (Some (str "nil engine"))
  | Some e =>
  match eng_Store e with
  | None => ret (Some (str "store dependency is required"))
  | Some store =>
  match eng_Comments e with
  | None => ret (Some (str "comment manager dependency is required"))
  | Some comments =>
      searched <- searchAndFuse e store event ;;
      match searched with
      | Err err => ret (Some err)
      | Ok (embedding, fused) =>
          let item := buildItemRecord event (currentID event) in
          err <- UpsertItem store item ;;
          match err with
          | Some err => ret (Some (str "upsert item: " ++ err))
          | None =>
              err <- (if (0 <? length embedding)%nat
                      then UpsertVector store (currentID event) embedding
                      else ret None) ;;
              match err with
              | Some err => ret (Some (str "upsert vector: " ++ err))
              | None =>
                  let commentBody :=
                    if (0 <? length fused)%nat then
                      match eng_Formatter e with
                      | Some format => format event fused
                      | None => defaultReport event fused
                      end
                    else [] in
                  r <- comments (ev_Owner event) (ev_Repo event) (ev_Number event)
                         commentBody ;;
                  match r with
                  | Err err => ret (Some (str "upsert triage comment: " ++ err))
                  | Ok _ => ret None
                  end
              end
          end
      end
  end end end.

(** An engine whose store leaks the event itself into both result
    lists, as a re-ingested item would. *)
Definition leakyStore : SearchIndexer unit :=
  {| SearchVector := fun _ _ _ w =>
       (Ok [ {| Store.vec_ID := str "issue/10"; Store.vec_Type := str "issue";
                Store.vec_Number := 10; Store.vec_Title := str "self";
                Store.vec_State := str "open"; Store.vec_URL := [];
                Store.vec_Distance := 0.01; Store.vec_VecScore := 0.99 |};
             {| Store.vec_ID := str "issue/11"; Store.vec_Type := str "issue";
                Store.vec_Number := 11; Store.vec_Title := str "other";
                Store.vec_State := str "open"; Store.vec_URL := [];
                Store.vec_Distance := 0.15; Store.vec_VecScore := 0.85 |} ], w);
     SearchFTS := fun _ _ _ w =>
       (Ok [ {| Store.fts_ID := str "issue/10"; Store.fts_Type := str "issue";
                Store.fts_Number := 10; Store.fts_Title := str "self";
                Store.fts_State := str "open"; Store.fts_URL := [];
                Store.fts_RawBM25 := -1; Store.fts_FTSScore := 0.5 |} ], w);
     UpsertItem := fun _ w => (None, w);
     UpsertVector := fun _ _ w => (None, w) |}.

Definition leakyEngine : Engine unit :=
  {| eng_Embedder := Some (fun _ w => (Ok [1%Q; 0%Q; 0%Q], w));
     eng_Store := Some leakyStore;
     eng_Comments := Some (fun _ _ _ _ w => (Ok Github.CommentActionNoop, w));
     eng_Formatter := None;
     eng_Config := {| cfg_SimilarityThreshold := 0.75;
                      cfg_DuplicateThreshold := 0.92;
                      cfg_MaxResults := 5 |} |}.

Definition editedIssue : Event :=
  {| ev_Type := str "issue"; ev_Action := str "edited";
     ev_Owner := str "acme"; ev_Repo := str "repo"; ev_Number := 10;
     ev_Title := str "Login timeout"; ev_Body := str "App hangs after 30s.";
     ev_Author := str "alice"; ev_Labels := []; ev_State := str "open";
     ev_URL := []; ev_Diff := []; ev_Files := [] |}.

(** An engine whose dependencies record the calls made on them, in the
    manner of the mocks of the engine tests. *)
Definition tracingStore : SearchIndexer (list (list Z)) :=
  {| SearchVector := fun _ _ _ w => (Ok [], w ++ [str "SearchVector"]);
     SearchFTS := fun _ _ _ w => (Ok [], w ++ [str "SearchFTS"]);
     UpsertItem := fun item w => (None, w ++ [str "UpsertItem " ++ Store.rec_ID item]);
     UpsertVector := fun id _ w => (None, w ++ [str "UpsertVector " ++ id]) |}.

Definition tracingEngine : Engine (list (list Z)) :=
  {| eng_Embedder := Some (fun _ w => (Ok [1%Q; 0%Q], w ++ [str "Embed"]));
     eng_Store := Some tracingStore;
     eng_Comments :=
       Some (fun _ _ _ body w =>
               (Ok Github.CommentActionNoop, w ++ [str "UpsertTriageComment " ++ body]));
     eng_Formatter := None;
     eng_Config := {| cfg_SimilarityThreshold := 0.75;
                      cfg_DuplicateThreshold := 0.92;
                      cfg_MaxResults := 5 |} |}.

(** An issue whose title and body are blank. *)
Definition blankIssue : Event :=
  {| ev_Type := str "issue"; ev_Action := str "opened";
     ev_Owner := str "acme"; ev_Repo := str "repo"; ev_Number := 12;
     ev_Title := str "   "; ev_Body := [];
     ev_Author := str "alice"; ev_Labels := []; ev_State := str "open";
     ev_URL := []; ev_Diff := []; ev_Files := [] |}.

End Engine.

(** ** Package main: the configuration of a run *)

Module Main.

(** A [float64] as [strconv.ParseFloat] can return it: the comparisons
    of the range check are false on [NaN]. *)
Inductive float64 :=
| NaN
| PosInf
| NegInf
| Finite (q : Q).

(** [a < b] on [float64]. *)
Definition flt (a b : float64) : bool :=
  match a, b with
  | NaN, _ | _, NaN => false
  | NegInf, NegInf => false
  | NegInf, _ => true
  | _, NegInf => false
  | PosInf, _ => false
  | Finite _, PosInf => true
  | Finite x, Finite y => Store.Qltb x y
  end.

(** [strconv.ParseFloat(raw, 64)] and [strconv.Atoi], library code. *)
Class Strconv := {
  ParseFloat : list Z -> result float64;
  Atoi : list Z -> result Z
}.

Record config := {
  Token : list Z;
  EventName : list Z;
  EventPath : list Z;
  Repository : list Z;
  SimilarityThreshold : float64;
  DuplicateThreshold : float64;
  MaxResults : Z;
  IndexBranch : list Z
}.

(** [parseFloatInput] *)
Definition parseFloatInput `{Strconv} (raw : list Z) (fallback : float64)
    : result float64 :=
  let raw := TrimSpace raw in
  if bool_decide (raw = []) then Ok fallback else ParseFloat raw.

(** [parseIntInput] *)
Definition parseIntInput `{Strconv} (raw : list Z) (fallback : Z) : result Z :=
  let raw := TrimSpace raw in
  if bool_decide (raw = []) then Ok fallback else Atoi raw.

(** The loop over the required variables: the first that is blank. *)
Fixpoint firstMissing (getenv : list Z -> list Z) (keys : list (list Z))
    : option (list Z) :=
  match keys with
  | [] => None
  | key :: rest =>
      if bool_decide (TrimSpace (getenv key) = []) then Some key
      else firstMissing getenv rest
  end.

Definition required : list (list Z) :=
  [str "GITHUB_TOKEN"; str "GITHUB_EVENT_NAME"; str "GITHUB_EVENT_PATH";
   str "GITHUB_REPOSITORY"].

(** [parseConfigFromEnv] *)
Definition parseConfigFromEnv `{Strconv} (getenv : list Z -> list Z) : result config :=
  match firstMissing getenv required with
  | Some key => Err (str "missing required env " ++ key)
  | None =>
  match parseFloatInput (getenv (str "INPUT_SIMILARITY_THRESHOLD")) (Finite 0.75) with
  | Err err => Err (str "parse INPUT_SIMILARITY_THRESHOLD: " ++ err)
  | Ok similarity =>
  match parseFloatInput (getenv (str "INPUT_DUPLICATE_THRESHOLD")) (Finite 0.92) with
  | Err err => Err (str "parse INPUT_DUPLICATE_THRESHOLD: " ++ err)
  | Ok duplicate =>
  match parseIntInput (getenv (str "INPUT_MAX_RESULTS")) 5 with
  | Err err => Err (str "parse INPUT_MAX_RESULTS: " ++ err)
  | Ok maxResults =>
      if (maxResults <? 1)%Z || (20 <? maxResults)%Z
      then Err (str "INPUT_MAX_RESULTS must be between 1 and 20")
      else
        let indexBranch := TrimSpace (getenv (str "INPUT_INDEX_BRANCH")) in
        let indexBranch :=
          if bool_decide (indexBranch = []) then str "triage-index" else indexBranch in
        if flt similarity (Finite 0) || flt (Finite 1) similarity
        then Err (str "INPUT_SIMILARITY_THRESHOLD must be between 0 and 1")
        else if flt duplicate (Finite 0) || flt (Finite 1) duplicate
        then Err (str "INPUT_DUPLICATE_THRESHOLD must be between 0 and 1")
        else
          Ok {| Token := getenv (str "GITHUB_TOKEN");
                EventName := getenv (str "GITHUB_EVENT_NAME");
                EventPath := getenv (str "GITHUB_EVENT_PATH");
                Repository := getenv (str "GITHUB_REPOSITORY");
                SimilarityThreshold := similarity;
                DuplicateThreshold := duplicate;
                MaxResults := maxResults;
                IndexBranch := indexBranch |}
  end end end end.

(** The state manager [run] builds from the configuration. *)
Definition stateManager (cfg : config) (owner repo : list Z) : Github.StateManager :=
  {| Github.Owner := owner; Github.Repo := repo; Github.Token := Token cfg;
     Github.Branch := IndexBranch cfg |}.

(** A threshold the range check lets through. *)
Definition inUnitOrNaN (x : float64) : Prop :=
  x = NaN \/ exists q, x = Finite q /\ (0 <= q <= 1)%Q.

(** The environment of a workflow run that sets no input, and a parser
    that knows the text [NaN] only. *)
Definition workflowEnv (extra : list (list Z * list Z)) (key : list Z) : list Z :=
  match List.find (fun kv => bool_decide (fst kv = key))
          (extra ++
           [(str "GITHUB_TOKEN", str "t0ken"); (str "GITHUB_EVENT_NAME", str "issues");
            (str "GITHUB_EVENT_PATH", str "/event.json");
            (str "GITHUB_REPOSITORY", str "acme/repo")]) with
  | Some kv => snd kv
  | None => []
  end.

Definition nanParser : Strconv :=
  {| ParseFloat := fun raw =>
       if bool_decide (raw = str "NaN") then Ok NaN else Err (str "invalid syntax");
     Atoi := fun _ => Err (str "invalid syntax") |}.

End Main.

(* ===================================================================== *)
(** * Part II: theorems *)
(* ===================================================================== *)

Example BuildItemID_table :
  let _ : UnicodeCase := ascii_ToLower in
  Store.BuildItemID (str "issue") 1 = str "issue/1" /\
  Store.BuildItemID (str "pr") 2 = str "pr/2" /\
  Store.BuildItemID (str "pull_request") 3 = str "pr/3" /\
  Store.BuildItemID (str "pull_request_target") 4 = str "pr/4" /\
  Store.BuildItemID (str " Issue ") 7 = str "issue/7" /\
  Store.BuildItemID (str "discussion") 5 = str "discussion/5".
Proof. vm_compute. repeat split. Qed.

(** ** Strings *)

Lemma HasPrefix_Contains (s p : list Z) :
  HasPrefix s p = true -> Contains s p = true.
Proof. destruct s; simpl; intros ->; reflexivity. Qed.

Lemma HasPrefix_refl (s : list Z) : HasPrefix s s = true.
Proof.
  induction s as [|c s IH]; simpl; [reflexivity|].
  rewrite Z.eqb_refl. exact IH.
Qed.

Lemma ToLower_ascii `{UnicodeCase} (s : list Z) :
  lower_ascii -> Forall (fun r => (0 <= r < 128)%Z) s ->
  ToLower s = map ascii_ToLower s.
Proof.
  intros Hlow Hs. unfold ToLower.
  induction Hs as [|r s Hr _ IH]; simpl; [reflexivity|].
  rewrite (Hlow r Hr), IH. reflexivity.
Qed.

(** ** Item ids (C10) *)

Section BuildItemID_facts.
Context `{UnicodeCase}.

Lemma BuildItemID_issue kind number :
  TrimSpace (ToLower kind) = str "issue" ->
  Store.BuildItemID kind number = str "issue/" ++ itoa number.
Proof. intros Hk. unfold Store.BuildItemID. rewrite Hk. reflexivity. Qed.

Lemma BuildItemID_pr kind number :
  TrimSpace (ToLower kind) = str "pr" \/
  TrimSpace (ToLower kind) = str "pull_request" \/
  TrimSpace (ToLower kind) = str "pull_request_target" ->
  Store.BuildItemID kind number = str "pr/" ++ itoa number.
Proof.
  intros Hk. unfold Store.BuildItemID.
  destruct Hk as [-> | [-> | ->]]; reflexivity.
Qed.

Lemma BuildItemID_other kind number :
  TrimSpace (ToLower kind) <> str "issue" ->
  TrimSpace (ToLower kind) <> str "pr" ->
  TrimSpace (ToLower kind) <> str "pull_request" ->
  TrimSpace (ToLower kind) <> str "pull_request_target" ->
  Store.BuildItemID kind number =
    TrimSpace (ToLower kind) ++ str "/" ++ itoa number.
Proof.
  intros H1 H2 H3 H4. unfold Store.BuildItemID.
  repeat case_bool_decide; try contradiction; reflexivity.
Qed.

Lemma BuildItemID_discussion :
  lower_ascii -> Store.BuildItemID (str "discussion") 5 = str "discussion/5".
Proof.
  intros Hlow. unfold Store.BuildItemID.
  rewrite (ToLower_ascii _ Hlow).
  - vm_compute. reflexivity.
  - vm_compute. repeat constructor; discriminate.
Qed.

End BuildItemID_facts.

(** C10. [BuildItemID] lowercases and trims the kind; the normalized
    kind [issue] gives [issue/{number}], each of [pr], [pull_request]
    and [pull_request_target] gives [pr/{number}], and every other kind
    gives [{normalized kind}/{number}] without failing, so that
    [discussion/5], an id of neither shape, comes out of the public
    function. *)
Theorem BuildItemID_kinds `{UnicodeCase} (Hlow : lower_ascii)
    (kind : list Z) (number : Z) :
  let k := TrimSpace (ToLower kind) in
  (k = str "issue" ->
     Store.BuildItemID kind number = str "issue/" ++ itoa number) /\
  (k = str "pr" \/ k = str "pull_request" \/ k = str "pull_request_target" ->
     Store.BuildItemID kind number = str "pr/" ++ itoa number) /\
  (k <> str "issue" -> k <> str "pr" -> k <> str "pull_request" ->
   k <> str "pull_request_target" ->
     Store.BuildItemID kind number = k ++ str "/" ++ itoa number) /\
  Store.BuildItemID (str "discussion") 5 = str "discussion/5" /\
  HasPrefix (str "discussion/5") (str "issue/") = false /\
  HasPrefix (str "discussion/5") (str "pr/") = false.
Proof.
  intros k. repeat split.
  - apply BuildItemID_issue.
  - apply BuildItemID_pr.
  - apply BuildItemID_other.
  - apply BuildItemID_discussion, Hlow.
Qed.

Lemma ascii_table_lower_ascii : @lower_ascii ascii_ToLower.
Proof. intros r _. reflexivity. Qed.

Lemma BuildItemID_kinds_witness :
  @Store.BuildItemID ascii_ToLower (str " Pull_Request ") 3 = str "pr/3".
Proof.
  pose proof (@BuildItemID_kinds ascii_ToLower ascii_table_lower_ascii
                (str " Pull_Request ") 3) as (_ & Hpr & _).
  apply Hpr. right. left. vm_compute. reflexivity.
Defined.

(** ** Pull-request text (C3) *)

Lemma TruncateDiff_firstn (diff : list Z) :
  Ingest.TruncateDiff diff Ingest.MaxDiffChars =
  firstn (Z.to_nat Ingest.MaxDiffChars) diff.
Proof.
  unfold Ingest.TruncateDiff.
  assert (Hpos : (0 < Ingest.MaxDiffChars)%Z) by reflexivity.
  generalize dependent Ingest.MaxDiffChars. intros m Hpos.
  destruct (Z.leb_spec m 0) as [H0|_]; [lia|].
  destruct (Z.leb_spec (Z.of_nat (length diff)) m) as [Hle|Hgt].
  - symmetry. apply firstn_all2. lia.
  - reflexivity.
Qed.

Lemma TruncateDiff_length (diff : list Z) (maxChars : Z) :
  (Z.of_nat (length (Ingest.TruncateDiff diff maxChars)) <= Z.max 0 maxChars)%Z.
Proof.
  unfold Ingest.TruncateDiff.
  destruct (Z.leb_spec maxChars 0); [simpl; lia|].
  destruct (Z.leb_spec (Z.of_nat (length diff)) maxChars); [lia|].
  rewrite length_firstn. lia.
Qed.

(** The ingest tests of the repository. *)
Example BuildPRContent_full :
  Ingest.BuildPRContent
    {| Ingest.Title := str "Add login retries";
       Ingest.Body := str "Retries when auth times out.";
       Ingest.Files := [str "src/auth/login.go"; str " README.md "; []];
       Ingest.Diff := str "  +retry()  ";
       Ingest.Mode := Ingest.PRDiffModeInclude |}
  = str "PR: Add login retries" ++ Ingest.blank_line ++
    str "Description: Retries when auth times out." ++ Ingest.blank_line ++
    str "Files changed: src/auth/login.go, README.md" ++ Ingest.blank_line ++
    str "Diff summary: +retry()".
Proof. vm_compute. reflexivity. Qed.

Example BuildPRContent_body_only :
  Ingest.BuildPRContent
    {| Ingest.Title := []; Ingest.Body := str "Only body";
       Ingest.Files := [str "a.go"]; Ingest.Diff := [];
       Ingest.Mode := Ingest.PRDiffModeInclude |}
  = str "Only body".
Proof. vm_compute. reflexivity. Qed.

Example BuildIssueContent_cases :
  Ingest.BuildIssueContent (str "Login timeout") (str "App hangs after 30s.")
    = str "Issue: Login timeout" ++ Ingest.blank_line ++ str "App hangs after 30s." /\
  Ingest.BuildIssueContent (str "Login timeout") [] = str "Issue: Login timeout" /\
  Ingest.BuildIssueContent [] (str "App hangs after 30s.") = str "App hangs after 30s." /\
  Ingest.BuildIssueContent (str "   ") [] = [].
Proof. vm_compute. repeat split. Qed.

(** C3, as stated, fails: with a title, an empty description and a
    changed file the text is the title section alone. *)
Lemma BuildPRContent_title_only_drops_files :
  ~ (forall i : Ingest.PRInput,
       TrimSpace (Ingest.Title i) <> [] ->
       TrimSpace (Ingest.Body i) = [] ->
       Ingest.normalizeFiles (Ingest.Files i) <> [] ->
       Ingest.Mode i = Ingest.PRDiffModeInclude \/
       Ingest.Mode i = Ingest.PRDiffModeSkipDiffKeepFiles ->
       Contains (Ingest.BuildPRContent i) (str "Files changed:") = true).
Proof.
  intros Hall.
  specialize (Hall Ingest.pr_title_and_files).
  assert (Hc : Contains (Ingest.BuildPRContent Ingest.pr_title_and_files)
                 (str "Files changed:") = false) by (vm_compute; reflexivity).
  rewrite Hall in Hc; try discriminate Hc.
  - vm_compute. discriminate.
  - vm_compute. reflexivity.
  - vm_compute. discriminate.
  - right. reflexivity.
Qed.

(** C3, amended. With an empty title the text is the body alone (empty
    when both are empty); with a title and an empty body it is exactly
    [PR: {title}], whatever the files, diff and mode; with both present
    it is the sections of the claim joined by a blank line. *)
Theorem BuildPRContent_sections (i : Ingest.PRInput) :
  let title := TrimSpace (Ingest.Title i) in
  let body := TrimSpace (Ingest.Body i) in
  (title = [] -> Ingest.BuildPRContent i = body) /\
  (title <> [] -> body = [] -> Ingest.BuildPRContent i = str "PR: " ++ title) /\
  (title <> [] -> body <> [] ->
     Ingest.BuildPRContent i = Ingest.BuildPRContent_spec i).
Proof.
  intros title body. unfold Ingest.BuildPRContent, Ingest.BuildPRContent_spec,
    Ingest.PRSections_spec.
  fold title body. repeat split.
  - intros Ht. rewrite Ht. simpl.
    case_bool_decide as Hb; [symmetry; exact Hb | reflexivity].
  - intros Ht Hb. rewrite Hb.
    rewrite (bool_decide_eq_false_2 _ Ht). reflexivity.
  - intros Ht Hb.
    rewrite (bool_decide_eq_false_2 _ Ht), (bool_decide_eq_false_2 _ Hb).
    cbn [andb negb app].
    rewrite TruncateDiff_firstn.
    generalize (firstn (Z.to_nat Ingest.MaxDiffChars) (TrimSpace (Ingest.Diff i))).
    intros cut.
    destruct (Z.eqb_spec (Ingest.Mode i) Ingest.PRDiffModeTitleBodyOnly) as [Hm|Hm];
      destruct (Z.eqb_spec (Ingest.Mode i) Ingest.PRDiffModeInclude) as [Hi|Hi];
      destruct (Ingest.normalizeFiles (Ingest.Files i)) as [|f fs] eqn:Hf;
      repeat case_bool_decide; cbn [negb orb andb app length Nat.ltb Nat.leb];
      try reflexivity; try congruence; try discriminate.
Qed.

Lemma BuildPRContent_sections_witness :
  Ingest.BuildPRContent Ingest.pr_title_and_files = str "PR: Fix login".
Proof.
  pose proof (BuildPRContent_sections Ingest.pr_title_and_files) as (_ & Hb & _).
  rewrite Hb.
  - vm_compute. reflexivity.
  - vm_compute. discriminate.
  - vm_compute. reflexivity.
Defined.

(** ** Scores and string order *)

Lemma Qltb_lt (a b : Q) : Store.Qltb a b = true <-> (a < b)%Q.
Proof.
  unfold Store.Qltb. rewrite negb_true_iff.
  destruct (Qle_bool b a) eqn:E.
  - apply Qle_bool_iff in E. split; [discriminate|]. intros Hlt.
    exfalso. apply (Qlt_not_le _ _ Hlt), E.
  - split; [intros _|reflexivity]. apply Qnot_le_lt. intros Hle.
    apply Qle_bool_iff in Hle. congruence.
Qed.

Lemma Qltb_ge (a b : Q) : Store.Qltb a b = false <-> (b <= a)%Q.
Proof.
  unfold Store.Qltb. rewrite negb_false_iff. apply Qle_bool_iff.
Qed.

Lemma Qeq_bool_false (a b : Q) : Qeq_bool a b = false <-> ~ (a == b)%Q.
Proof.
  split.
  - apply Qeq_bool_neq.
  - intros Hne. destruct (Qeq_bool a b) eqn:E; [|reflexivity].
    apply Qeq_bool_iff in E. contradiction.
Qed.

(** Turn the boolean tests of the source into order facts. *)
Ltac score_facts :=
  repeat match goal with
  | H : Store.Qltb _ _ = true |- _ => apply Qltb_lt in H
  | H : Store.Qltb _ _ = false |- _ => apply Qltb_ge in H
  | H : Qeq_bool _ _ = true |- _ => apply Qeq_bool_iff in H
  | H : Qeq_bool _ _ = false |- _ => apply Qeq_bool_false in H
  | H : Qle_bool _ _ = true |- _ => apply Qle_bool_iff in H
  | |- Store.Qltb _ _ = true => apply Qltb_lt
  | |- Store.Qltb _ _ = false => apply Qltb_ge
  | |- Qeq_bool _ _ = true => apply Qeq_bool_iff
  | |- Qeq_bool _ _ = false => apply Qeq_bool_false
  end.

Lemma clamp01_range (v : Q) : (0 <= Store.clamp01 v <= 1)%Q.
Proof.
  unfold Store.clamp01.
  destruct (Store.Qltb v 0) eqn:E0; [split; lra|].
  destruct (Store.Qltb 1 v) eqn:E1; [split; lra|].
  score_facts. split; lra.
Qed.

Lemma clamp01_id (v : Q) : (0 <= v <= 1)%Q -> Store.clamp01 v = v.
Proof.
  intros [H0 H1]. unfold Store.clamp01.
  destruct (Store.Qltb v 0) eqn:E0; [score_facts; lra|].
  destruct (Store.Qltb 1 v) eqn:E1; [score_facts; lra|reflexivity].
Qed.

Lemma maxFloat_spec (a b : Q) :
  (a <= Store.maxFloat a b)%Q /\ (b <= Store.maxFloat a b)%Q /\
  (Store.maxFloat a b = a \/ Store.maxFloat a b = b).
Proof.
  unfold Store.maxFloat. destruct (Store.Qltb b a) eqn:E; score_facts.
  - repeat split; [lra | lra | left; reflexivity].
  - repeat split; [lra | lra | right; reflexivity].
Qed.

Lemma ltb_irrefl (a : list Z) : ltb a a = false.
Proof.
  induction a as [|x a IH]; simpl; [reflexivity|].
  rewrite Z.ltb_irrefl, Z.eqb_refl, IH. reflexivity.
Qed.

Lemma ltb_asym (a b : list Z) : ltb a b = true -> ltb b a = false.
Proof.
  revert b. induction a as [|x a IH]; intros [|y b]; simpl; try congruence.
  destruct (Z.ltb_spec x y), (Z.ltb_spec y x), (Z.eqb_spec x y), (Z.eqb_spec y x);
    simpl; try lia; try congruence; auto.
Qed.

Lemma ltb_false_trans (a b c : list Z) :
  ltb b a = false -> ltb c b = false -> ltb c a = false.
Proof.
  revert b c. induction a as [|x a IH]; intros [|y b] [|z c]; simpl;
    try congruence.
  destruct (Z.ltb_spec y x), (Z.ltb_spec z y), (Z.ltb_spec z x),
    (Z.eqb_spec y x), (Z.eqb_spec z y), (Z.eqb_spec z x);
    simpl; try lia; try congruence; eauto.
Qed.

Lemma ltb_antisym (a b : list Z) :
  ltb a b = false -> ltb b a = false -> a = b.
Proof.
  revert b. induction a as [|x a IH]; intros [|y b]; simpl; try congruence.
  destruct (Z.ltb_spec x y), (Z.ltb_spec y x), (Z.eqb_spec x y), (Z.eqb_spec y x);
    simpl; try lia; try congruence.
  intros Ha Hb. subst y. f_equal. auto.
Qed.

(** ** Sorting with a comparison *)

Section SortSlice.
Context {A : Type} (less : A -> A -> bool).

Local Abbreviation notAfter := (Store.notAfter less).

Hypothesis less_asym : forall a b, less a b = true -> less b a = false.
Hypothesis notAfter_trans :
  forall a b c, notAfter a b -> notAfter b c -> notAfter a c.

Lemma insertSorted_perm (x : A) (l : list A) :
  Permutation (x :: l) (Store.insertSorted less x l).
Proof.
  induction l as [|y l IH]; simpl; [reflexivity|].
  destruct (less y x); [|reflexivity].
  rewrite perm_swap. apply perm_skip, IH.
Qed.

Lemma sortSlice_perm (l : list A) : Permutation l (Store.sortSlice less l).
Proof.
  induction l as [|x l IH]; simpl; [reflexivity|].
  rewrite <- insertSorted_perm. apply perm_skip, IH.
Qed.

Lemma insertSorted_HdRel (a x : A) (l : list A) :
  notAfter a x -> HdRel notAfter a l ->
  HdRel notAfter a (Store.insertSorted less x l).
Proof.
  intros Hax Hal. destruct l as [|y l]; simpl.
  - constructor. exact Hax.
  - destruct (less y x); constructor; [|exact Hax].
    inversion Hal; assumption.
Qed.

Lemma insertSorted_sorted (x : A) (l : list A) :
  Sorted notAfter l -> Sorted notAfter (Store.insertSorted less x l).
Proof.
  induction 1 as [|y l Hs IH Hhd]; simpl.
  - repeat constructor.
  - destruct (less y x) eqn:E.
    + constructor; [exact IH|].
      apply insertSorted_HdRel; [|exact Hhd].
      unfold Store.notAfter. apply less_asym, E.
    + constructor; [constructor; assumption|].
      constructor. exact E.
Qed.

Lemma sortSlice_sorted (l : list A) : Sorted notAfter (Store.sortSlice less l).
Proof.
  induction l as [|x l IH]; simpl; [constructor|].
  apply insertSorted_sorted, IH.
Qed.

Lemma sortSlice_strongly_sorted (l : list A) :
  StronglySorted notAfter (Store.sortSlice less l).
Proof.
  apply Sorted_StronglySorted; [|apply sortSlice_sorted].
  intros a b c. apply notAfter_trans.
Qed.

End SortSlice.

Lemma StronglySorted_firstn {A} (R : A -> A -> Prop) (n : nat) (l : list A) :
  StronglySorted R l -> StronglySorted R (firstn n l).
Proof.
  intros Hs. revert n. induction Hs as [|x l Hs IH Hx]; intros [|n]; simpl;
    try constructor.
  - apply IH.
  - rewrite List.Forall_forall in *. intros y Hy. apply Hx.
    apply list_elem_of_In. apply list_elem_of_In in Hy.
    exact (subseteq_take n l y Hy).
Qed.

(** ** Fusion: the comparison *)

Lemma fusedLess_rankedBefore (a b : Store.FusedResult) :
  Store.fusedLess b a = false <-> Store.rankedBefore a b.
Proof.
  unfold Store.fusedLess, Store.rankedBefore.
  destruct (Qeq_bool (Store.fused_RRFScore b) (Store.fused_RRFScore a)) eqn:Er;
    [destruct (Qeq_bool (Store.fused_DisplaySimilarity b)
                 (Store.fused_DisplaySimilarity a)) eqn:Ed|];
    score_facts.
  - split.
    + intros Hid. right. split; [lra|]. right. split; [lra | exact Hid].
    + intros [Hlt | [_ [Hlt | [_ Hid]]]]; [lra | lra | exact Hid].
  - rewrite Qltb_ge. split.
    + intros Hle. right. split; [lra|]. left.
      apply Qle_lteq in Hle. destruct Hle as [Hlt|Heq]; [exact Hlt|].
      contradiction.
    + intros [Hlt | [_ [Hlt | [Heq _]]]]; [lra | lra |].
      exfalso. apply Ed. symmetry. exact Heq.
  - rewrite Qltb_ge. split.
    + intros Hle. left.
      apply Qle_lteq in Hle. destruct Hle as [Hlt|Heq]; [exact Hlt|].
      contradiction.
    + intros [Hlt | [Heq _]]; [lra|].
      exfalso. apply Er. symmetry. exact Heq.
Qed.

Lemma rankedBefore_trans (a b c : Store.FusedResult) :
  Store.rankedBefore a b -> Store.rankedBefore b c -> Store.rankedBefore a c.
Proof.
  unfold Store.rankedBefore.
  intros [H1 | [E1 [H1 | [D1 I1]]]] [H2 | [E2 [H2 | [D2 I2]]]];
    try (left; lra);
    try (right; split; [lra|]; left; lra).
  right. split; [lra|]. right. split; [lra|].
  eapply ltb_false_trans; eassumption.
Qed.

Lemma fusedLess_asym (a b : Store.FusedResult) :
  Store.fusedLess a b = true -> Store.fusedLess b a = false.
Proof.
  intros Hab. apply fusedLess_rankedBefore.
  destruct (Store.fusedLess b a) eqn:Hba.
  - exfalso. unfold Store.fusedLess in Hab, Hba.
    destruct (Qeq_bool (Store.fused_RRFScore a) (Store.fused_RRFScore b)) eqn:Er1;
    destruct (Qeq_bool (Store.fused_RRFScore b) (Store.fused_RRFScore a)) eqn:Er2;
    destruct (Qeq_bool (Store.fused_DisplaySimilarity a)
                (Store.fused_DisplaySimilarity b)) eqn:Ed1;
    destruct (Qeq_bool (Store.fused_DisplaySimilarity b)
                (Store.fused_DisplaySimilarity a)) eqn:Ed2;
    score_facts; try lra.
    apply ltb_asym in Hab. congruence.
  - apply fusedLess_rankedBefore. exact Hba.
Qed.

Lemma fusedLess_notAfter_trans (a b c : Store.FusedResult) :
  Store.notAfter Store.fusedLess a b -> Store.notAfter Store.fusedLess b c ->
  Store.notAfter Store.fusedLess a c.
Proof.
  unfold Store.notAfter. rewrite !fusedLess_rankedBefore. apply rankedBefore_trans.
Qed.

Lemma sortSlice_fused_sorted (l : list Store.FusedResult) :
  StronglySorted Store.rankedBefore (Store.sortSlice Store.fusedLess l).
Proof.
  eapply StronglySorted_ind with
    (l := Store.sortSlice Store.fusedLess l) (R := Store.notAfter Store.fusedLess).
  - constructor.
  - intros x l' _ IH Hx. constructor; [exact IH|].
    eapply Forall_impl; [exact Hx|].
    intros y Hy. apply fusedLess_rankedBefore, Hy.
  - apply sortSlice_strongly_sorted.
    + apply fusedLess_asym.
    + apply fusedLess_notAfter_trans.
Qed.

Lemma rankEntries_sorted (cfg : Store.FuseConfig)
    (entries : list Store.fusedAccumulator) :
  StronglySorted Store.rankedBefore (Store.rankEntries cfg entries).
Proof.
  unfold Store.rankEntries, Store.truncateTo.
  destruct (_ <? _)%Z; [apply StronglySorted_firstn|];
    apply sortSlice_fused_sorted.
Qed.

Lemma truncateTo_firstn {A} (n : Z) (l : list A) :
  (0 <= n)%Z -> Store.truncateTo n l = firstn (Z.to_nat n) l.
Proof.
  intros Hn. unfold Store.truncateTo.
  destruct (Z.ltb_spec n (Z.of_nat (length l))); [reflexivity|].
  symmetry. apply firstn_all2. lia.
Qed.

Lemma truncateTo_In {A} (n : Z) (l : list A) (x : A) :
  In x (Store.truncateTo n l) -> In x l.
Proof.
  unfold Store.truncateTo. destruct (_ <? _)%Z; [|tauto].
  rewrite <- !list_elem_of_In. apply subseteq_take.
Qed.

Lemma truncateTo_length {A} (n : Z) (l : list A) :
  (0 <= n)%Z -> (Z.of_nat (length (Store.truncateTo n l)) <= n)%Z.
Proof.
  intros Hn. unfold Store.truncateTo.
  destruct (Z.ltb_spec n (Z.of_nat (length l))); [|lia].
  rewrite length_take. lia.
Qed.

Lemma rankEntries_In (cfg : Store.FuseConfig)
    (entries : list Store.fusedAccumulator) (r : Store.FusedResult) :
  In r (Store.rankEntries cfg entries) ->
  exists item, In item entries /\ Store.toFused cfg item = Some r.
Proof.
  unfold Store.rankEntries. intros Hin.
  apply truncateTo_In in Hin.
  apply (Permutation_in _ (Permutation_sym (sortSlice_perm _ _))) in Hin.
  apply list_elem_of_In, list_elem_of_omap in Hin.
  destruct Hin as (item & Hitem & Hf).
  exists item. split; [apply list_elem_of_In, Hitem | exact Hf].
Qed.

Lemma normalized_MaxResults_pos (c : Store.FuseConfig) :
  (0 < Store.MaxResults (Store.normalized c))%Z.
Proof.
  unfold Store.normalized. destruct (Store.is_zero_config c); simpl.
  - reflexivity.
  - destruct (Z.leb_spec (Store.MaxResults c) 0); [reflexivity | lia].
Qed.

Lemma normalized_thresholds_range (c : Store.FuseConfig) :
  (0 <= Store.SimilarityThreshold (Store.normalized c) <= 1)%Q /\
  (0 <= Store.DuplicateThreshold (Store.normalized c) <= 1)%Q.
Proof.
  unfold Store.normalized. destruct (Store.is_zero_config c); simpl.
  - unfold Store.defaultSimilarityThreshold, Store.defaultDuplicateThreshold.
    repeat split; lra.
  - split; apply clamp01_range.
Qed.

(** ** Fusion: the accumulator *)

Lemma acc_ok_empty (excludeID : list Z) : Store.acc_ok excludeID ∅.
Proof. intros k a Hk. rewrite lookup_empty in Hk. discriminate. Qed.

Lemma getOrCreateAccumulator_ID (excludeID : list Z)
    (acc : gmap (list Z) Store.fusedAccumulator) (id : list Z) :
  Store.acc_ok excludeID acc -> Store.acc_ID (Store.getOrCreateAccumulator acc id) = id.
Proof.
  intros Hok. unfold Store.getOrCreateAccumulator.
  destruct (acc !! id) as [cur|] eqn:E; [|reflexivity].
  apply (Hok _ _ E).
Qed.

Lemma acc_ok_insert (excludeID : list Z)
    (acc : gmap (list Z) Store.fusedAccumulator) (id : list Z)
    (new : Store.fusedAccumulator) :
  Store.acc_ok excludeID acc -> Store.acc_ID new = id -> id <> excludeID -> id <> [] ->
  Store.acc_ok excludeID (<[id := new]> acc).
Proof.
  intros Hok Hid Hex Hne k a Hk.
  apply lookup_insert_Some in Hk as [[<- <-] | [_ Hk]]; [auto | eauto].
Qed.

Lemma fuseVec_ok (excludeID : list Z) (items : list Store.VectorResult) :
  forall rank vecSeen acc,
    Store.acc_ok excludeID acc ->
    Store.acc_ok excludeID (Store.fuseVec excludeID rank items vecSeen acc).
Proof.
  induction items as [|item rest IH]; intros rank vecSeen acc Hok; simpl;
    [exact Hok|].
  repeat case_bool_decide; simpl; try (apply IH; exact Hok).
  apply IH, acc_ok_insert; try assumption.
  simpl. eapply getOrCreateAccumulator_ID, Hok.
Qed.

Lemma fuseFTS_ok (excludeID : list Z) (items : list Store.FTSResult) :
  forall rank ftsSeen acc,
    Store.acc_ok excludeID acc ->
    Store.acc_ok excludeID (Store.fuseFTS excludeID rank items ftsSeen acc).
Proof.
  induction items as [|item rest IH]; intros rank ftsSeen acc Hok; simpl;
    [exact Hok|].
  repeat case_bool_decide; simpl; try (apply IH; exact Hok).
  apply IH, acc_ok_insert; try assumption.
  simpl. eapply getOrCreateAccumulator_ID, Hok.
Qed.

Lemma accumulate_ok (vecResults : list Store.VectorResult)
    (ftsResults : list Store.FTSResult) (excludeID : list Z) :
  Store.acc_ok excludeID (Store.accumulate vecResults ftsResults excludeID).
Proof. apply fuseFTS_ok, fuseVec_ok, acc_ok_empty. Qed.

Lemma toFused_ID (cfg : Store.FuseConfig) (item : Store.fusedAccumulator)
    (r : Store.FusedResult) :
  Store.toFused cfg item = Some r -> Store.fused_ID r = Store.acc_ID item.
Proof.
  unfold Store.toFused. destruct (Store.Qltb _ _); [discriminate|].
  intros [= <-]. reflexivity.
Qed.

Lemma FuseResults_In (vecResults : list Store.VectorResult)
    (ftsResults : list Store.FTSResult) (excludeID : list Z)
    (config : Store.FuseConfig) (r : Store.FusedResult) :
  In r (Store.FuseResults vecResults ftsResults excludeID config) ->
  exists item,
    Store.accumulate vecResults ftsResults excludeID !! Store.fused_ID r = Some item /\
    Store.toFused (Store.normalized config) item = Some r.
Proof.
  unfold Store.FuseResults. intros Hin.
  apply rankEntries_In in Hin as (item & Hitem & Hf).
  apply in_map_iff in Hitem as ([k a] & Ha & Hka). simpl in Ha. subst a.
  apply list_elem_of_In, elem_of_map_to_list in Hka.
  exists item. split; [|exact Hf].
  rewrite (toFused_ID _ _ _ Hf).
  destruct (accumulate_ok vecResults ftsResults excludeID k item Hka) as [-> _].
  exact Hka.
Qed.

Lemma FuseResults_not_excluded (vecResults : list Store.VectorResult)
    (ftsResults : list Store.FTSResult) (excludeID : list Z)
    (config : Store.FuseConfig) :
  ~ In excludeID
      (map Store.fused_ID (Store.FuseResults vecResults ftsResults excludeID config)).
Proof.
  intros Hin. apply in_map_iff in Hin as (r & Hid & Hr).
  apply FuseResults_In in Hr as (item & Hitem & _).
  destruct (accumulate_ok _ _ _ _ _ Hitem) as (_ & Hne & _).
  apply Hne. exact Hid.
Qed.

(** C2. Every result of [FuseResults] has as display similarity the
    larger of its vector and full-text scores; none is below the
    normalized similarity threshold; it is flagged a duplicate exactly
    when its display similarity reaches the normalized duplicate
    threshold; the list is ordered by RRF score descending, then display
    similarity descending, then id ascending; and it has at most
    [MaxResults] entries (of the normalized configuration). *)
Theorem FuseResults_contract (vecResults : list Store.VectorResult)
    (ftsResults : list Store.FTSResult) (excludeID : list Z)
    (config : Store.FuseConfig) :
  let cfg := Store.normalized config in
  let out := Store.FuseResults vecResults ftsResults excludeID config in
  Forall (fun r =>
    Store.fused_DisplaySimilarity r =
      Store.maxFloat (Store.fused_VecScore r) (Store.fused_FTSScore r) /\
    (Store.fused_VecScore r <= Store.fused_DisplaySimilarity r)%Q /\
    (Store.fused_FTSScore r <= Store.fused_DisplaySimilarity r)%Q /\
    (Store.fused_DisplaySimilarity r = Store.fused_VecScore r \/
     Store.fused_DisplaySimilarity r = Store.fused_FTSScore r) /\
    (Store.SimilarityThreshold cfg <= Store.fused_DisplaySimilarity r)%Q /\
    (Store.fused_IsDuplicate r = true <->
       (Store.DuplicateThreshold cfg <= Store.fused_DisplaySimilarity r)%Q)) out /\
  StronglySorted Store.rankedBefore out /\
  (Z.of_nat (length out) <= Store.MaxResults cfg)%Z.
Proof.
  intros cfg out. split; [|split].
  - apply List.Forall_forall. intros r Hr.
    apply FuseResults_In in Hr as (item & _ & Hf).
    fold cfg in Hf. unfold Store.toFused in Hf.
    destruct (Store.Qltb _ _) eqn:Hthr; [discriminate|].
    injection Hf as <-. cbn.
    pose proof (maxFloat_spec (Store.acc_VecScore item) (Store.acc_FTSScore item))
      as (Hv & Hf & Hor).
    score_facts. repeat split; try assumption.
    + apply Qle_bool_iff.
    + apply Qle_bool_iff.
  - apply rankEntries_sorted.
  - unfold out, Store.FuseResults, Store.rankEntries. fold cfg.
    apply truncateTo_length.
    pose proof (normalized_MaxResults_pos config). fold cfg in H. lia.
Qed.

(** The fusion tests of the repository. *)
Example FuseResults_orders_by_RRF :
  map (fun r => (Store.fused_ID r, Store.fused_DisplaySimilarity r))
    (Store.FuseResults
       [Store.vecOf (str "issue/A") 1 0.90; Store.vecOf (str "issue/B") 2 0.89]
       [Store.ftsOf (str "issue/B") 2 0.70] []
       {| Store.SimilarityThreshold := 0.50; Store.DuplicateThreshold := 0.95;
          Store.MaxResults := 10 |})
  = [(str "issue/B", 0.89%Q); (str "issue/A", 0.90%Q)].
Proof. vm_compute. reflexivity. Qed.

Example FuseResults_thresholds_and_truncation :
  map (fun r => (Store.fused_ID r, Store.fused_IsDuplicate r))
    (Store.FuseResults
       [Store.vecOf (str "issue/A") 1 0.95; Store.vecOf (str "issue/B") 2 0.80;
        Store.vecOf (str "issue/C") 3 0.60] [] []
       {| Store.SimilarityThreshold := 0.75; Store.DuplicateThreshold := 0.92;
          Store.MaxResults := 2 |})
  = [(str "issue/A", true); (str "issue/B", false)].
Proof. vm_compute. reflexivity. Qed.

Example FuseResults_clamps :
  map (fun r => (Store.fused_ID r, Store.fused_DisplaySimilarity r))
    (Store.FuseResults
       [Store.vecOf (str "issue/high") 1 1.4; Store.vecOf (str "issue/low") 2 (-0.2)]
       [Store.ftsOf (str "issue/high") 1 1.7; Store.ftsOf (str "issue/low") 2 (-0.5)] []
       {| Store.SimilarityThreshold := 0.1; Store.DuplicateThreshold := 0.9;
          Store.MaxResults := 10 |})
  = [(str "issue/high", 1%Q)].
Proof. vm_compute. reflexivity. Qed.

(** ** Fusion: the order of the map and the sort algorithm do not matter *)

Lemma rankedBefore_antisym (a b : Store.FusedResult) :
  Store.rankedBefore a b -> Store.rankedBefore b a ->
  Store.fused_ID a = Store.fused_ID b.
Proof.
  unfold Store.rankedBefore.
  intros [H1 | [E1 [H1 | [D1 I1]]]] [H2 | [E2 [H2 | [D2 I2]]]]; try lra.
  apply ltb_antisym; assumption.
Qed.

Lemma NoDup_map_In_eq {A B} (f : A -> B) (l : list A) (x y : A) :
  List.NoDup (map f l) -> In x l -> In y l -> f x = f y -> x = y.
Proof.
  induction l as [|z l IH]; simpl; [tauto|].
  intros Hnd Hx Hy Hf. inversion Hnd as [|? ? Hz Hnd']; subst.
  destruct Hx as [->|Hx], Hy as [->|Hy]; auto.
  - exfalso. apply Hz. rewrite Hf. apply in_map, Hy.
  - exfalso. apply Hz. rewrite <- Hf. apply in_map, Hx.
Qed.

(** Two ranked lists with the same elements, ids distinct, are equal. *)
Lemma ranked_unique (l1 l2 : list Store.FusedResult) :
  Permutation l1 l2 ->
  List.NoDup (map Store.fused_ID l1) ->
  StronglySorted Store.rankedBefore l1 ->
  StronglySorted Store.rankedBefore l2 ->
  l1 = l2.
Proof.
  revert l2. induction l1 as [|x l1 IH]; intros l2 Hp Hnd Hs1 Hs2.
  - apply Permutation_nil in Hp. subst. reflexivity.
  - destruct l2 as [|y l2].
    { apply Permutation_sym, Permutation_nil in Hp. discriminate. }
    assert (Hxy : x = y).
    { apply StronglySorted_inv in Hs1 as [_ Hx].
      apply StronglySorted_inv in Hs2 as [_ Hy].
      rewrite List.Forall_forall in Hx, Hy.
      assert (Hyin : In y (x :: l1)).
      { eapply Permutation_in; [apply Permutation_sym, Hp | left; reflexivity]. }
      assert (Hxin : In x (y :: l2)).
      { eapply Permutation_in; [apply Hp | left; reflexivity]. }
      destruct Hyin as [Heq|Hyin]; [exact Heq|].
      destruct Hxin as [Heq|Hxin]; [symmetry; exact Heq|].
      apply (NoDup_map_In_eq Store.fused_ID (x :: l1)); try assumption.
      - left; reflexivity.
      - right; exact Hyin.
      - apply rankedBefore_antisym; [apply Hx, Hyin | apply Hy, Hxin]. }
    subst y. f_equal. apply IH.
    + eapply Permutation_cons_inv, Hp.
    + inversion Hnd; assumption.
    + apply StronglySorted_inv in Hs1 as [Hs1 _]. exact Hs1.
    + apply StronglySorted_inv in Hs2 as [Hs2 _]. exact Hs2.
Qed.

(** Whatever [sort.Slice] does internally, a ranked rearrangement of
    the input is the list the insertion sort returns. *)
Lemma sortSlice_unique (l sorted : list Store.FusedResult) :
  Permutation l sorted ->
  List.NoDup (map Store.fused_ID l) ->
  StronglySorted Store.rankedBefore sorted ->
  sorted = Store.sortSlice Store.fusedLess l.
Proof.
  intros Hp Hnd Hs. apply ranked_unique; try assumption.
  - rewrite <- Hp. apply sortSlice_perm.
  - eapply Permutation_NoDup; [|exact Hnd].
    apply Permutation_map, Hp.
  - apply sortSlice_fused_sorted.
Qed.

Lemma omap_toFused_IDs (cfg : Store.FuseConfig)
    (entries : list Store.fusedAccumulator) :
  List.NoDup (map Store.acc_ID entries) ->
  List.NoDup (map Store.fused_ID (omap (Store.toFused cfg) entries)).
Proof.
  induction entries as [|e entries IH]; simpl; [constructor|].
  intros Hnd. inversion Hnd as [|? ? He Hnd']; subst.
  destruct (Store.toFused cfg e) as [r|] eqn:Hr; simpl; [|auto].
  constructor; [|auto].
  intros Hin. apply He.
  apply in_map_iff in Hin as (r' & Hid & Hr').
  apply list_elem_of_In, list_elem_of_omap in Hr' as (e' & He' & Hf').
  apply in_map_iff. exists e'. split; [|apply list_elem_of_In, He'].
  rewrite <- (toFused_ID _ _ _ Hf'), <- (toFused_ID _ _ _ Hr). exact Hid.
Qed.

Lemma omap_Permutation {A B} (f : A -> option B) (l l' : list A) :
  Permutation l l' -> Permutation (omap f l) (omap f l').
Proof.
  induction 1 as [|x l l' _ IH|x y l|l l' l'' _ IH1 _ IH2]; simpl.
  - reflexivity.
  - destruct (f x); [apply perm_skip|]; exact IH.
  - destruct (f x), (f y); try reflexivity. apply perm_swap.
  - etransitivity; eassumption.
Qed.

(** Ranging over the accumulator in another order gives the same list. *)
Lemma rankEntries_order_independent (cfg : Store.FuseConfig)
    (entries entries' : list Store.fusedAccumulator) :
  Permutation entries entries' ->
  List.NoDup (map Store.acc_ID entries) ->
  Store.rankEntries cfg entries' = Store.rankEntries cfg entries.
Proof.
  intros Hp Hnd. unfold Store.rankEntries. f_equal.
  apply sortSlice_unique.
  - rewrite (omap_Permutation _ _ _ Hp). apply sortSlice_perm.
  - apply omap_toFused_IDs, Hnd.
  - apply sortSlice_fused_sorted.
Qed.

Lemma accumulate_entries_NoDup (vecResults : list Store.VectorResult)
    (ftsResults : list Store.FTSResult) (excludeID : list Z) :
  List.NoDup (map Store.acc_ID
    (map snd (map_to_list (Store.accumulate vecResults ftsResults excludeID)))).
Proof.
  pose proof (accumulate_ok vecResults ftsResults excludeID) as Hok.
  set (acc := Store.accumulate vecResults ftsResults excludeID) in *.
  assert (Heq : map Store.acc_ID (map snd (map_to_list acc)) =
                map fst (map_to_list acc)).
  { rewrite map_map. apply map_ext_in. intros [k a] Hin. simpl.
    apply list_elem_of_In, elem_of_map_to_list in Hin.
    apply (Hok _ _ Hin). }
  rewrite Heq. apply NoDup_ListNoDup, NoDup_fst_map_to_list.
Qed.

(** [FuseResults] does not depend on the order in which Go ranges over
    the accumulator map. *)
Lemma FuseResults_deterministic (vecResults : list Store.VectorResult)
    (ftsResults : list Store.FTSResult) (excludeID : list Z)
    (config : Store.FuseConfig) (entries : list Store.fusedAccumulator) :
  Permutation
    (map snd (map_to_list (Store.accumulate vecResults ftsResults excludeID)))
    entries ->
  Store.rankEntries (Store.normalized config) entries =
  Store.FuseResults vecResults ftsResults excludeID config.
Proof.
  intros Hp. unfold Store.FuseResults.
  apply rankEntries_order_independent; [exact Hp|].
  apply accumulate_entries_NoDup.
Qed.

(** ** Self-match exclusion (C1) *)

Lemma searchAndFuse_fused {W} `{UnicodeCase} (e : Engine.Engine W)
    (store : Engine.SearchIndexer W) (event : Engine.Event) (w w' : W)
    (embedding : list Q) (fused : list Store.FusedResult) :
  Engine.searchAndFuse e store event w = (Ok (embedding, fused), w') ->
  exists vecResults ftsResults,
    fused = Store.FuseResults vecResults ftsResults (Engine.currentID event)
              (Engine.fuseConfig e).
Proof.
  unfold Engine.searchAndFuse, bind, ret.
  destruct (negb _).
  - destruct (Engine.eng_Embedder e) as [embed|]; [|discriminate].
    destruct (embed _ w) as [[emb|err] w1]; [|discriminate].
    destruct (Engine.SearchVector store _ _ _ w1) as [[vec|err] w2]; [|discriminate].
    destruct (Engine.SearchFTS store _ _ _ w2) as [[fts|err] w3]; [|discriminate].
    intros [= _ <- _]. eauto.
  - intros [= _ <- _]. eauto.
Qed.

(** C1. The fused list never holds the excluded id, whatever the two
    input lists contain; in the pipeline the excluded id is the id of the
    current event, so the event never appears among its own matches. *)
Theorem fused_excludes_current_id :
  (forall (vecResults : list Store.VectorResult)
          (ftsResults : list Store.FTSResult) (excludeID : list Z)
          (config : Store.FuseConfig),
     ~ In excludeID
         (map Store.fused_ID
            (Store.FuseResults vecResults ftsResults excludeID config))) /\
  (forall (W : Type) (lower : UnicodeCase) (e : Engine.Engine W)
          (store : Engine.SearchIndexer W) (event : Engine.Event) (w w' : W)
          (embedding : list Q) (fused : list Store.FusedResult),
     Engine.searchAndFuse e store event w = (Ok (embedding, fused), w') ->
     ~ In (Store.BuildItemID (Engine.ev_Type event) (Engine.ev_Number event))
         (map Store.fused_ID fused)).
Proof.
  split.
  - apply FuseResults_not_excluded.
  - intros W lower e store event w w' embedding fused Hrun.
    apply searchAndFuse_fused in Hrun as (vec & fts & ->).
    apply FuseResults_not_excluded.
Qed.

Lemma fused_excludes_current_id_witness :
  let run := @Engine.searchAndFuse unit ascii_ToLower Engine.leakyEngine
               Engine.leakyStore Engine.editedIssue tt in
  map Store.fused_ID (snd (match fst run with Ok s => s | Err _ => ([], []) end))
    = [str "issue/11"] /\
  ~ In (str "issue/10")
      (map Store.fused_ID (snd (match fst run with Ok s => s | Err _ => ([], []) end))).
Proof.
  split.
  - vm_compute. reflexivity.
  - destruct fused_excludes_current_id as [_ Hengine].
    destruct (@Engine.searchAndFuse unit ascii_ToLower Engine.leakyEngine
                Engine.leakyStore Engine.editedIssue tt) as [[[emb fused]|err] w']
      eqn:Hrun.
    + apply (Hengine unit ascii_ToLower Engine.leakyEngine Engine.leakyStore
               Engine.editedIssue tt w' emb fused Hrun).
    + vm_compute in Hrun. discriminate Hrun.
Defined.

(** The result is the head of the ranked list of all entries that pass
    the threshold. *)
Lemma FuseResults_prefix (vecResults : list Store.VectorResult)
    (ftsResults : list Store.FTSResult) (excludeID : list Z)
    (config : Store.FuseConfig) :
  let cfg := Store.normalized config in
  Store.FuseResults vecResults ftsResults excludeID config =
  firstn (Z.to_nat (Store.MaxResults cfg))
    (Store.sortSlice Store.fusedLess
       (omap (Store.toFused cfg)
          (map snd (map_to_list
             (Store.accumulate vecResults ftsResults excludeID))))).
Proof.
  intros cfg. unfold Store.FuseResults, Store.rankEntries. fold cfg.
  apply truncateTo_firstn.
  pose proof (normalized_MaxResults_pos config) as Hpos. fold cfg in Hpos. lia.
Qed.

(** No id occurs twice in the result. *)
Lemma FuseResults_ids_NoDup (vecResults : list Store.VectorResult)
    (ftsResults : list Store.FTSResult) (excludeID : list Z)
    (config : Store.FuseConfig) :
  List.NoDup
    (map Store.fused_ID (Store.FuseResults vecResults ftsResults excludeID config)).
Proof.
  rewrite FuseResults_prefix.
  set (survivors := omap _ _).
  assert (Hnd : List.NoDup (map Store.fused_ID survivors)).
  { apply omap_toFused_IDs, accumulate_entries_NoDup. }
  assert (Hsorted : List.NoDup
            (map Store.fused_ID (Store.sortSlice Store.fusedLess survivors))).
  { eapply Permutation_NoDup; [|exact Hnd].
    apply Permutation_map, sortSlice_perm. }
  revert Hsorted. generalize (Store.sortSlice Store.fusedLess survivors).
  generalize (Z.to_nat (Store.MaxResults (Store.normalized config))).
  intros n l. revert n. induction l as [|x l IH]; intros [|n] Hl; simpl;
    try constructor.
  - inversion Hl as [|? ? Hx Hl']; subst. intros Hin. apply Hx.
    apply in_map_iff in Hin as (y & Hy & Hin). apply in_map_iff.
    exists y. split; [exact Hy|].
    apply list_elem_of_In. apply list_elem_of_In in Hin.
    exact (subseteq_take n l y Hin).
  - inversion Hl; subst. apply IH. assumption.
Qed.

(** ** Vector search (C4) *)

Lemma StronglySorted_weaken {A} (R S : A -> A -> Prop) (l : list A) :
  (forall a b, R a b -> S a b) -> StronglySorted R l -> StronglySorted S l.
Proof.
  intros HRS. induction 1 as [|x l _ IH Hx]; constructor; [exact IH|].
  eapply Forall_impl; [exact Hx | auto].
Qed.

Lemma hitLess_hitBefore (a b : Store.vectorHit) :
  Store.hitLess b a = false <-> Store.hitBefore a b.
Proof.
  unfold Store.hitLess, Store.hitBefore.
  destruct (Qeq_bool (Store.hit_Distance b) (Store.hit_Distance a)) eqn:E;
    score_facts.
  - split.
    + intros Hid. right. split; [lra | exact Hid].
    + intros [Hlt | [_ Hid]]; [lra | exact Hid].
  - rewrite Qltb_ge. split.
    + intros Hle. left. apply Qle_lteq in Hle as [Hlt|Heq]; [exact Hlt|].
      exfalso. apply E. symmetry. exact Heq.
    + intros [Hlt | [Heq _]]; [lra|]. exfalso. apply E. symmetry. exact Heq.
Qed.

Lemma hitBefore_trans (a b c : Store.vectorHit) :
  Store.hitBefore a b -> Store.hitBefore b c -> Store.hitBefore a c.
Proof.
  unfold Store.hitBefore.
  intros [H1 | [E1 I1]] [H2 | [E2 I2]]; try (left; lra).
  right. split; [lra|]. eapply ltb_false_trans; eassumption.
Qed.

Lemma hitLess_asym (a b : Store.vectorHit) :
  Store.hitLess a b = true -> Store.hitLess b a = false.
Proof.
  unfold Store.hitLess.
  destruct (Qeq_bool (Store.hit_Distance a) (Store.hit_Distance b)) eqn:E1;
    destruct (Qeq_bool (Store.hit_Distance b) (Store.hit_Distance a)) eqn:E2;
    intros Hab; score_facts; try lra.
  apply ltb_asym, Hab.
Qed.

Lemma sortSlice_hits_sorted (hits : list Store.vectorHit) :
  StronglySorted Store.hitBefore (Store.sortSlice Store.hitLess hits).
Proof.
  apply StronglySorted_weaken with (R := Store.notAfter Store.hitLess).
  - intros a b. apply hitLess_hitBefore.
  - apply sortSlice_strongly_sorted.
    + apply hitLess_asym.
    + intros a b c. unfold Store.notAfter. rewrite !hitLess_hitBefore.
      apply hitBefore_trans.
Qed.

Lemma candidateLimit_triple (limit : Z) :
  (0 < limit)%Z -> (3 * limit <= Store.maxInt)%Z ->
  Store.candidateLimit limit = (3 * limit)%Z.
Proof.
  unfold Store.candidateLimit, Store.wrap64, Store.maxInt. intros Hpos Hmax.
  assert (Hw : ((limit * 3 + 2 ^ 63) mod 2 ^ 64 - 2 ^ 63 = 3 * limit)%Z).
  { rewrite Z.mod_small; lia. }
  rewrite Hw. destruct (Z.ltb_spec (3 * limit) 1); [lia | reflexivity].
Qed.

(** Beyond a third of the [int] range the product wraps, and the guard
    of the source puts the candidate count back to one. *)
Example candidateLimit_wraps : Store.candidateLimit (2 ^ 62) = 1%Z.
Proof. vm_compute. reflexivity. Qed.

Section SearchVector_facts.
Context `{Store.Sqlite} `{Store.VectorMath} `{UnicodeCase}.

Lemma lookupItemMeta_no_fault (db : Store.DB) (id : list Z) :
  Store.fault = None ->
  Store.lookupItemMeta db id =
    match Store.items db !! id with
    | None => Store.ErrNoRows
    | Some row =>
        Store.Found
          {| Store.meta_ID := id; Store.meta_Type := Store.row_type row;
             Store.meta_Number := Store.row_number row;
             Store.meta_Title := Store.row_title row;
             Store.meta_State := Store.row_state row;
             Store.meta_URL := Store.row_url row |}
    end.
Proof. intros Hf. unfold Store.lookupItemMeta. rewrite Hf. reflexivity. Qed.

Lemma hydrateHits_spec (db : Store.DB) (excludeID : list Z) (limit : Z)
    (hits : list Store.vectorHit) :
  Store.fault = None ->
  forall results,
    (Z.of_nat (length results) < limit)%Z ->
    Store.hydrateHits db excludeID limit hits results =
      Ok (firstn (Z.to_nat limit)
            (results ++ omap (Store.hydrateHit db excludeID) hits)).
Proof.
  intros Hf. induction hits as [|hit rest IH]; intros results Hlen; simpl.
  - rewrite app_nil_r, firstn_all2 by lia. reflexivity.
  - unfold Store.hydrateHit at 1.
    case_bool_decide as Hex; [apply IH, Hlen|].
    rewrite (lookupItemMeta_no_fault _ _ Hf).
    destruct (Store.items db !! Store.hit_ID hit) as [row|]; [|apply IH, Hlen].
    rewrite length_app. simpl length.
    destruct (Z.leb_spec limit (Z.of_nat (length results + 1))) as [Hfull|Hmore].
    + f_equal. rewrite firstn_app.
      rewrite firstn_all2 by lia. f_equal.
      replace (Z.to_nat limit - length results)%nat with 1%nat by lia.
      reflexivity.
    + rewrite IH by (rewrite length_app; simpl; lia).
      rewrite <- app_assoc. reflexivity.
Qed.

Lemma hydrateHit_facts (db : Store.DB) (excludeID : list Z)
    (hit : Store.vectorHit) (r : Store.VectorResult) :
  Store.hydrateHit db excludeID hit = Some r ->
  Store.vec_ID r = Store.hit_ID hit /\
  Store.vec_ID r <> excludeID /\
  is_Some (Store.items db !! Store.vec_ID r) /\
  Store.vec_Distance r = Store.hit_Distance hit /\
  Store.vec_VecScore r = Store.clamp01 (1 - Store.vec_Distance r).
Proof.
  unfold Store.hydrateHit. case_bool_decide as Hex; [discriminate|].
  destruct (Store.items db !! Store.hit_ID hit) as [row|] eqn:Hrow; [|discriminate].
  intros [= <-]. simpl. rewrite Hrow. repeat split; eauto.
Qed.

Lemma bruteForce_sorted (db : Store.DB) (queryEmbedding : list Q) (k : Z) :
  Store.fault = None -> (0 <= k)%Z ->
  exists hits,
    Store.vectorOnlySearchBruteForce db queryEmbedding k = Ok hits /\
    StronglySorted
      (fun a b => (Store.hit_Distance a <= Store.hit_Distance b)%Q) hits /\
    (Z.of_nat (length hits) <= k)%Z.
Proof.
  intros Hf Hk. unfold Store.vectorOnlySearchBruteForce. rewrite Hf.
  eexists. split; [reflexivity|]. split.
  - apply StronglySorted_weaken with (R := Store.hitBefore).
    + intros a b [Hlt | [Heq _]]; lra.
    + unfold Store.truncateTo. destruct (_ <? _)%Z;
        [apply StronglySorted_firstn|]; apply sortSlice_hits_sorted.
  - apply truncateTo_length, Hk.
Qed.

End SearchVector_facts.

(** C4. On an open store [SearchVector] returns the empty list and no
    error when the query vector is empty or the limit is not positive.
    Otherwise it asks for [3 * limit] candidates and walks them in the
    order given, dropping silently the hit of the excluded id and every
    hit without item row, until [limit] results are hydrated; every
    result carries [VecScore = clamp01 (1 - Distance)].  The brute-force
    candidates come in ascending distance, at most as many as asked. *)
Theorem SearchVector_contract `{Store.Sqlite} `{Store.VectorMath} `{UnicodeCase}
    (db : Store.DB) (queryEmbedding : list Q) (excludeID : list Z) (limit : Z)
    (Hfault : Store.fault = None) :
  (queryEmbedding = [] \/ (limit <= 0)%Z ->
     Store.SearchVector (Some db) queryEmbedding excludeID limit = Ok []) /\
  (queryEmbedding <> [] -> (0 < limit)%Z -> (3 * limit <= Store.maxInt)%Z ->
     forall hits,
       Store.vectorOnlySearch db queryEmbedding (3 * limit) = Ok hits ->
       let results :=
         firstn (Z.to_nat limit) (omap (Store.hydrateHit db excludeID) hits) in
       Store.SearchVector (Some db) queryEmbedding excludeID limit = Ok results /\
       (Z.of_nat (length results) <= limit)%Z /\
       Forall (fun r =>
         Store.vec_ID r <> excludeID /\
         is_Some (Store.items db !! Store.vec_ID r) /\
         Store.vec_VecScore r = Store.clamp01 (1 - Store.vec_Distance r))
         results) /\
  (forall k, (0 <= k)%Z ->
     exists hits,
       Store.vectorOnlySearchBruteForce db queryEmbedding k = Ok hits /\
       StronglySorted
         (fun a b => (Store.hit_Distance a <= Store.hit_Distance b)%Q) hits /\
       (Z.of_nat (length hits) <= k)%Z).
Proof.
  split; [|split].
  - intros Hempty. unfold Store.SearchVector.
    destruct Hempty as [-> | Hle]; [reflexivity|].
    apply Z.leb_le in Hle. rewrite Hle, orb_true_r. reflexivity.
  - intros Hq Hpos Hmax hits Hhits results.
    split; [|split].
    + unfold Store.SearchVector.
      destruct queryEmbedding as [|q0 qs]; [contradiction|].
      simpl length. simpl Nat.eqb.
      destruct (Z.leb_spec limit 0) as [Hle|_]; [lia|]. simpl orb.
      rewrite (candidateLimit_triple _ Hpos Hmax), Hhits.
      rewrite (hydrateHits_spec _ _ _ _ Hfault) by (simpl; lia).
      reflexivity.
    + unfold results. rewrite length_take. lia.
    + apply List.Forall_forall. intros r Hr.
      apply list_elem_of_In in Hr.
      apply (subseteq_take (Z.to_nat limit)) in Hr.
      apply list_elem_of_omap in Hr as (hit & _ & Hhyd).
      apply hydrateHit_facts in Hhyd as (_ & Hne & Hrow & _ & Hscore).
      auto.
  - intros k Hk. apply bruteForce_sorted; assumption.
Qed.

Lemma SearchVector_contract_witness :
  let hits :=
    match @Store.vectorOnlySearch Store.plainSqlite Store.unitCosine
            ascii_ToLower Store.sampleDB [1; 0; 0]%Q 9 with
    | Ok hits => hits
    | Err _ => []
    end in
  map Store.hit_ID hits =
    [str "issue/1"; str "issue/2"; str "issue/3"; str "issue/4"] /\
  @Store.SearchVector Store.plainSqlite Store.unitCosine ascii_ToLower
    (Some Store.sampleDB) [1; 0; 0]%Q (str "issue/1") 3 =
  Ok (firstn 3 (omap (Store.hydrateHit Store.sampleDB (str "issue/1")) hits)).
Proof.
  intros hits. split; [vm_compute; reflexivity|].
  pose proof (@SearchVector_contract Store.plainSqlite Store.unitCosine
                ascii_ToLower Store.sampleDB [1; 0; 0]%Q (str "issue/1") 3
                eq_refl) as (_ & Hsearch & _).
  refine (proj1 (Hsearch _ _ _ hits _)).
  - discriminate.
  - lia.
  - vm_compute. discriminate.
  - vm_compute. reflexivity.
Defined.

(** ** Item upsert (C6) *)

(** C6. [UpsertItem] fails, leaving the store as it was, when the id or
    the type is blank or the number is not positive.  When the id already
    has a row, the upsert keeps that row's [created_at], sets
    [updated_at] to the value of the new record (the clock when the
    record carries none) and every other column to the new record's
    value; rows of other ids and the other tables are untouched. *)
Theorem UpsertItem_contract `{Store.Sqlite} (now : Store.Time) (s : Store.Store)
    (rec : Store.ItemRecord) :
  (TrimSpace (Store.rec_ID rec) = [] \/ TrimSpace (Store.rec_Type rec) = [] \/
   (Store.rec_Number rec <= 0)%Z ->
     exists err, Store.UpsertItem now s rec = (Some err, s)) /\
  (forall db old,
     s = Some db -> Store.fault = None ->
     TrimSpace (Store.rec_ID rec) <> [] -> TrimSpace (Store.rec_Type rec) <> [] ->
     (0 < Store.rec_Number rec)%Z ->
     Store.items db !! Store.rec_ID rec = Some old ->
     exists db' row,
       Store.UpsertItem now s rec = (None, Some db') /\
       Store.items db' !! Store.rec_ID rec = Some row /\
       Store.row_created_at row = Store.row_created_at old /\
       Store.row_updated_at row =
         (if Store.IsZero (Store.rec_UpdatedAt rec) then now
          else Store.rec_UpdatedAt rec) /\
       Store.row_type row = Store.rec_Type rec /\
       Store.row_number row = Store.rec_Number rec /\
       Store.row_title row = Store.rec_Title rec /\
       Store.row_body row = Store.rec_Body rec /\
       Store.row_author row = Store.rec_Author rec /\
       Store.row_state row = Store.rec_State rec /\
       Store.row_labels row = Store.rec_Labels rec /\
       Store.row_files row = Store.rec_Files rec /\
       Store.row_url row = Store.rec_URL rec /\
       (forall id, id <> Store.rec_ID rec ->
          Store.items db' !! id = Store.items db !! id) /\
       Store.schema_version db' = Store.schema_version db /\
       Store.objects db' = Store.objects db /\
       Store.items_vec db' = Store.items_vec db).
Proof.
  split.
  - intros Hbad. unfold Store.UpsertItem.
    destruct s as [db|]; [|eauto].
    case_bool_decide as Hid; [eauto|].
    case_bool_decide as Hty; [eauto|].
    destruct (Z.leb_spec (Store.rec_Number rec) 0) as [Hn|Hn]; [eauto|].
    destruct Hbad as [Hbad | [Hbad | Hbad]]; [contradiction | contradiction | lia].
  - intros db old -> Hfault Hid Hty Hn Hold.
    unfold Store.UpsertItem, Store.exec.
    rewrite (bool_decide_eq_false_2 _ Hid), (bool_decide_eq_false_2 _ Hty).
    destruct (Z.leb_spec (Store.rec_Number rec) 0) as [Hle|_]; [lia|].
    rewrite Hfault, Hold. do 2 eexists. split; [reflexivity|].
    cbn. rewrite lookup_insert_eq. split; [reflexivity|].
    repeat split; try reflexivity.
    intros id Hne. rewrite lookup_insert_ne by congruence. reflexivity.
Qed.

Lemma UpsertItem_contract_witness :
  match snd (@Store.UpsertItem Store.plainSqlite 9%Z (Some Store.sampleDB)
               Store.issueOneEdited) with
  | Some db' =>
      option_map (fun row => (Store.row_created_at row, Store.row_updated_at row,
                              Store.row_title row))
        (Store.items db' !! str "issue/1")
      = Some (1%Z, 7%Z, str "one, edited")
  | None => False
  end.
Proof.
  pose proof (@UpsertItem_contract Store.plainSqlite 9%Z (Some Store.sampleDB)
                Store.issueOneEdited) as [_ Hconflict].
  destruct (Hconflict Store.sampleDB (Store.issueRow 1 (str "one")))
    as (db' & row & Hrun & Hrow & Hcreated & Hupdated & _ & _ & Htitle & _).
  - reflexivity.
  - reflexivity.
  - vm_compute. discriminate.
  - vm_compute. discriminate.
  - reflexivity.
  - vm_compute. reflexivity.
  - change (Store.rec_ID Store.issueOneEdited) with (str "issue/1") in Hrow.
    rewrite Hrun. cbv beta iota delta [snd]. rewrite Hrow. simpl option_map.
    rewrite Hcreated, Hupdated, Htitle. reflexivity.
Defined.

(** A first insert stores the record's own timestamps, the clock standing
    in for a zero one. *)
Lemma UpsertItem_insert `{Store.Sqlite} (now : Store.Time) (db : Store.DB)
    (rec : Store.ItemRecord) :
  Store.fault = None ->
  TrimSpace (Store.rec_ID rec) <> [] -> TrimSpace (Store.rec_Type rec) <> [] ->
  (0 < Store.rec_Number rec)%Z ->
  Store.items db !! Store.rec_ID rec = None ->
  exists db',
    Store.UpsertItem now (Some db) rec = (None, Some db') /\
    Store.items db' !! Store.rec_ID rec =
      Some (Store.excludedRow rec
              (if Store.IsZero (Store.rec_CreatedAt rec) then now
               else Store.rec_CreatedAt rec)
              (if Store.IsZero (Store.rec_UpdatedAt rec) then now
               else Store.rec_UpdatedAt rec)).
Proof.
  intros Hfault Hid Hty Hn Hnew.
  unfold Store.UpsertItem, Store.exec.
  rewrite (bool_decide_eq_false_2 _ Hid), (bool_decide_eq_false_2 _ Hty).
  destruct (Z.leb_spec (Store.rec_Number rec) 0) as [Hle|_]; [lia|].
  rewrite Hfault, Hnew. eexists. split; [reflexivity|].
  cbn. apply lookup_insert_eq.
Qed.

(** ** Full-text score (C8) *)

Section BM25.
Local Open Scope Q_scope.

Lemma normalizeBM25_mult (x : Q) :
  Store.normalizeBM25 x * (1 + Qabs x) == Qabs x.
Proof.
  unfold Store.normalizeBM25. pose proof (Qabs_nonneg x). field. lra.
Qed.

Lemma normalizeBM25_range (x : Q) :
  0 <= Store.normalizeBM25 x /\ Store.normalizeBM25 x < 1.
Proof.
  pose proof (normalizeBM25_mult x) as Hm. pose proof (Qabs_nonneg x) as Ha.
  generalize dependent (Qabs x). generalize (Store.normalizeBM25 x).
  intros y a Hm Ha. split.
  - destruct (Qlt_le_dec y 0) as [Hneg|]; [|assumption]. exfalso. nra.
  - destruct (Qlt_le_dec y 1) as [|Hge]; [assumption|]. exfalso. nra.
Qed.



End BM25.

Lemma searchFTSNative_scores `{Store.Sqlite} (db : Store.DB)
    (ftsQuery excludeID : list Z) (limit : Z) (results : list Store.FTSResult) :
  Store.searchFTSNative db ftsQuery excludeID limit = Ok results ->
  exists rows,
    Store.fts5_match db ftsQuery excludeID limit = Ok rows /\
    Forall2 (fun row r =>
      Store.fts_RawBM25 r = Store.frow_score row /\
      Store.fts_FTSScore r = Store.normalizeBM25 (Store.fts_RawBM25 r)) rows results.
Proof.
  unfold Store.searchFTSNative.
  destruct (Store.fts5_match db ftsQuery excludeID limit) as [rows|err];
    [|discriminate].
  intros [= <-]. exists rows. split; [reflexivity|].
  induction rows as [|row rows IH]; simpl; constructor; auto.
Qed.

Lemma searchFTSFallback_scores `{Store.Sqlite} (db : Store.DB)
    (terms : list (list Z)) (excludeID : list Z) (limit : Z)
    (results : list Store.FTSResult) :
  Store.searchFTSFallback db terms excludeID limit = Ok results ->
  exists rows,
    Store.like_match db excludeID terms (Store.candidateLimit limit) = Ok rows /\
    Forall (fun r =>
      (exists row, In row rows /\ Store.fts_ID r = Store.fb_ID row /\
         Store.fts_RawBM25 r =
           (- inject_Z (Store.fallbackTermFrequency (Store.fb_LowerText row) terms))%Q) /\
      Store.fts_FTSScore r = Store.normalizeBM25 (Store.fts_RawBM25 r)) results.
Proof.
  unfold Store.searchFTSFallback.
  destruct (Store.like_match db excludeID terms (Store.candidateLimit limit))
    as [rows|err]; [|discriminate].
  intros [= <-]. exists rows. split; [reflexivity|].
  apply List.Forall_forall. intros r Hr.
  apply in_map_iff in Hr as (row & <- & Hrow). simpl.
  split; [|reflexivity].
  exists row. split; [|split; reflexivity].
  apply truncateTo_In in Hrow.
  eapply Permutation_in; [apply Permutation_sym, sortSlice_perm | exact Hrow].
Qed.



(** Both paths meet in [SearchFTS]: whatever it returns is scored by
    [normalizeBM25]. *)
Lemma SearchFTS_scores `{Store.Sqlite} `{Store.UnicodeClass} `{UnicodeCase}
    (s : Store.Store) (query excludeID : list Z) (limit : Z)
    (results : list Store.FTSResult) :
  Store.SearchFTS s query excludeID limit = Ok results ->
  Forall (fun r =>
    Store.fts_FTSScore r = Store.normalizeBM25 (Store.fts_RawBM25 r)) results.
Proof.
  unfold Store.SearchFTS. destruct s as [db|]; [|discriminate].
  destruct (limit <=? 0)%Z; [intros [= <-]; constructor|].
  destruct (length _ =? 0)%nat; [intros [= <-]; constructor|].
  destruct (Store.searchFTSNative db _ excludeID limit) as [native|err] eqn:Hnative.
  - intros [= <-].
    apply searchFTSNative_scores in Hnative as (rows & _ & Hall).
    induction Hall as [|row r rows results [_ Hr] _ IH]; constructor; auto.
  - destruct (negb _); [discriminate|]. intros Hfb.
    apply searchFTSFallback_scores in Hfb as (rows & _ & Hall).
    eapply Forall_impl; [exact Hall|]. intros r [_ Hr]. exact Hr.
Qed.

(** ** Migrations (C7) *)

Section Migrations.
Context `{Store.Sqlite} `{UnicodeCase}.
Hypothesis no_fault : Store.fault = None.
Hypothesis lower_ok : lower_ascii.

Lemma exec_ok (f : Store.DB -> Store.DB) (db : Store.DB) :
  Store.exec f db = Ok (f db).
Proof. unfold Store.exec. rewrite no_fault. reflexivity. Qed.

Lemma createIfNotExists_schema (name : list Z) (kind : Store.objKind)
    (db : Store.DB) :
  Store.schema_version (Store.createIfNotExists name kind db) =
  Store.schema_version db.
Proof.
  unfold Store.createIfNotExists. destruct (Store.objects db !! name); reflexivity.
Qed.

Lemma execStatements_schema (stmts : list (Store.DB -> Store.DB)) :
  Forall (fun stmt => forall db,
            Store.schema_version (stmt db) = Store.schema_version db) stmts ->
  forall db, exists db',
    Store.execStatements stmts db = Ok db' /\
    Store.schema_version db' = Store.schema_version db.
Proof.
  induction 1 as [|stmt stmts Hstmt _ IH]; intros db; simpl.
  - eauto.
  - rewrite exec_ok. destruct (IH (stmt db)) as (db' & Hrun & Hsv).
    exists db'. split; [exact Hrun|]. rewrite Hsv. apply Hstmt.
Qed.

Lemma isModuleUnavailable_missing (module : list Z) :
  Forall (fun r => (0 <= r < 128)%Z) module ->
  map ascii_ToLower module = module ->
  Store.isModuleUnavailable (str "no such module: " ++ module) module = true.
Proof.
  intros Hascii Hlow. unfold Store.isModuleUnavailable.
  assert (Hprefix : Forall (fun r => (0 <= r < 128)%Z) (str "no such module: ")).
  { vm_compute. repeat constructor; discriminate. }
  rewrite (ToLower_ascii module lower_ok Hascii).
  rewrite (ToLower_ascii (str "no such module: " ++ module) lower_ok).
  - rewrite map_app, Hlow.
    assert (Hp : map ascii_ToLower (str "no such module: ") = str "no such module: ")
      by (vm_compute; reflexivity).
    rewrite Hp. apply HasPrefix_Contains, HasPrefix_refl.
  - apply Forall_app. split; assumption.
Qed.

Lemma createVirtualTable_or_fallback (name module : list Z) (available : bool)
    (tx : Store.DB) :
  Forall (fun r => (0 <= r < 128)%Z) module ->
  map ascii_ToLower module = module ->
  exists tx',
    match Store.createVirtualTable name module available tx with
    | Ok tx' => Ok tx'
    | Err err =>
        if negb (Store.isModuleUnavailable err module) then Err err
        else Store.exec (Store.createIfNotExists name Store.Table) tx
    end = Ok tx' /\
    Store.schema_version tx' = Store.schema_version tx.
Proof.
  intros Hascii Hlow. unfold Store.createVirtualTable. rewrite no_fault.
  destruct (Store.objects tx !! name) as [kind|] eqn:Hobj; [eauto|].
  destruct available; [eauto|].
  rewrite (isModuleUnavailable_missing _ Hascii Hlow). simpl negb. cbv iota.
  rewrite exec_ok. eexists. split; [reflexivity|].
  apply createIfNotExists_schema.
Qed.

Lemma migrateV1_ok (tx : Store.DB) :
  exists tx', Store.migrateV1 tx = Ok tx' /\
              Store.schema_version tx' = Store.schema_version tx.
Proof.
  apply execStatements_schema.
  repeat constructor; intros db; apply createIfNotExists_schema.
Qed.

Lemma migrateV2_ok (tx : Store.DB) :
  exists tx', Store.migrateV2 tx = Ok tx' /\
              Store.schema_version tx' = Store.schema_version tx.
Proof.
  unfold Store.migrateV2, Store.ensureFTSTable, Store.ensureVectorTable.
  destruct (createVirtualTable_or_fallback (str "items_fts") (str "fts5")
              Store.has_fts5 tx) as (tx1 & -> & Hsv1).
  { vm_compute. repeat constructor; discriminate. }
  { reflexivity. }
  destruct (execStatements_schema
              [Store.createIfNotExists (str "items_fts_insert") Store.Trigger;
               Store.createIfNotExists (str "items_fts_delete") Store.Trigger;
               Store.createIfNotExists (str "items_fts_update") Store.Trigger])
    with (db := tx1) as (tx2 & -> & Hsv2).
  { repeat constructor; intros db; apply createIfNotExists_schema. }
  destruct (createVirtualTable_or_fallback (str "items_vec") (str "vec0")
              Store.has_vec0 tx2) as (tx3 & -> & Hsv3).
  { vm_compute. repeat constructor; discriminate. }
  { reflexivity. }
  exists tx3. split; [reflexivity|]. congruence.
Qed.

Lemma applyMigration_ok (now : Store.Time) (db : Store.DB) (m : Store.migration)
    (rows : list (Z * Store.Time)) :
  (forall tx, exists tx', Store.up m tx = Ok tx' /\
                          Store.schema_version tx' = Store.schema_version tx) ->
  Store.schema_version db = Some rows ->
  ~ In (Store.version m) (map fst rows) ->
  exists db',
    Store.applyMigration now db m = (None, db') /\
    Store.schema_version db' = Some (rows ++ [(Store.version m, now)]).
Proof.
  intros Hup Hrows Hfresh. unfold Store.applyMigration.
  destruct (Hup db) as (tx & -> & Hsv).
  unfold Store.insertVersion. rewrite no_fault, Hsv, Hrows.
  rewrite bool_decide_eq_false_2.
  - eexists. split; reflexivity.
  - rewrite list_elem_of_In. exact Hfresh.
Qed.

Lemma ensureSchemaVersionTable_ok (db : Store.DB) :
  exists db',
    Store.ensureSchemaVersionTable db = Ok db' /\
    Store.schema_version db' =
      Some (match Store.schema_version db with Some rows => rows | None => [] end) /\
    (Store.schema_version db <> None -> db' = db).
Proof.
  unfold Store.ensureSchemaVersionTable. rewrite exec_ok.
  eexists. split; [reflexivity|].
  destruct (Store.schema_version db) eqn:Hsv; simpl.
  - rewrite Hsv. split; [reflexivity|]. reflexivity.
  - split; [reflexivity|]. congruence.
Qed.

(** From no row at all: both migrations run. *)
Lemma applyPending_from_0 (now : Z -> Store.Time) (db : Store.DB) :
  Store.schema_version db = Some [] ->
  exists db',
    Store.applyPending now 0 Store.migrations db = (None, db') /\
    Store.schema_version db' = Some [(1, now 1); (2, now 2)]%Z.
Proof.
  intros Hsv. simpl.
  destruct (applyMigration_ok (now 1%Z) db
              {| Store.version := 1; Store.name := str "create_items";
                 Store.up := Store.migrateV1 |} [])
    as (db1 & -> & Hsv1); [apply migrateV1_ok | exact Hsv | simpl; tauto |].
  destruct (applyMigration_ok (now 2%Z) db1
              {| Store.version := 2; Store.name := str "create_search_tables";
                 Store.up := Store.migrateV2 |} [(1, now 1)]%Z)
    as (db2 & -> & Hsv2); [apply migrateV2_ok | exact Hsv1 | simpl; lia |].
  exists db2. split; [reflexivity | exact Hsv2].
Qed.

(** From version 1: only the second migration runs. *)
Lemma applyPending_from_1 (now : Z -> Store.Time) (db : Store.DB)
    (t1 : Store.Time) :
  Store.schema_version db = Some [(1%Z, t1)] ->
  exists db',
    Store.applyPending now 1 Store.migrations db = (None, db') /\
    Store.schema_version db' = Some [(1%Z, t1); (2%Z, now 2%Z)].
Proof.
  intros Hsv. simpl.
  destruct (applyMigration_ok (now 2%Z) db
              {| Store.version := 2; Store.name := str "create_search_tables";
                 Store.up := Store.migrateV2 |} [(1%Z, t1)])
    as (db2 & -> & Hsv2); [apply migrateV2_ok | exact Hsv | simpl; lia |].
  exists db2. split; [reflexivity | exact Hsv2].
Qed.

(** At the latest version nothing runs and nothing changes. *)
Lemma ApplyMigrations_at_latest (now : Z -> Store.Time) (db : Store.DB) :
  Store.recordedVersions db = [1; 2]%Z ->
  Store.ApplyMigrations now (Some db) = (None, Some db).
Proof.
  unfold Store.recordedVersions. intros Hv.
  destruct (Store.schema_version db) as [rows|] eqn:Hsv; [|discriminate].
  destruct rows as [|[v1 t1] [|[v2 t2] [|? ?]]]; try discriminate.
  simpl in Hv. injection Hv as -> ->.
  unfold Store.ApplyMigrations.
  destruct (ensureSchemaVersionTable_ok db) as (db' & -> & _ & Hsame).
  rewrite Hsame by congruence.
  unfold Store.currentSchemaVersion. rewrite no_fault, Hsv. reflexivity.
Qed.

Lemma ApplyMigrations_reaches_latest (now : Z -> Store.Time) (db : Store.DB) :
  Store.schemaReachable db ->
  exists db',
    Store.ApplyMigrations now (Some db) = (None, Some db') /\
    Store.recordedVersions db' = [1; 2]%Z.
Proof.
  unfold Store.schemaReachable, Store.recordedVersions.
  intros Hreach. unfold Store.ApplyMigrations.
  destruct (ensureSchemaVersionTable_ok db) as (db0 & -> & Hsv0 & Hsame).
  unfold Store.currentSchemaVersion. rewrite no_fault, Hsv0.
  destruct (Store.schema_version db) as [rows|] eqn:Hsv.
  - destruct rows as [|[v1 t1] [|[v2 t2] [|? ?]]];
      simpl in Hreach; destruct Hreach as [Hr | [Hr | Hr]]; try discriminate.
    + destruct (applyPending_from_0 now db0 Hsv0) as (db' & -> & Hsv').
      exists db'. rewrite Hsv'. split; reflexivity.
    + injection Hr as ->. simpl fold_left.
      destruct (applyPending_from_1 now db0 t1 Hsv0) as (db' & -> & Hsv').
      exists db'. rewrite Hsv'. split; reflexivity.
    + injection Hr as -> ->. simpl.
      exists db0. rewrite Hsv0. split; reflexivity.
  - destruct (applyPending_from_0 now db0 Hsv0) as (db' & -> & Hsv').
    exists db'. rewrite Hsv'. split; reflexivity.
Qed.

Lemma ApplyMigrationsTimes_latest (nows : list (Z -> Store.Time)) :
  forall db,
    Store.recordedVersions db = [1; 2]%Z ->
    Store.ApplyMigrationsTimes nows (Some db) = (None, Some db).
Proof.
  induction nows as [|now nows IH]; intros db Hv; [reflexivity|].
  cbn [Store.ApplyMigrationsTimes].
  rewrite (ApplyMigrations_at_latest now db Hv). apply IH, Hv.
Qed.

End Migrations.

(** C7. On a build whose statements do not fail, from a database whose
    version table is in a state the migrations themselves produce (absent
    or empty, version 1, versions 1 and 2), running [ApplyMigrations] any
    number [N >= 1] of times succeeds and leaves exactly the two rows of
    versions 1 and 2; and at the latest version a run changes nothing:
    no migration is performed, no row is added. *)
Theorem ApplyMigrations_idempotent `{Store.Sqlite} `{UnicodeCase}
    (no_fault : Store.fault = None) (lower_ok : lower_ascii)
    (db : Store.DB) (nows : list (Z -> Store.Time)) :
  (Store.schemaReachable db -> nows <> [] ->
     exists db',
       Store.ApplyMigrationsTimes nows (Some db) = (None, Some db') /\
       Store.recordedVersions db' = [1; 2]%Z) /\
  (Store.recordedVersions db = [1; 2]%Z ->
     forall now, Store.ApplyMigrations now (Some db) = (None, Some db)).
Proof.
  split.
  - intros Hreach Hnows. destruct nows as [|now nows]; [contradiction|].
    cbn [Store.ApplyMigrationsTimes].
    destruct (ApplyMigrations_reaches_latest no_fault lower_ok now db Hreach)
      as (db' & -> & Hv).
    exists db'. split; [|exact Hv].
    apply ApplyMigrationsTimes_latest; assumption.
  - intros Hv now. apply ApplyMigrations_at_latest; assumption.
Qed.

Lemma ApplyMigrations_idempotent_witness :
  let clock (run : Z) : Z -> Store.Time := fun v => (10 * run + v)%Z in
  exists db',
    @Store.ApplyMigrationsTimes Store.plainSqlite ascii_ToLower
      [clock 1; clock 2; clock 3]%Z (Some Store.freshDB) = (None, Some db') /\
    Store.recordedVersions db' = [1; 2]%Z.
Proof.
  intros clock.
  apply (@ApplyMigrations_idempotent Store.plainSqlite ascii_ToLower
           eq_refl ascii_table_lower_ascii Store.freshDB
           [clock 1; clock 2; clock 3]%Z).
  - left. reflexivity.
  - discriminate.
Defined.

(** Three runs on a new file: the rows are those of the first run. *)
Example ApplyMigrations_three_runs :
  let clock (run : Z) : Z -> Store.Time := fun v => (10 * run + v)%Z in
  option_map Store.schema_version
    (snd (@Store.ApplyMigrationsTimes Store.plainSqlite ascii_ToLower
            [clock 1; clock 2; clock 3]%Z (Some Store.freshDB)))
  = Some (Some [(1, 11); (2, 12)]%Z).
Proof. vm_compute. reflexivity. Qed.

(** ** Trimming *)

Lemma TrimLeftSpace_split (s : list Z) :
  exists pre, s = pre ++ TrimLeftSpace s.
Proof.
  induction s as [|c s [pre IH]]; simpl.
  - exists []. reflexivity.
  - destruct (isSpace c).
    + exists (c :: pre). simpl. f_equal. exact IH.
    + exists []. reflexivity.
Qed.

Lemma TrimLeftSpace_head (s : list Z) (c : Z) (t : list Z) :
  TrimLeftSpace s = c :: t -> isSpace c = false.
Proof.
  induction s as [|d s IH]; simpl; [discriminate|].
  destruct (isSpace d) eqn:Hd; [exact IH|].
  intros [= -> _]. exact Hd.
Qed.

Lemma TrimLeftSpace_keeps (s : list Z) (c : Z) :
  isSpace c = false -> TrimLeftSpace (s ++ [c]) <> [].
Proof.
  intros Hc. induction s as [|d s IH]; simpl.
  - rewrite Hc. discriminate.
  - destruct (isSpace d); [exact IH | discriminate].
Qed.

Lemma TrimRightSpace_split (s : list Z) :
  exists post, s = TrimRightSpace s ++ post.
Proof.
  unfold TrimRightSpace.
  destruct (TrimLeftSpace_split (rev s)) as [pre Hpre].
  exists (rev pre).
  rewrite <- rev_app_distr, <- Hpre, rev_involutive. reflexivity.
Qed.

Lemma TrimRightSpace_head (c : Z) (t : list Z) :
  isSpace c = false -> exists t', TrimRightSpace (c :: t) = c :: t'.
Proof.
  intros Hc.
  destruct (TrimRightSpace_split (c :: t)) as [post Hpost].
  destruct (TrimRightSpace (c :: t)) as [|d t'] eqn:Htrim.
  - exfalso. unfold TrimRightSpace in Htrim.
    apply (f_equal (@rev Z)) in Htrim. rewrite rev_involutive in Htrim.
    simpl in Htrim. apply (TrimLeftSpace_keeps (rev t) c Hc). exact Htrim.
  - simpl in Hpost. injection Hpost as <- _. exists t'. reflexivity.
Qed.

(** A trimmed string is empty or starts with a character that is not a
    space. *)
Lemma TrimSpace_head (s : list Z) (c : Z) (t : list Z) :
  TrimSpace s = c :: t -> isSpace c = false.
Proof.
  unfold TrimSpace. intros Htrim.
  destruct (TrimLeftSpace s) as [|d u] eqn:Hleft.
  - discriminate Htrim.
  - pose proof (TrimLeftSpace_head _ _ _ Hleft) as Hd.
    destruct (TrimRightSpace_head d u Hd) as [t' Ht'].
    rewrite Ht' in Htrim. injection Htrim as <- _. exact Hd.
Qed.

Lemma TrimSpace_nonblank (c : Z) (t : list Z) :
  isSpace c = false -> TrimSpace (c :: t) <> [].
Proof.
  intros Hc. unfold TrimSpace. simpl. rewrite Hc.
  destruct (TrimRightSpace_head c t Hc) as [t' ->]. discriminate.
Qed.

Lemma TrimSpace_TrimSpace_nonblank (s : list Z) :
  TrimSpace s <> [] -> TrimSpace (TrimSpace s) <> [].
Proof.
  destruct (TrimSpace s) as [|c t] eqn:Htrim; [congruence|].
  intros _. apply TrimSpace_nonblank. eapply TrimSpace_head, Htrim.
Qed.

(** The trimmed string is a segment of the string. *)
Lemma TrimSpace_split (s : list Z) :
  exists pre post, s = pre ++ TrimSpace s ++ post.
Proof.
  destruct (TrimLeftSpace_split s) as [pre Hpre].
  destruct (TrimRightSpace_split (TrimLeftSpace s)) as [post Hpost].
  exists pre, post. unfold TrimSpace. rewrite <- Hpost. exact Hpre.
Qed.

Lemma HasPrefix_app (s p post : list Z) :
  HasPrefix s p = true -> HasPrefix (s ++ post) p = true.
Proof.
  revert s. induction p as [|c p IH]; intros s.
  { intros _. destruct (s ++ post); reflexivity. }
  destruct s as [|d s]; simpl; [discriminate|].
  intros Hp. apply andb_true_iff in Hp as [-> Hp]. simpl. apply IH, Hp.
Qed.

Lemma Contains_cons (c : Z) (s sub : list Z) :
  Contains (c :: s) sub = HasPrefix (c :: s) sub || Contains s sub.
Proof. reflexivity. Qed.

Lemma Contains_nil (sub : list Z) : Contains [] sub = HasPrefix [] sub.
Proof. simpl. apply orb_false_r. Qed.

Lemma Contains_app_l (pre s sub : list Z) :
  Contains s sub = true -> Contains (pre ++ s) sub = true.
Proof.
  intros Hs. induction pre as [|c pre IH]; [exact Hs|].
  change ((c :: pre) ++ s) with (c :: (pre ++ s)).
  rewrite Contains_cons, IH. apply orb_true_r.
Qed.

Lemma Contains_app_r (s post sub : list Z) :
  Contains s sub = true -> Contains (s ++ post) sub = true.
Proof.
  induction s as [|c s IH].
  - rewrite Contains_nil. intros Hp.
    apply HasPrefix_Contains. apply (HasPrefix_app [] sub post Hp).
  - rewrite Contains_cons. intros Hc.
    change ((c :: s) ++ post) with (c :: (s ++ post)).
    rewrite Contains_cons.
    apply orb_true_iff in Hc as [Hp|Hc].
    + change (c :: (s ++ post)) with ((c :: s) ++ post).
      rewrite (HasPrefix_app _ _ _ Hp). reflexivity.
    + rewrite (IH Hc). apply orb_true_r.
Qed.

Lemma HasPrefix_TrimSpace_Contains (s p : list Z) :
  HasPrefix (TrimSpace s) p = true -> Contains s p = true.
Proof.
  intros Hp. destruct (TrimSpace_split s) as (pre & post & Hs).
  rewrite Hs. apply Contains_app_l, Contains_app_r, HasPrefix_Contains, Hp.
Qed.

(** ** The managed comment (C5) *)

Lemma CommentMarker_head :
  exists rest, Github.CommentMarker = 60%Z :: rest.
Proof. eexists. vm_compute. reflexivity. Qed.

Lemma normalizeCommentBody_blank (body : list Z) :
  TrimSpace (Github.normalizeCommentBody body) = [] <-> TrimSpace body = [].
Proof.
  unfold Github.normalizeCommentBody.
  case_bool_decide as Hb.
  - split; [intros _; exact Hb | reflexivity].
  - destruct (HasPrefix (TrimSpace body) Github.CommentMarker).
    + split; [|contradiction]. intros Ht.
      exfalso. exact (TrimSpace_TrimSpace_nonblank body Hb Ht).
    + split; [|contradiction]. intros Ht. exfalso.
      destruct CommentMarker_head as [rest Hm]. rewrite Hm in Ht.
      revert Ht. apply (TrimSpace_nonblank 60%Z). reflexivity.
Qed.

Lemma normalizeCommentBody_marker (body : list Z) :
  TrimSpace body <> [] ->
  HasPrefix (Github.normalizeCommentBody body) Github.CommentMarker = true /\
  (Contains body Github.CommentMarker = false ->
   Github.normalizeCommentBody body =
     Github.CommentMarker ++ [10%Z] ++ TrimSpace body).
Proof.
  intros Hb. unfold Github.normalizeCommentBody.
  rewrite (bool_decide_eq_false_2 _ Hb).
  destruct (HasPrefix (TrimSpace body) Github.CommentMarker) eqn:Hp.
  - split; [exact Hp|]. intros Hc.
    rewrite (HasPrefix_TrimSpace_Contains _ _ Hp) in Hc. discriminate.
  - split; [|reflexivity].
    apply HasPrefix_app, HasPrefix_refl.
Qed.

Lemma FindTriageComment_found (comments : list Github.IssueComment) :
  snd (Github.FindTriageComment comments) = true <->
  exists c, In c comments /\ Contains (Github.ic_Body c) Github.CommentMarker = true.
Proof.
  induction comments as [|c comments IH]; simpl.
  - split; [discriminate | intros (c & [] & _)].
  - destruct (Contains (Github.ic_Body c) Github.CommentMarker) eqn:Hc; simpl.
    + split; [|reflexivity]. intros _. exists c. auto.
    + rewrite IH. split.
      * intros (c' & Hin & Hc'). exists c'. auto.
      * intros (c' & [<- | Hin] & Hc'); [congruence|]. exists c'. auto.
Qed.

Lemma FindTriageComment_existing (comments : list Github.IssueComment) :
  snd (Github.FindTriageComment comments) = true ->
  In (fst (Github.FindTriageComment comments)) comments /\
  Contains (Github.ic_Body (fst (Github.FindTriageComment comments)))
    Github.CommentMarker = true.
Proof.
  induction comments as [|c comments IH]; simpl; [discriminate|].
  destruct (Contains (Github.ic_Body c) Github.CommentMarker) eqn:Hc; simpl.
  - auto.
  - intros Hf. destruct (IH Hf). auto.
Qed.

(** C5. Once the comments are listed, what [UpsertTriageComment] does is
    fixed by three facts: whether a managed comment exists, whether its
    body equals the normalized candidate, and whether the candidate is
    empty.  No comment and an empty body: nothing.  A managed comment and
    an empty body: delete.  No managed comment and a body: create, with
    the marker line put first when the body lacks the marker.  A managed
    comment with another body: update.  The same body: nothing. *)
Theorem UpsertTriageComment_reconcile {W : Type} `{Github.CommentAPI W}
    (owner repo : list Z) (number : Z) (body : list Z) (w w1 : W)
    (comments : list Github.IssueComment)
    (Hlist : Github.ListIssueComments owner repo number w = (Ok comments, w1)) :
  let existing := fst (Github.FindTriageComment comments) in
  let existsBefore := snd (Github.FindTriageComment comments) in
  let normalizedBody := Github.normalizeCommentBody body in
  let candidateEmpty := bool_decide (TrimSpace body = []) in
  let bodyEquivalent :=
    bool_decide (TrimSpace (Github.ic_Body existing) = TrimSpace normalizedBody) in
  let action := Github.reconcile existsBefore bodyEquivalent candidateEmpty in
  Github.UpsertTriageComment owner repo number body w =
    match action with
    | Github.CommentActionNoop => (Ok Github.CommentActionNoop, w1)
    | Github.CommentActionDeleted =>
        let (err, w2) :=
          Github.DeleteIssueComment owner repo (Github.ic_ID existing) w1 in
        (match err with
         | Some err => Err err
         | None => Ok Github.CommentActionDeleted
         end, w2)
    | Github.CommentActionUpdated =>
        let (r, w2) :=
          Github.UpdateIssueComment owner repo (Github.ic_ID existing)
            normalizedBody w1 in
        (match r with
         | Err err => Err err
         | Ok _ => Ok Github.CommentActionUpdated
         end, w2)
    | Github.CommentActionCreated =>
        let (r, w2) :=
          Github.CreateIssueComment owner repo number normalizedBody w1 in
        (match r with
         | Err err => Err err
         | Ok _ => Ok Github.CommentActionCreated
         end, w2)
    end /\
  (forall done w', Github.UpsertTriageComment owner repo number body w = (Ok done, w') ->
     done = action) /\
  (existsBefore = true <->
     exists c, In c comments /\
               Contains (Github.ic_Body c) Github.CommentMarker = true) /\
  (candidateEmpty = false ->
     HasPrefix normalizedBody Github.CommentMarker = true /\
     (Contains body Github.CommentMarker = false ->
      normalizedBody = Github.CommentMarker ++ [10%Z] ++ TrimSpace body)).
Proof.
  intros existing existsBefore normalizedBody candidateEmpty bodyEquivalent action.
  assert (Hrun : Github.UpsertTriageComment owner repo number body w =
    match action with
    | Github.CommentActionNoop => (Ok Github.CommentActionNoop, w1)
    | Github.CommentActionDeleted =>
        let (err, w2) :=
          Github.DeleteIssueComment owner repo (Github.ic_ID existing) w1 in
        (match err with
         | Some err => Err err
         | None => Ok Github.CommentActionDeleted
         end, w2)
    | Github.CommentActionUpdated =>
        let (r, w2) :=
          Github.UpdateIssueComment owner repo (Github.ic_ID existing)
            normalizedBody w1 in
        (match r with
         | Err err => Err err
         | Ok _ => Ok Github.CommentActionUpdated
         end, w2)
    | Github.CommentActionCreated =>
        let (r, w2) :=
          Github.CreateIssueComment owner repo number normalizedBody w1 in
        (match r with
         | Err err => Err err
         | Ok _ => Ok Github.CommentActionCreated
         end, w2)
    end).
  { unfold Github.UpsertTriageComment, bind, ret. rewrite Hlist.
    unfold action, Github.reconcile, candidateEmpty, bodyEquivalent,
      existsBefore, existing, normalizedBody.
    destruct (Github.FindTriageComment comments) as [ex found]. simpl fst. simpl snd.
    destruct (decide (TrimSpace body = [])) as [Hb|Hb].
    - rewrite (bool_decide_eq_true_2 _ Hb).
      rewrite (bool_decide_eq_true_2 _ (proj2 (normalizeCommentBody_blank body) Hb)).
      destruct found; simpl; [|reflexivity].
      destruct (Github.DeleteIssueComment owner repo (Github.ic_ID ex) w1) as [[e|] w2];
        reflexivity.
    - rewrite (bool_decide_eq_false_2 _ Hb).
      rewrite bool_decide_eq_false_2
        by (intros Hn; apply Hb, normalizeCommentBody_blank, Hn).
      destruct found; simpl.
      + case_bool_decide; [reflexivity|].
        destruct (Github.UpdateIssueComment owner repo (Github.ic_ID ex) _ w1)
          as [[c|e] w2]; reflexivity.
      + destruct (Github.CreateIssueComment owner repo number _ w1)
          as [[c|e] w2]; reflexivity. }
  split; [exact Hrun|]. split; [|split].
  - intros done w' Hdone. rewrite Hrun in Hdone. clear Hrun.
    destruct action.
    + injection Hdone as <- _. reflexivity.
    + destruct (Github.CreateIssueComment owner repo number normalizedBody w1)
        as [[c|e] w2]; [|discriminate]. injection Hdone as <- _. reflexivity.
    + destruct (Github.UpdateIssueComment owner repo (Github.ic_ID existing)
                  normalizedBody w1) as [[c|e] w2]; [|discriminate].
      injection Hdone as <- _. reflexivity.
    + destruct (Github.DeleteIssueComment owner repo (Github.ic_ID existing) w1)
        as [[e|] w2]; [discriminate|]. injection Hdone as <- _. reflexivity.
  - apply FindTriageComment_found.
  - intros Hne. apply normalizeCommentBody_marker.
    unfold candidateEmpty in Hne. apply bool_decide_eq_false in Hne. exact Hne.
Qed.

Lemma UpsertTriageComment_reconcile_witness :
  let upsert := @Github.UpsertTriageComment _ Github.memoryAPI in
  let existing :=
    [ {| Github.ic_ID := 10; Github.ic_Body := Github.CommentMarker ++ [10%Z] ++ str "old";
         Github.ic_Author := str "bot" |} ] in
  fst (upsert (str "acme") (str "repo") 1%Z (str "new") existing)
    = Ok Github.CommentActionUpdated /\
  map Github.ic_Body (snd (upsert (str "acme") (str "repo") 1%Z (str "new") existing))
    = [Github.CommentMarker ++ [10%Z] ++ str "new"].
Proof.
  intros upsert existing. unfold upsert.
  pose proof (@UpsertTriageComment_reconcile _ Github.memoryAPI
                (str "acme") (str "repo") 1%Z (str "new") existing existing
                existing eq_refl) as (Hrun & _).
  rewrite Hrun. vm_compute. split; reflexivity.
Defined.

(** The four outcomes on the in-memory platform. *)
Example reconcile_scenarios :
  let upsert := @Github.UpsertTriageComment _ Github.memoryAPI in
  let managed :=
    [ {| Github.ic_ID := 55; Github.ic_Body := Github.CommentMarker ++ [10%Z] ++ str "old";
         Github.ic_Author := [] |} ] in
  upsert (str "acme") (str "repo") 1%Z [] [] =
    (Ok Github.CommentActionNoop, []) /\
  upsert (str "acme") (str "repo") 1%Z [] managed =
    (Ok Github.CommentActionDeleted, []) /\
  upsert (str "acme") (str "repo") 1%Z (str "new") [] =
    (Ok Github.CommentActionCreated,
     [ {| Github.ic_ID := 1; Github.ic_Body := Github.CommentMarker ++ [10%Z] ++ str "new";
          Github.ic_Author := [] |} ]) /\
  upsert (str "acme") (str "repo") 1%Z
    (Github.CommentMarker ++ [10%Z] ++ str "old") managed =
    (Ok Github.CommentActionNoop, managed).
Proof. vm_compute. repeat split. Qed.

(** ** State transport (C9) *)

Lemma remoteURL_requires (m : Github.StateManager) :
  TrimSpace (Github.Token m) = [] \/ TrimSpace (Github.Owner m) = [] \/
  TrimSpace (Github.Repo m) = [] ->
  exists err, Github.remoteURL m = Err err.
Proof.
  intros Hmiss. unfold Github.remoteURL.
  case_bool_decide as Ht; [eauto|].
  case_bool_decide as Ho; [simpl; eauto|].
  case_bool_decide as Hr; [simpl; eauto|].
  exfalso. tauto.
Qed.

Lemma isMissingBranchError_examples `{UnicodeCase} :
  lower_ascii ->
  Github.isMissingBranchError
    (str "fatal: couldn't find remote ref triage-index") = true /\
  Github.isMissingBranchError
    (str "fatal: ambiguous argument: unknown revision or path") = true /\
  Github.isMissingBranchError (str "fatal: Authentication failed") = false.
Proof.
  intros Hlow. unfold Github.isMissingBranchError.
  rewrite !(ToLower_ascii _ Hlow);
    vm_compute; repeat constructor; discriminate.
Qed.

(** C9. [Pull] answers [(false, nil)] when the fetch of the index branch
    fails and its output or error text names a missing remote ref or an
    unknown revision; and with a blank token, owner or repository it
    fails at once, the world untouched: no command has run. *)
Theorem Pull_first_run {W : Type} `{Github.CommandRunner W} `{Github.FileSystem W}
    `{UnicodeCase} (m : Github.StateManager) (dstPath : list Z) (w : W) :
  (TrimSpace (Github.Token m) = [] \/ TrimSpace (Github.Owner m) = [] \/
   TrimSpace (Github.Repo m) = [] ->
     exists err, Github.Pull m dstPath w = ((false, Some err), w)) /\
  (forall url tmpDir w1 out1 w2 out2 w3 out err w4,
     Github.remoteURL m = Ok url ->
     TrimSpace dstPath <> [] ->
     Github.MkdirTemp (str "triage-state-pull-*") w = (Ok tmpDir, w1) ->
     Github.Run tmpDir (str "git") [str "init"] w1 = ((out1, None), w2) ->
     Github.Run tmpDir (str "git")
       [str "remote"; str "add"; str "origin"; url] w2 = ((out2, None), w3) ->
     Github.Run tmpDir (str "git")
       [str "fetch"; str "origin"; Github.branchName m; str "--depth=1"] w3
       = ((out, Some err), w4) ->
     Github.isMissingBranchError out || Github.isMissingBranchError err = true ->
     fst (Github.Pull m dstPath w) = (false, None)).
Proof.
  split.
  - intros Hmiss. destruct (remoteURL_requires m Hmiss) as [err Herr].
    exists err. unfold Github.Pull. rewrite Herr. reflexivity.
  - intros url tmpDir w1 out1 w2 out2 w3 out err w4
      Hurl Hdst Htmp Hinit Hremote Hfetch Hmissing.
    unfold Github.Pull. rewrite Hurl, (bool_decide_eq_false_2 _ Hdst).
    unfold bind at 1. rewrite Htmp.
    unfold bind at 1. unfold Github.pullInto.
    unfold bind at 1. rewrite Hinit. cbn [snd].
    unfold bind at 1. rewrite Hremote. cbn [snd].
    unfold bind at 1. rewrite Hfetch. rewrite Hmissing.
    unfold ret at 1. unfold bind.
    destruct (Github.RemoveAll tmpDir w4). reflexivity.
Qed.

Lemma Pull_first_run_witness :
  let manager :=
    {| Github.Owner := str "acme"; Github.Repo := str "repo";
       Github.Token := str "tkn"; Github.Branch := str "triage-index" |} in
  let run :=
    @Github.Pull _ Github.firstRunRunner Github.fakeFileSystem ascii_ToLower
      manager (str "/work/index.db") Github.emptyWorld in
  fst run = (false, None) /\
  map (fun cmd => nth 1 cmd []) (Github.commands (snd run))
    = [str "init"; str "remote"; str "fetch"].
Proof.
  intros manager run. split; [|vm_compute; reflexivity].
  pose proof (@Pull_first_run _ Github.firstRunRunner Github.fakeFileSystem
                ascii_ToLower manager (str "/work/index.db") Github.emptyWorld)
    as [_ Hfirst].
  eapply Hfirst.
  - vm_compute. reflexivity.
  - vm_compute. discriminate.
  - reflexivity.
  - reflexivity.
  - reflexivity.
  - reflexivity.
  - vm_compute. reflexivity.
Defined.

(** With a blank token not one command reaches the runner. *)
Example Pull_without_token :
  let manager :=
    {| Github.Owner := str "acme"; Github.Repo := str "repo";
       Github.Token := str "  "; Github.Branch := [] |} in
  @Github.Pull _ Github.firstRunRunner Github.fakeFileSystem ascii_ToLower
    manager (str "/work/index.db") Github.emptyWorld
  = ((false, Some (str "token is required for state manager")), Github.emptyWorld).
Proof. vm_compute. reflexivity. Qed.

(** ** The pipeline on an edited issue *)

Example Handle_edited_issue :
  fst (@Engine.Handle unit ascii_ToLower (Some Engine.leakyEngine)
         Engine.editedIssue tt) = None.
Proof. vm_compute. reflexivity. Qed.

(* ===================================================================== *)
(** * Part III: further properties *)
(* ===================================================================== *)

(** ** Trimming twice *)

Lemma TrimLeftSpace_idem (s : list Z) :
  TrimLeftSpace (TrimLeftSpace s) = TrimLeftSpace s.
Proof.
  induction s as [|c s IH]; [reflexivity|].
  simpl. destruct (isSpace c) eqn:E; [exact IH|]. simpl. rewrite E. reflexivity.
Qed.

Lemma TrimRightSpace_idem (s : list Z) :
  TrimRightSpace (TrimRightSpace s) = TrimRightSpace s.
Proof.
  unfold TrimRightSpace. rewrite rev_involutive, TrimLeftSpace_idem. reflexivity.
Qed.

Lemma TrimSpace_idem (s : list Z) : TrimSpace (TrimSpace s) = TrimSpace s.
Proof.
  unfold TrimSpace.
  assert (Hl : TrimLeftSpace (TrimRightSpace (TrimLeftSpace s)) =
               TrimRightSpace (TrimLeftSpace s)).
  { destruct (TrimLeftSpace s) as [|c t] eqn:E; [reflexivity|].
    pose proof (TrimLeftSpace_head _ _ _ E) as Hc.
    destruct (TrimRightSpace_head c t Hc) as [t' Ht'].
    rewrite Ht'. simpl. rewrite Hc. reflexivity. }
  rewrite Hl. apply TrimRightSpace_idem.
Qed.

Lemma TrimSpace_nil : TrimSpace [] = [].
Proof. reflexivity. Qed.

(** ** Truncation *)

Lemma truncate_firstn (text : list Z) (maxChars : Z) :
  Ingest.TruncateDiff text maxChars = firstn (Z.to_nat maxChars) text /\
  Embed.truncateForEmbedding text maxChars = firstn (Z.to_nat maxChars) text.
Proof.
  unfold Ingest.TruncateDiff, Embed.truncateForEmbedding.
  destruct (Z.leb_spec maxChars 0) as [H0|H0].
  - replace (Z.to_nat maxChars) with 0%nat by lia. split; reflexivity.
  - destruct (Z.leb_spec (Z.of_nat (length text)) maxChars) as [Hle|Hgt].
    + rewrite firstn_all2 by lia. split; reflexivity.
    + split; reflexivity.
Qed.

(** X1. [TruncateDiff] and [truncateForEmbedding] keep the first
    [maxChars] code points and nothing else: the result is a prefix of
    the text, its length is the smaller of the length of the text and
    [maxChars] (zero for a limit that is not positive), a text within
    the limit is returned as it is, and truncating twice changes
    nothing. *)
Theorem truncation_is_prefix (text : list Z) (maxChars : Z) :
  let diff := Ingest.TruncateDiff text maxChars in
  let input := Embed.truncateForEmbedding text maxChars in
  input = diff /\
  (exists rest, text = diff ++ rest) /\
  Z.of_nat (length diff) = Z.min (Z.of_nat (length text)) (Z.max 0 maxChars) /\
  ((Z.of_nat (length text) <= maxChars)%Z -> diff = text) /\
  Ingest.TruncateDiff diff maxChars = diff.
Proof.
  cbv zeta.
  destruct (truncate_firstn text maxChars) as [Hd He].
  rewrite He, Hd. split; [reflexivity|].
  split; [exists (skipn (Z.to_nat maxChars) text); symmetry; apply firstn_skipn|].
  split; [rewrite length_firstn; lia|].
  split; [intros Hle; apply firstn_all2; lia|].
  destruct (truncate_firstn (firstn (Z.to_nat maxChars) text) maxChars) as [Hd' _].
  rewrite Hd'. rewrite firstn_firstn. f_equal. lia.
Qed.

(** ** File lists *)

Lemma normalizeFiles_filter (files : list (list Z)) :
  Ingest.normalizeFiles files =
  List.filter (fun f => negb (bool_decide (f = []))) (map TrimSpace files).
Proof.
  induction files as [|f files IH]; [reflexivity|].
  simpl. case_bool_decide; simpl; rewrite IH; reflexivity.
Qed.

Lemma normalizeFilePaths_normalizeFiles (paths : list (list Z)) :
  Github.normalizeFilePaths paths = Ingest.normalizeFiles paths.
Proof.
  induction paths as [|p paths IH]; [reflexivity|].
  simpl. rewrite IH. reflexivity.
Qed.

Lemma normalizeFiles_fixed (files : list (list Z)) :
  Forall (fun f => f <> [] /\ TrimSpace f = f) files ->
  Ingest.normalizeFiles files = files.
Proof.
  induction 1 as [|f files [Hne Htrim] _ IH]; [reflexivity|].
  simpl. rewrite Htrim. case_bool_decide; [contradiction|]. rewrite IH. reflexivity.
Qed.

Lemma normalizeFiles_trimmed (files : list (list Z)) :
  Forall (fun f => f <> [] /\ TrimSpace f = f) (Ingest.normalizeFiles files).
Proof.
  induction files as [|f files IH]; [constructor|].
  simpl. case_bool_decide as Hf; [exact IH|].
  constructor; [|exact IH]. split; [exact Hf|apply TrimSpace_idem].
Qed.

(** X2. [normalizeFiles] and [normalizeFilePaths] are the same function:
    every path is trimmed and the blank ones are dropped, in order.  So
    each path of the result is non-empty and already trimmed, and the
    list that the event parser has normalized passes through the
    normalization of [BuildPRContent] unchanged. *)
Theorem normalizeFiles_once (paths : list (list Z)) :
  Github.normalizeFilePaths paths = Ingest.normalizeFiles paths /\
  Ingest.normalizeFiles paths =
    List.filter (fun f => negb (bool_decide (f = []))) (map TrimSpace paths) /\
  Forall (fun f => f <> [] /\ TrimSpace f = f) (Ingest.normalizeFiles paths) /\
  Ingest.normalizeFiles (Github.normalizeFilePaths paths) =
    Github.normalizeFilePaths paths.
Proof.
  split; [apply normalizeFilePaths_normalizeFiles|].
  split; [apply normalizeFiles_filter|].
  split; [apply normalizeFiles_trimmed|].
  apply normalizeFiles_fixed.
  change (Github.normalizeFilePaths paths) with (Ingest.normalizeFiles paths).
  apply normalizeFiles_trimmed.
Qed.

(** ** When there is nothing to embed *)

Lemma TrimSpace_literal_app (c : Z) (lit rest : list Z) :
  isSpace c = false -> TrimSpace ((c :: lit) ++ rest) <> [].
Proof. intros Hc. simpl. apply TrimSpace_nonblank, Hc. Qed.

Lemma BuildIssueContent_blank (title body : list Z) :
  TrimSpace (Ingest.BuildIssueContent title body) = [] <->
  TrimSpace title = [] /\ TrimSpace body = [].
Proof.
  unfold Ingest.BuildIssueContent.
  repeat case_bool_decide; simpl negb; cbv beta iota; simpl andb; cbv iota.
  - split; [auto|reflexivity].
  - split; [intros Hb|intros [_ Hb]; contradiction].
    exfalso. revert Hb. apply TrimSpace_TrimSpace_nonblank. assumption.
  - split; [intros Hb|intros [Ht _]; contradiction].
    exfalso. revert Hb. apply (TrimSpace_literal_app 73). reflexivity.
  - split; [intros Hb|intros [Ht _]; contradiction].
    exfalso. revert Hb. apply (TrimSpace_literal_app 73). reflexivity.
Qed.

Lemma Join_cons_head (c : Z) (p : list Z) (rest : list (list Z)) (sep : list Z) :
  exists t, Join ((c :: p) :: rest) sep = c :: t.
Proof. destruct rest; simpl; eauto. Qed.

Lemma BuildPRContent_blank (i : Ingest.PRInput) :
  TrimSpace (Ingest.BuildPRContent i) = [] <->
  TrimSpace (Ingest.Title i) = [] /\ TrimSpace (Ingest.Body i) = [].
Proof.
  unfold Ingest.BuildPRContent.
  generalize (Ingest.TruncateDiff (TrimSpace (Ingest.Diff i)) Ingest.MaxDiffChars).
  intros d.
  destruct (bool_decide (TrimSpace (Ingest.Title i) = [])) eqn:Et;
    destruct (bool_decide (TrimSpace (Ingest.Body i) = [])) eqn:Eb;
    [apply bool_decide_eq_true in Et|apply bool_decide_eq_true in Et
    |apply bool_decide_eq_false in Et|apply bool_decide_eq_false in Et];
    [apply bool_decide_eq_true in Eb|apply bool_decide_eq_false in Eb
    |apply bool_decide_eq_true in Eb|apply bool_decide_eq_false in Eb];
    simpl andb; cbv iota.
  - split; [auto|reflexivity].
  - split; [intros Hb|intros [_ Hb]; contradiction].
    exfalso. revert Hb. apply TrimSpace_TrimSpace_nonblank. assumption.
  - split; [intros Hb|intros [Ht _]; contradiction].
    exfalso. revert Hb. apply (TrimSpace_literal_app 80). reflexivity.
  - split; [intros Hb|intros [Ht _]; contradiction].
    exfalso. revert Hb.
    match goal with
    | |- TrimSpace (Join ?parts _) = [] -> False =>
        assert (Hparts : exists rest,
                  parts = (80%Z :: (str "R: " ++ TrimSpace (Ingest.Title i))) :: rest)
    end.
    { destruct (negb (Ingest.Mode i =? Ingest.PRDiffModeTitleBodyOnly)%Z);
        [destruct (0 <? length (Ingest.normalizeFiles (Ingest.Files i)))%nat|];
        destruct (Ingest.Mode i =? Ingest.PRDiffModeInclude)%Z;
        try destruct (negb (bool_decide (TrimSpace (Ingest.Diff i) = [])));
        cbn [app]; eauto. }
    destruct Hparts as [rest ->].
    destruct (Join_cons_head 80 (str "R: " ++ TrimSpace (Ingest.Title i)) rest
                Ingest.blank_line) as [t ->].
    apply TrimSpace_nonblank. reflexivity.
Qed.

(** X3. The text handed to the embedder is blank exactly when the title
    and the body of the event are both blank: for an issue and for a
    pull request, whatever its files and diff.  An event of any other
    type has no text at all. *)
Theorem buildEmbeddableContent_blank (event : Engine.Event) :
  (Engine.ev_Type event = str "issue" \/ Engine.ev_Type event = str "pr" ->
     (TrimSpace (Engine.buildEmbeddableContent event) = [] <->
      TrimSpace (Engine.ev_Title event) = [] /\
      TrimSpace (Engine.ev_Body event) = [])) /\
  (Engine.ev_Type event <> str "issue" -> Engine.ev_Type event <> str "pr" ->
     Engine.buildEmbeddableContent event = []).
Proof.
  unfold Engine.buildEmbeddableContent. split.
  - intros [Hty|Hty].
    + destruct (bool_decide (Engine.ev_Type event = str "issue")) eqn:E.
      * apply BuildIssueContent_blank.
      * apply bool_decide_eq_false in E. contradiction.
    + destruct (bool_decide (Engine.ev_Type event = str "issue")) eqn:E.
      * apply bool_decide_eq_true in E. rewrite Hty in E. discriminate E.
      * destruct (bool_decide (Engine.ev_Type event = str "pr")) eqn:E'.
        -- apply BuildPRContent_blank.
        -- apply bool_decide_eq_false in E'. contradiction.
  - intros H1 H2.
    destruct (bool_decide (Engine.ev_Type event = str "issue")) eqn:E;
      [apply bool_decide_eq_true in E; contradiction|].
    destruct (bool_decide (Engine.ev_Type event = str "pr")) eqn:E';
      [apply bool_decide_eq_true in E'; contradiction|].
    reflexivity.
Qed.

Lemma buildEmbeddableContent_blank_witness :
  TrimSpace (Engine.buildEmbeddableContent Engine.blankIssue) = [] <->
  TrimSpace (Engine.ev_Title Engine.blankIssue) = [] /\
  TrimSpace (Engine.ev_Body Engine.blankIssue) = [].
Proof.
  apply (proj1 (buildEmbeddableContent_blank Engine.blankIssue)).
  left. reflexivity.
Defined.

(** ** What the fusion accumulates for one id *)

Lemma getOrCreateAccumulator_lookup (acc acc' : gmap (list Z) Store.fusedAccumulator)
    (id : list Z) :
  acc !! id = acc' !! id ->
  Store.getOrCreateAccumulator acc id = Store.getOrCreateAccumulator acc' id.
Proof. unfold Store.getOrCreateAccumulator. intros ->. reflexivity. Qed.

Lemma fuseVec_lookup (excludeID id : list Z) (items : list Store.VectorResult) :
  forall rank vecSeen acc,
    Store.fuseVec excludeID rank items vecSeen acc !! id =
      if bool_decide (id = []) || bool_decide (id = excludeID)
         || bool_decide (id ∈ vecSeen)
      then acc !! id
      else
        match Store.firstAt Store.vec_ID id rank items with
        | None => acc !! id
        | Some (k, item) =>
            Some (Store.addVec
                    (Store.mergeMetadata (Store.getOrCreateAccumulator acc id)
                       (Store.vec_Type item) (Store.vec_Number item)
                       (Store.vec_Title item) (Store.vec_State item)
                       (Store.vec_URL item))
                    (Store.vec_VecScore item) k)
        end.
Proof.
  induction items as [|item rest IH]; intros rank vecSeen acc.
  - simpl. destruct (_ || _); reflexivity.
  - cbn [Store.fuseVec Store.firstAt].
    destruct (bool_decide (Store.vec_ID item = []) ||
              bool_decide (Store.vec_ID item = excludeID)) eqn:Eskip.
    { rewrite IH.
      destruct (bool_decide (Store.vec_ID item = id)) eqn:Eid; [|reflexivity].
      apply bool_decide_eq_true in Eid. subst id. rewrite Eskip. reflexivity. }
    destruct (bool_decide (Store.vec_ID item ∈ vecSeen)) eqn:Eseen.
    { rewrite IH.
      destruct (bool_decide (Store.vec_ID item = id)) eqn:Eid; [|reflexivity].
      apply bool_decide_eq_true in Eid. subst id. rewrite Eseen, orb_true_r.
      reflexivity. }
    cbv zeta. rewrite IH.
    destruct (bool_decide (Store.vec_ID item = id)) eqn:Eid.
    + apply bool_decide_eq_true in Eid. subst id.
      rewrite Eskip, Eseen. cbn [orb].
      rewrite (bool_decide_eq_true_2 (Store.vec_ID item ∈ _)) by (apply elem_of_union_l, elem_of_singleton; reflexivity).
      rewrite lookup_insert_eq. reflexivity.
    + apply bool_decide_eq_false in Eid.
      rewrite lookup_insert_ne by exact Eid.
      assert (Hseen : bool_decide (id ∈ {[Store.vec_ID item]} ∪ vecSeen) =
                      bool_decide (id ∈ vecSeen)).
      { apply bool_decide_ext. rewrite elem_of_union, elem_of_singleton.
        intuition congruence. }
      rewrite Hseen.
      rewrite (getOrCreateAccumulator_lookup (<[Store.vec_ID item:=_]> acc) acc id)
        by (apply lookup_insert_ne; exact Eid).
      reflexivity.
Qed.

Lemma fuseFTS_lookup (excludeID id : list Z) (items : list Store.FTSResult) :
  forall rank ftsSeen acc,
    Store.fuseFTS excludeID rank items ftsSeen acc !! id =
      if bool_decide (id = []) || bool_decide (id = excludeID)
         || bool_decide (id ∈ ftsSeen)
      then acc !! id
      else
        match Store.firstAt Store.fts_ID id rank items with
        | None => acc !! id
        | Some (k, item) =>
            Some (Store.addFTS
                    (Store.mergeMetadata (Store.getOrCreateAccumulator acc id)
                       (Store.fts_Type item) (Store.fts_Number item)
                       (Store.fts_Title item) (Store.fts_State item)
                       (Store.fts_URL item))
                    (Store.fts_FTSScore item) k)
        end.
Proof.
  induction items as [|item rest IH]; intros rank ftsSeen acc.
  - simpl. destruct (_ || _); reflexivity.
  - cbn [Store.fuseFTS Store.firstAt].
    destruct (bool_decide (Store.fts_ID item = []) ||
              bool_decide (Store.fts_ID item = excludeID)) eqn:Eskip.
    { rewrite IH.
      destruct (bool_decide (Store.fts_ID item = id)) eqn:Eid; [|reflexivity].
      apply bool_decide_eq_true in Eid. subst id. rewrite Eskip. reflexivity. }
    destruct (bool_decide (Store.fts_ID item ∈ ftsSeen)) eqn:Eseen.
    { rewrite IH.
      destruct (bool_decide (Store.fts_ID item = id)) eqn:Eid; [|reflexivity].
      apply bool_decide_eq_true in Eid. subst id. rewrite Eseen, orb_true_r.
      reflexivity. }
    cbv zeta. rewrite IH.
    destruct (bool_decide (Store.fts_ID item = id)) eqn:Eid.
    + apply bool_decide_eq_true in Eid. subst id.
      rewrite Eskip, Eseen. cbn [orb].
      rewrite (bool_decide_eq_true_2 (Store.fts_ID item ∈ _)) by (apply elem_of_union_l, elem_of_singleton; reflexivity).
      rewrite lookup_insert_eq. reflexivity.
    + apply bool_decide_eq_false in Eid.
      rewrite lookup_insert_ne by exact Eid.
      assert (Hseen : bool_decide (id ∈ {[Store.fts_ID item]} ∪ ftsSeen) =
                      bool_decide (id ∈ ftsSeen)).
      { apply bool_decide_ext. rewrite elem_of_union, elem_of_singleton.
        intuition congruence. }
      rewrite Hseen.
      rewrite (getOrCreateAccumulator_lookup (<[Store.fts_ID item:=_]> acc) acc id)
        by (apply lookup_insert_ne; exact Eid).
      reflexivity.
Qed.

Lemma firstAt_rank {A} (key : A -> list Z) (id : list Z) (items : list A) :
  forall rank k item,
    Store.firstAt key id rank items = Some (k, item) ->
    (rank <= k)%Z /\ In item items /\ key item = id.
Proof.
  induction items as [|x rest IH]; intros rank k item; [discriminate|].
  cbn [Store.firstAt]. case_bool_decide as Hx.
  - intros [= <- <-]. split; [lia|]. split; [left; reflexivity|exact Hx].
  - intros Hf. apply IH in Hf as (Hle & Hin & Hk).
    split; [lia|]. split; [right; exact Hin|exact Hk].
Qed.

Lemma firstAt_None {A} (key : A -> list Z) (id : list Z) (items : list A) :
  forall rank, Store.firstAt key id rank items = None <-> ~ In id (map key items).
Proof.
  induction items as [|x rest IH]; intros rank; cbn [Store.firstAt map].
  - split; [intros _ []|reflexivity].
  - case_bool_decide as Hx.
    + split; [discriminate|]. intros Hn. exfalso. apply Hn. left. exact Hx.
    + rewrite IH. split.
      * intros Hn [Hin|Hin]; [contradiction|]. apply Hn, Hin.
      * intros Hn Hin. apply Hn. right. exact Hin.
Qed.

Lemma rrfTerm_range (k : Z) :
  (0 <= k)%Z -> (0 < Store.rrfTerm k)%Q /\ (Store.rrfTerm k <= 1 # 61)%Q.
Proof.
  intros Hk. unfold Store.rrfTerm, Store.rrfK.
  destruct (60 + k + 1)%Z as [|p|p] eqn:E; try lia.
  unfold Qdiv, Qinv, Qlt, Qle. cbn [inject_Z Qnum Qden Qmult].
  split; lia.
Qed.

Lemma maxFloat_zero_clamp01 (v : Q) :
  Store.maxFloat 0 (Store.clamp01 v) = Store.clamp01 v.
Proof.
  unfold Store.maxFloat.
  destruct (Store.Qltb (Store.clamp01 v) 0) eqn:E; [|reflexivity].
  apply Qltb_lt in E. pose proof (clamp01_range v). lra.
Qed.

(** The entry of one id after both loops. *)
Lemma accumulate_entry (vecResults : list Store.VectorResult)
    (ftsResults : list Store.FTSResult) (excludeID id : list Z)
    (item : Store.fusedAccumulator) :
  Store.accumulate vecResults ftsResults excludeID !! id = Some item ->
  (Store.acc_RRFScore item ==
     Store.rrfShare Store.vec_ID id vecResults +
     Store.rrfShare Store.fts_ID id ftsResults)%Q /\
  Store.acc_VecScore item =
    Store.scoreShare Store.vec_ID Store.vec_VecScore id vecResults /\
  Store.acc_FTSScore item =
    Store.scoreShare Store.fts_ID Store.fts_FTSScore id ftsResults /\
  (In id (map Store.vec_ID vecResults) \/ In id (map Store.fts_ID ftsResults)).
Proof.
  unfold Store.accumulate. rewrite fuseFTS_lookup, fuseVec_lookup.
  rewrite (bool_decide_eq_false_2 (id ∈ (∅ : gset (list Z))))
    by apply not_elem_of_empty.
  rewrite orb_false_r.
  unfold Store.rrfShare, Store.scoreShare, Store.getOrCreateAccumulator.
  rewrite fuseVec_lookup.
  rewrite (bool_decide_eq_false_2 (id ∈ (∅ : gset (list Z))))
    by apply not_elem_of_empty.
  rewrite orb_false_r.
  destruct (bool_decide (id = []) || bool_decide (id = excludeID));
    [rewrite lookup_empty; discriminate|].
  rewrite lookup_empty.
  destruct (Store.firstAt Store.vec_ID id 0 vecResults) as [[kv v]|] eqn:Ev;
    destruct (Store.firstAt Store.fts_ID id 0 ftsResults) as [[kf f]|] eqn:Ef;
    try discriminate; intros [= <-];
    unfold Store.getOrCreateAccumulator; rewrite ?lookup_empty;
    cbn -[Store.rrfTerm Store.clamp01 Store.maxFloat].
  - split; [lra|]. split; [apply maxFloat_zero_clamp01|].
    split; [apply maxFloat_zero_clamp01|].
    left. apply firstAt_rank in Ev as (_ & Hin & <-). apply in_map, Hin.
  - split; [lra|]. split; [apply maxFloat_zero_clamp01|].
    split; [reflexivity|].
    left. apply firstAt_rank in Ev as (_ & Hin & <-). apply in_map, Hin.
  - split; [lra|]. split; [reflexivity|].
    split; [apply maxFloat_zero_clamp01|].
    right. apply firstAt_rank in Ef as (_ & Hin & <-). apply in_map, Hin.
Qed.

Lemma toFused_fields (cfg : Store.FuseConfig) (item : Store.fusedAccumulator)
    (r : Store.FusedResult) :
  Store.toFused cfg item = Some r ->
  Store.fused_RRFScore r = Store.acc_RRFScore item /\
  Store.fused_VecScore r = Store.acc_VecScore item /\
  Store.fused_FTSScore r = Store.acc_FTSScore item /\
  Store.fused_DisplaySimilarity r =
    Store.maxFloat (Store.acc_VecScore item) (Store.acc_FTSScore item).
Proof.
  unfold Store.toFused. destruct (Store.Qltb _ _); [discriminate|].
  intros [= <-]. repeat split; reflexivity.
Qed.

(** X4. The scores of a fused result come from the first entry of its id
    in each list and from nothing else: the RRF score is the sum of
    [1/(60+rank+1)] over the lists that name the id, with the rank of
    the first entry; the vector and text scores are the clamped scores
    of those first entries, zero for a list that does not name the id.
    Later entries of the same id in a list add nothing. *)
Theorem FuseResults_first_entry_scores (vecResults : list Store.VectorResult)
    (ftsResults : list Store.FTSResult) (excludeID : list Z)
    (config : Store.FuseConfig) :
  Forall (fun r =>
    let id := Store.fused_ID r in
    (Store.fused_RRFScore r ==
       Store.rrfShare Store.vec_ID id vecResults +
       Store.rrfShare Store.fts_ID id ftsResults)%Q /\
    Store.fused_VecScore r =
      Store.scoreShare Store.vec_ID Store.vec_VecScore id vecResults /\
    Store.fused_FTSScore r =
      Store.scoreShare Store.fts_ID Store.fts_FTSScore id ftsResults /\
    (In id (map Store.vec_ID vecResults) \/ In id (map Store.fts_ID ftsResults)))
    (Store.FuseResults vecResults ftsResults excludeID config).
Proof.
  apply List.Forall_forall. intros r Hr.
  apply FuseResults_In in Hr as (item & Hitem & Hfused).
  apply toFused_fields in Hfused as (-> & -> & -> & _).
  cbv zeta. apply (accumulate_entry _ _ excludeID), Hitem.
Qed.

Lemma rrfShare_range {A} (key : A -> list Z) (id : list Z) (items : list A) :
  (0 <= Store.rrfShare key id items <= 1 # 61)%Q /\
  (In id (map key items) -> 0 < Store.rrfShare key id items)%Q.
Proof.
  unfold Store.rrfShare.
  destruct (Store.firstAt key id 0 items) as [[k item]|] eqn:E.
  - apply firstAt_rank in E as (Hk & _ & _).
    destruct (rrfTerm_range k Hk) as [Hpos Hle].
    split; [split; [lra|exact Hle]|intros _; exact Hpos].
  - split; [split; [lra|unfold Qle; simpl; lia]|].
    intros Hin. apply firstAt_None in E. contradiction.
Qed.

Lemma scoreShare_range {A} (key : A -> list Z) (score : A -> Q) (id : list Z)
    (items : list A) :
  (0 <= Store.scoreShare key score id items <= 1)%Q.
Proof.
  unfold Store.scoreShare.
  destruct (Store.firstAt key id 0 items) as [[k item]|].
  - apply clamp01_range.
  - split; [lra|unfold Qle; simpl; lia].
Qed.

(** X5. Every result of [FuseResults] is well formed: its vector score,
    text score and display similarity lie in [0, 1], its RRF score is
    positive and at most 2/61, its id is not blank, and no id is
    returned twice. *)
Theorem FuseResults_well_formed (vecResults : list Store.VectorResult)
    (ftsResults : list Store.FTSResult) (excludeID : list Z)
    (config : Store.FuseConfig) :
  let out := Store.FuseResults vecResults ftsResults excludeID config in
  Forall (fun r =>
    (0 <= Store.fused_VecScore r <= 1)%Q /\
    (0 <= Store.fused_FTSScore r <= 1)%Q /\
    (0 <= Store.fused_DisplaySimilarity r <= 1)%Q /\
    (0 < Store.fused_RRFScore r)%Q /\ (Store.fused_RRFScore r <= 2 # 61)%Q /\
    Store.fused_ID r <> []) out /\
  List.NoDup (map Store.fused_ID out).
Proof.
  cbv zeta. split; [|apply FuseResults_ids_NoDup].
  apply List.Forall_forall. intros r Hr.
  apply FuseResults_In in Hr as (item & Hitem & Hfused).
  pose proof (accumulate_ok vecResults ftsResults excludeID _ _ Hitem)
    as (_ & _ & Hblank).
  apply (accumulate_entry _ _ excludeID) in Hitem as (Hrrf & Hvec & Hfts & Hin).
  apply toFused_fields in Hfused as (-> & -> & -> & ->).
  pose proof (scoreShare_range Store.vec_ID Store.vec_VecScore
                (Store.fused_ID r) vecResults) as Hv.
  pose proof (scoreShare_range Store.fts_ID Store.fts_FTSScore
                (Store.fused_ID r) ftsResults) as Hf.
  rewrite <- Hvec in Hv. rewrite <- Hfts in Hf.
  destruct (rrfShare_range Store.vec_ID (Store.fused_ID r) vecResults) as [Hrv Hpv].
  destruct (rrfShare_range Store.fts_ID (Store.fused_ID r) ftsResults) as [Hrf Hpf].
  split; [exact Hv|]. split; [exact Hf|].
  split.
  { destruct (maxFloat_spec (Store.acc_VecScore item) (Store.acc_FTSScore item))
      as (_ & _ & [-> | ->]); assumption. }
  split.
  { rewrite Hrrf. destruct Hin as [Hin|Hin]; [apply Hpv in Hin|apply Hpf in Hin]; lra. }
  split; [|exact Hblank].
  rewrite Hrrf. lra.
Qed.

(** X6. The list returned by [FuseResults] does not depend on the order
    in which the accumulator map is ranged over, nor on how the sort
    breaks ties: ranking the entries taken in any order, with any
    arrangement that respects the ranking order, and cutting at the
    limit gives the same list. *)
Theorem FuseResults_iteration_order (vecResults : list Store.VectorResult)
    (ftsResults : list Store.FTSResult) (excludeID : list Z)
    (config : Store.FuseConfig)
    (entries : list Store.fusedAccumulator) (sorted : list Store.FusedResult) :
  Permutation
    (map snd (map_to_list (Store.accumulate vecResults ftsResults excludeID)))
    entries ->
  Permutation (omap (Store.toFused (Store.normalized config)) entries) sorted ->
  StronglySorted Store.rankedBefore sorted ->
  Store.truncateTo (Store.MaxResults (Store.normalized config)) sorted =
  Store.FuseResults vecResults ftsResults excludeID config.
Proof.
  intros Hentries Hperm Hsorted.
  rewrite <- (FuseResults_deterministic _ _ _ _ entries Hentries).
  unfold Store.rankEntries. f_equal.
  apply sortSlice_unique; [exact Hperm| |exact Hsorted].
  apply omap_toFused_IDs.
  eapply Permutation_NoDup; [apply Permutation_map, Hentries|].
  apply accumulate_entries_NoDup.
Qed.

Lemma FuseResults_iteration_order_witness :
  let vecResults := [Store.vecOf (str "issue/A") 1 0.90; Store.vecOf (str "issue/B") 2 0.89] in
  let ftsResults := [Store.ftsOf (str "issue/B") 2 0.70] in
  let config := {| Store.SimilarityThreshold := 0.50; Store.DuplicateThreshold := 0.95;
                   Store.MaxResults := 10 |} in
  let entries := rev (map snd (map_to_list (Store.accumulate vecResults ftsResults []))) in
  Store.truncateTo (Store.MaxResults (Store.normalized config))
    (Store.sortSlice Store.fusedLess
       (omap (Store.toFused (Store.normalized config)) entries)) =
  Store.FuseResults vecResults ftsResults [] config.
Proof.
  cbv zeta.
  apply (FuseResults_iteration_order _ _ _ _
           (rev (map snd (map_to_list (Store.accumulate
              [Store.vecOf (str "issue/A") 1 0.90; Store.vecOf (str "issue/B") 2 0.89]
              [Store.ftsOf (str "issue/B") 2 0.70] []))))).
  - apply Permutation_rev.
  - apply sortSlice_perm.
  - apply sortSlice_fused_sorted.
Defined.

Lemma clamp01_idem (v : Q) : Store.clamp01 (Store.clamp01 v) = Store.clamp01 v.
Proof. apply clamp01_id, clamp01_range. Qed.

(** X7. Normalizing a fusion configuration is idempotent, so
    [FuseResults] gives the same list for a configuration and for its
    normalized form; the normalized thresholds lie in [0, 1] and the
    normalized limit is at least one. *)
Theorem normalized_idempotent (c : Store.FuseConfig) :
  Store.normalized (Store.normalized c) = Store.normalized c /\
  (0 <= Store.SimilarityThreshold (Store.normalized c) <= 1)%Q /\
  (0 <= Store.DuplicateThreshold (Store.normalized c) <= 1)%Q /\
  (1 <= Store.MaxResults (Store.normalized c))%Z /\
  (forall vecResults ftsResults excludeID,
     Store.FuseResults vecResults ftsResults excludeID (Store.normalized c) =
     Store.FuseResults vecResults ftsResults excludeID c).
Proof.
  assert (Hidem : Store.normalized (Store.normalized c) = Store.normalized c).
  { unfold Store.normalized at 2 3.
    destruct (Store.is_zero_config c) eqn:Ez; [reflexivity|].
    unfold Store.normalized, Store.is_zero_config.
    cbn [Store.SimilarityThreshold Store.DuplicateThreshold Store.MaxResults].
    assert (Hm : ((if (Store.MaxResults c <=? 0)%Z then Store.defaultMaxResults
                   else Store.MaxResults c) =? 0)%Z = false).
    { unfold Store.defaultMaxResults.
      destruct (Z.leb_spec (Store.MaxResults c) 0); lia. }
    rewrite Hm, andb_false_r. rewrite !clamp01_idem.
    f_equal. unfold Store.defaultMaxResults.
    destruct (Z.leb_spec (Store.MaxResults c) 0) as [H0|H0]; [reflexivity|].
    destruct (Z.leb_spec (Store.MaxResults c) 0); [lia|reflexivity]. }
  split; [exact Hidem|].
  destruct (normalized_thresholds_range c) as [Hs Hd].
  split; [exact Hs|]. split; [exact Hd|].
  split; [pose proof (normalized_MaxResults_pos c); lia|].
  intros vecResults ftsResults excludeID.
  unfold Store.FuseResults. rewrite Hidem. reflexivity.
Qed.

(** ** Migrations on any database *)

Section MigrationsAnyDatabase.
Context `{Store.Sqlite} `{UnicodeCase}.
Hypothesis no_fault : Store.fault = None.
Hypothesis lower_ok : lower_ascii.

Lemma withObjects_trans (a b : gmap (list Z) Store.objKind) (db1 db2 db3 : Store.DB) :
  Store.withObjects a db1 db2 -> Store.withObjects b db2 db3 ->
  Store.withObjects (a ∪ b) db1 db3.
Proof.
  intros (Hs1 & Hi1 & Hv1 & Ho1) (Hs2 & Hi2 & Hv2 & Ho2).
  repeat split; try congruence.
  rewrite Ho2, Ho1. symmetry. apply (assoc_L (∪)).
Qed.

Lemma union_singleton_present (m : gmap (list Z) Store.objKind) (name : list Z)
    (kind : Store.objKind) :
  is_Some (m !! name) -> m ∪ {[name := kind]} = m.
Proof.
  intros [old Hold]. apply map_eq. intros i. rewrite lookup_union.
  destruct (decide (i = name)) as [->|Hne].
  - rewrite Hold, lookup_singleton_eq. reflexivity.
  - rewrite lookup_singleton_ne by congruence. destruct (m !! i); reflexivity.
Qed.

Lemma createIfNotExists_withObjects (name : list Z) (kind : Store.objKind)
    (db : Store.DB) :
  Store.withObjects {[name := kind]} db (Store.createIfNotExists name kind db).
Proof.
  unfold Store.createIfNotExists, Store.withObjects.
  destruct (Store.objects db !! name) as [old|] eqn:Hobj.
  - repeat split; try reflexivity.
    symmetry. apply union_singleton_present. rewrite Hobj. eauto.
  - repeat split; try reflexivity. cbn [Store.set_objects Store.objects].
    apply insert_union_singleton_r, Hobj.
Qed.

Lemma ensureTable_withObjects (name module : list Z) (available : bool)
    (tx : Store.DB) :
  Forall (fun r => (0 <= r < 128)%Z) module ->
  map ascii_ToLower module = module ->
  exists tx',
    match Store.createVirtualTable name module available tx with
    | Ok tx' => Ok tx'
    | Err err =>
        if negb (Store.isModuleUnavailable err module) then Err err
        else Store.exec (Store.createIfNotExists name Store.Table) tx
    end = Ok tx' /\
    Store.withObjects
      {[name := if available then Store.VirtualTable else Store.Table]} tx tx'.
Proof.
  intros Hascii Hlow. unfold Store.createVirtualTable. rewrite no_fault.
  destruct (Store.objects tx !! name) as [kind|] eqn:Hobj.
  - exists tx. split; [reflexivity|].
    repeat split; try reflexivity.
    symmetry. apply union_singleton_present. rewrite Hobj. eauto.
  - destruct available.
    + eexists. split; [reflexivity|].
      repeat split; try reflexivity. cbn [Store.set_objects Store.objects].
      apply insert_union_singleton_r, Hobj.
    + rewrite (isModuleUnavailable_missing lower_ok _ Hascii Hlow).
      simpl negb. cbv iota. rewrite (exec_ok no_fault).
      eexists. split; [reflexivity|]. apply createIfNotExists_withObjects.
Qed.

Lemma migrateV1_withObjects (tx : Store.DB) :
  exists tx', Store.migrateV1 tx = Ok tx' /\ Store.withObjects Store.objectsV1 tx tx'.
Proof.
  unfold Store.migrateV1. cbn [Store.execStatements].
  rewrite !(exec_ok no_fault).
  eexists. split; [reflexivity|]. unfold Store.objectsV1.
  repeat (eapply withObjects_trans; [|apply createIfNotExists_withObjects]).
  apply createIfNotExists_withObjects.
Qed.

Lemma migrateV2_withObjects (tx : Store.DB) :
  exists tx', Store.migrateV2 tx = Ok tx' /\ Store.withObjects Store.objectsV2 tx tx'.
Proof.
  unfold Store.migrateV2, Store.ensureFTSTable, Store.ensureVectorTable.
  destruct (ensureTable_withObjects (str "items_fts") (str "fts5")
              Store.has_fts5 tx) as (tx1 & -> & H1).
  { vm_compute. repeat constructor; discriminate. }
  { reflexivity. }
  cbn [Store.execStatements].
  rewrite (exec_ok no_fault (Store.createIfNotExists (str "items_fts_insert") _)).
  rewrite (exec_ok no_fault (Store.createIfNotExists (str "items_fts_delete") _)).
  rewrite (exec_ok no_fault (Store.createIfNotExists (str "items_fts_update") _)).
  match goal with
  | |- context [Store.createVirtualTable _ _ _ ?t] =>
      destruct (ensureTable_withObjects (str "items_vec") (str "vec0")
                  Store.has_vec0 t) as (tx3 & -> & H3);
        [vm_compute; repeat constructor; discriminate|reflexivity|]
  end.
  exists tx3. split; [reflexivity|]. unfold Store.objectsV2.
  eapply withObjects_trans; [|exact H3].
  repeat (eapply withObjects_trans; [|apply createIfNotExists_withObjects]).
  exact H1.
Qed.

Lemma fold_left_max_ge (l : list Z) :
  forall a, (a <= fold_left Z.max l a)%Z /\
            Forall (fun v => (v <= fold_left Z.max l a)%Z) l.
Proof.
  induction l as [|x l IH]; intros a; cbn [fold_left].
  - split; [lia|constructor].
  - destruct (IH (Z.max a x)) as [Ha Hl]. split; [lia|].
    constructor; [lia|exact Hl].
Qed.

Lemma versionOf_ge (db : Store.DB) :
  Forall (fun v => (v <= Store.versionOf db)%Z) (Store.recordedVersions db).
Proof.
  unfold Store.versionOf, Store.recordedVersions.
  destruct (Store.schema_version db) as [[|row rows]|]; cbn [map]; try constructor.
  - apply fold_left_max_ge.
  - apply fold_left_max_ge.
Qed.

Lemma currentSchemaVersion_versionOf (db : Store.DB) :
  Store.schema_version db <> None ->
  Store.currentSchemaVersion db = Ok (Store.versionOf db).
Proof.
  unfold Store.currentSchemaVersion, Store.versionOf. rewrite no_fault.
  destruct (Store.schema_version db) as [[|row rows]|]; [reflexivity|reflexivity|].
  intros Hn. contradiction.
Qed.

(** One migration on a database where its version is not recorded. *)
Lemma applyMigration_withObjects (now : Store.Time) (db : Store.DB)
    (m : Store.migration) (rows : list (Z * Store.Time))
    (added : gmap (list Z) Store.objKind) :
  (forall tx, exists tx', Store.up m tx = Ok tx' /\ Store.withObjects added tx tx') ->
  Store.schema_version db = Some rows ->
  ~ In (Store.version m) (map fst rows) ->
  exists db',
    Store.applyMigration now db m = (None, db') /\
    Store.schema_version db' = Some (rows ++ [(Store.version m, now)]) /\
    Store.items db' = Store.items db /\
    Store.items_vec db' = Store.items_vec db /\
    Store.objects db' = Store.objects db ∪ added.
Proof.
  intros Hup Hrows Hnew. unfold Store.applyMigration.
  destruct (Hup db) as (tx & -> & Hs & Hi & Hv & Ho).
  unfold Store.insertVersion. rewrite no_fault, Hs, Hrows.
  rewrite bool_decide_eq_false_2 by (rewrite list_elem_of_In; exact Hnew).
  eexists. split; [reflexivity|].
  cbn [Store.set_schema_version Store.schema_version Store.items Store.items_vec
       Store.objects].
  auto.
Qed.

(** The database after [ApplyMigrations], in closed form. *)
Lemma ApplyMigrations_effect (now : Z -> Store.Time) (db : Store.DB) :
  exists db',
    Store.ApplyMigrations now (Some db) = (None, Some db') /\
    Store.schema_version db' =
      Some (match Store.schema_version db with Some rows => rows | None => [] end ++
            map (fun v => (v, now v)) (Store.pendingVersions (Store.versionOf db))) /\
    Store.items db' = Store.items db /\
    Store.items_vec db' = Store.items_vec db /\
    Store.objects db' =
      Store.objects db ∪
      (if (Store.versionOf db <? 1)%Z then Store.objectsV1 else ∅) ∪
      (if (Store.versionOf db <? 2)%Z then Store.objectsV2 else ∅).
Proof.
  unfold Store.ApplyMigrations, Store.ensureSchemaVersionTable.
  rewrite (exec_ok no_fault).
  set (db0 := match Store.schema_version db with
              | Some _ => db
              | None => Store.set_schema_version (Some []) db
              end).
  set (rows := match Store.schema_version db with Some rows => rows | None => [] end).
  assert (Hrows : Store.schema_version db0 = Some rows).
  { subst db0 rows. destruct (Store.schema_version db) eqn:E; [exact E|reflexivity]. }
  assert (Hitems : Store.items db0 = Store.items db /\
                   Store.items_vec db0 = Store.items_vec db /\
                   Store.objects db0 = Store.objects db).
  { subst db0. destruct (Store.schema_version db); repeat split; reflexivity. }
  assert (Hver : Store.versionOf db0 = Store.versionOf db).
  { unfold Store.versionOf. rewrite Hrows. subst rows.
    destruct (Store.schema_version db) as [[|row rs]|]; reflexivity. }
  rewrite currentSchemaVersion_versionOf by (rewrite Hrows; discriminate).
  rewrite Hver.
  pose proof (versionOf_ge db0) as Hge. rewrite Hver in Hge.
  unfold Store.recordedVersions in Hge. rewrite Hrows in Hge.
  rewrite List.Forall_forall in Hge.
  destruct Hitems as (Hi0 & Hv0 & Ho0).
  unfold Store.migrations, Store.pendingVersions.
  cbn [Store.applyPending Store.version List.filter].
  destruct (Z.leb_spec 1 (Store.versionOf db)) as [H1|H1];
    destruct (Z.leb_spec 2 (Store.versionOf db)) as [H2|H2]; try lia.
  - (* both recorded *)
    rewrite !(proj2 (Z.ltb_ge _ _)) by lia.
    exists db0. split; [reflexivity|].
    rewrite Hrows, app_nil_r, !(right_id_L ∅ (∪)). auto.
  - (* version 2 pending *)
    rewrite (proj2 (Z.ltb_ge _ 1)) by lia. rewrite (proj2 (Z.ltb_lt _ 2)) by lia.
    destruct (applyMigration_withObjects (now 2%Z) db0
                {| Store.version := 2; Store.name := str "create_search_tables";
                   Store.up := Store.migrateV2 |} rows Store.objectsV2)
      as (db2 & -> & Hs2 & Hi2 & Hv2 & Ho2).
    { apply migrateV2_withObjects. }
    { exact Hrows. }
    { cbn [Store.version]. intros Hin. apply Hge in Hin. lia. }
    exists db2. split; [reflexivity|].
    rewrite (right_id_L ∅ (∪)). cbn [map]. cbn [Store.version] in Hs2.
    repeat split; congruence.
  - (* both pending *)
    rewrite (proj2 (Z.ltb_lt _ 1)) by lia. rewrite (proj2 (Z.ltb_lt _ 2)) by lia.
    destruct (applyMigration_withObjects (now 1%Z) db0
                {| Store.version := 1; Store.name := str "create_items";
                   Store.up := Store.migrateV1 |} rows Store.objectsV1)
      as (db1 & -> & Hs1 & Hi1 & Hv1 & Ho1).
    { apply migrateV1_withObjects. }
    { exact Hrows. }
    { cbn [Store.version]. intros Hin. apply Hge in Hin. lia. }
    destruct (applyMigration_withObjects (now 2%Z) db1
                {| Store.version := 2; Store.name := str "create_search_tables";
                   Store.up := Store.migrateV2 |} (rows ++ [(1%Z, now 1%Z)])
                Store.objectsV2)
      as (db2 & -> & Hs2 & Hi2 & Hv2 & Ho2).
    { apply migrateV2_withObjects. }
    { exact Hs1. }
    { cbn [Store.version]. rewrite map_app, in_app_iff. cbn [map In fst].
      intros [Hin|[Hin|[]]]; [apply Hge in Hin; lia|lia]. }
    exists db2. split; [reflexivity|].
    cbn [Store.version] in Hs2.
    rewrite Hs2, <- app_assoc. cbn [map app].
    repeat split; congruence.
Qed.

Lemma ApplyMigrations_nothing_pending (now : Z -> Store.Time) (db : Store.DB) :
  (2 <= Store.versionOf db)%Z ->
  Store.ApplyMigrations now (Some db) = (None, Some db).
Proof.
  intros H2.
  assert (Hsome : Store.schema_version db <> None).
  { intros Hn. unfold Store.versionOf in H2. rewrite Hn in H2. lia. }
  unfold Store.ApplyMigrations, Store.ensureSchemaVersionTable.
  rewrite (exec_ok no_fault).
  destruct (Store.schema_version db) as [rows|] eqn:E; [|contradiction].
  rewrite currentSchemaVersion_versionOf by (rewrite E; discriminate).
  unfold Store.migrations. cbn [Store.applyPending Store.version].
  rewrite !(proj2 (Z.leb_le _ _)) by lia. reflexivity.
Qed.

Lemma versionOf_app (db' : Store.DB) (rows added : list (Z * Store.Time)) (v : Z) :
  Store.schema_version db' = Some (rows ++ added) ->
  In v (map fst added) -> (v <= Store.versionOf db')%Z.
Proof.
  intros Hs Hin. pose proof (versionOf_ge db') as Hge.
  unfold Store.recordedVersions in Hge. rewrite Hs in Hge.
  rewrite List.Forall_forall in Hge. apply Hge.
  rewrite map_app, in_app_iff. right. exact Hin.
Qed.
End MigrationsAnyDatabase.

(** X8. [ApplyMigrations] is safe on every database, whatever its
    version table holds: with no driver failure it succeeds, keeps the
    rows of [schema_version] and appends one row for each migration
    above the largest recorded version, leaves the item rows and the
    stored vectors as they were, and a further run changes nothing. *)
Theorem ApplyMigrations_any_database `{Store.Sqlite} `{UnicodeCase}
    (no_fault : Store.fault = None) (lower_ok : lower_ascii)
    (now : Z -> Store.Time) (db : Store.DB) :
  exists db',
    Store.ApplyMigrations now (Some db) = (None, Some db') /\
    Store.schema_version db' =
      Some (match Store.schema_version db with Some rows => rows | None => [] end ++
            map (fun v => (v, now v)) (Store.pendingVersions (Store.versionOf db))) /\
    Store.items db' = Store.items db /\
    Store.items_vec db' = Store.items_vec db /\
    (2 <= Store.versionOf db')%Z /\
    (forall now', Store.ApplyMigrations now' (Some db') = (None, Some db')).
Proof.
  destruct (ApplyMigrations_effect no_fault lower_ok now db)
    as (db' & Hrun & Hs & Hi & Hv & _).
  assert (H2 : (2 <= Store.versionOf db')%Z).
  { destruct (Z.leb_spec 2 (Store.versionOf db)) as [Hge|Hlt].
    - assert (Hp : Store.pendingVersions (Store.versionOf db) = []).
      { unfold Store.pendingVersions. cbn [List.filter].
        rewrite !(proj2 (Z.ltb_ge _ _)) by lia. reflexivity. }
      rewrite Hp, app_nil_r in Hs.
      unfold Store.versionOf in Hge |- *. rewrite Hs.
      destruct (Store.schema_version db) as [rows|]; [exact Hge|lia].
    - eapply versionOf_app; [exact Hs|].
      rewrite map_map. cbn [fst]. rewrite map_id.
      unfold Store.pendingVersions. cbn [List.filter].
      rewrite (proj2 (Z.ltb_lt _ 2)) by lia.
      destruct (_ <? 1)%Z; cbn [In]; auto. }
  exists db'. repeat split; try assumption.
  intros now'. apply (ApplyMigrations_nothing_pending no_fault), H2.
Qed.

Lemma ApplyMigrations_any_database_witness :
  exists db',
    @Store.ApplyMigrations Store.plainSqlite ascii_ToLower (fun v => (10 + v)%Z)
      (Some Store.foreignDB) = (None, Some db') /\
    Store.schema_version db' = Some [(-4, 5); (1, 11); (2, 12)]%Z /\
    Store.items db' = Store.items Store.foreignDB /\
    Store.items_vec db' = Store.items_vec Store.foreignDB /\
    (2 <= Store.versionOf db')%Z /\
    (forall now', @Store.ApplyMigrations Store.plainSqlite ascii_ToLower now'
                    (Some db') = (None, Some db')).
Proof.
  exact (@ApplyMigrations_any_database Store.plainSqlite ascii_ToLower
           eq_refl ascii_table_lower_ascii (fun v => (10 + v)%Z) Store.foreignDB).
Defined.

(** X9. The schema objects after [ApplyMigrations]: every object the
    database had keeps its kind, and each pending migration adds the
    objects it names that were missing (the four of version 1, the five
    of version 2).  [items_fts] and [items_vec] are created as virtual
    tables when the module is there and as plain tables when it is
    not; a new database ends with exactly these nine objects. *)
Theorem ApplyMigrations_schema_objects `{Store.Sqlite} `{UnicodeCase}
    (no_fault : Store.fault = None) (lower_ok : lower_ascii)
    (now : Z -> Store.Time) (db : Store.DB) :
  exists db',
    Store.ApplyMigrations now (Some db) = (None, Some db') /\
    Store.objects db' =
      Store.objects db ∪
      (if (Store.versionOf db <? 1)%Z then Store.objectsV1 else ∅) ∪
      (if (Store.versionOf db <? 2)%Z then Store.objectsV2 else ∅) /\
    (forall name kind,
       Store.objects db !! name = Some kind -> Store.objects db' !! name = Some kind) /\
    (Store.schema_version db = None -> Store.objects db = ∅ ->
       Store.objects db' = Store.objectsV1 ∪ Store.objectsV2).
Proof.
  destruct (ApplyMigrations_effect no_fault lower_ok now db)
    as (db' & Hrun & _ & _ & _ & Ho).
  exists db'. split; [exact Hrun|]. split; [exact Ho|]. split.
  - intros name kind Hk. rewrite Ho, <- (assoc_L (∪)).
    apply lookup_union_Some_l, Hk.
  - intros Hs He. rewrite Ho, He. unfold Store.versionOf. rewrite Hs.
    cbn. rewrite (left_id_L ∅ (∪)). reflexivity.
Qed.

Lemma ApplyMigrations_schema_objects_witness :
  exists db',
    @Store.ApplyMigrations Store.plainSqlite ascii_ToLower (fun v => (10 + v)%Z)
      (Some Store.foreignDB) = (None, Some db') /\
    Store.objects db' !! str "items_fts" = Some Store.Table /\
    Store.objects db' !! str "items_vec" = Some Store.Table /\
    Store.objects db' !! str "items" = Some Store.Table /\
    Store.objects db' !! str "items_fts_update" = Some Store.Trigger.
Proof.
  destruct (@ApplyMigrations_schema_objects Store.plainSqlite ascii_ToLower
              eq_refl ascii_table_lower_ascii (fun v => (10 + v)%Z) Store.foreignDB)
    as (db' & Hrun & Ho & _ & _).
  exists db'. split; [exact Hrun|]. rewrite Ho.
  repeat split; vm_compute; reflexivity.
Defined.

(** ** Items: what is written is what is read *)

Lemma UpsertItem_ok `{Store.Sqlite} (now : Store.Time) (db : Store.DB)
    (rec : Store.ItemRecord) :
  Store.fault = None ->
  TrimSpace (Store.rec_ID rec) <> [] -> TrimSpace (Store.rec_Type rec) <> [] ->
  (0 < Store.rec_Number rec)%Z ->
  Store.UpsertItem now (Some db) rec =
    (None,
     Some (Store.set_items
             (<[Store.rec_ID rec :=
                  Store.upsertRow
                    (Store.excludedRow rec
                       (if Store.IsZero (Store.rec_CreatedAt rec) then now
                        else Store.rec_CreatedAt rec)
                       (if Store.IsZero (Store.rec_UpdatedAt rec) then now
                        else Store.rec_UpdatedAt rec))
                    (Store.items db !! Store.rec_ID rec)]> (Store.items db)) db)).
Proof.
  intros Hfault Hid Hty Hnum. unfold Store.UpsertItem, Store.exec.
  rewrite !bool_decide_eq_false_2 by assumption.
  destruct (Z.leb_spec (Store.rec_Number rec) 0); [lia|].
  rewrite Hfault. reflexivity.
Qed.

(** X10. An item that [UpsertItem] has stored is found by
    [lookupItemMeta] under its id with the type, number, title, state
    and URL of the record; the lookup of every other id answers as
    before. *)
Theorem UpsertItem_then_lookup `{Store.Sqlite} (now : Store.Time) (db : Store.DB)
    (rec : Store.ItemRecord)
    (Hfault : Store.fault = None)
    (Hid : TrimSpace (Store.rec_ID rec) <> [])
    (Htype : TrimSpace (Store.rec_Type rec) <> [])
    (Hnumber : (0 < Store.rec_Number rec)%Z) :
  exists db',
    Store.UpsertItem now (Some db) rec = (None, Some db') /\
    Store.lookupItemMeta db' (Store.rec_ID rec) =
      Store.Found
        {| Store.meta_ID := Store.rec_ID rec; Store.meta_Type := Store.rec_Type rec;
           Store.meta_Number := Store.rec_Number rec;
           Store.meta_Title := Store.rec_Title rec;
           Store.meta_State := Store.rec_State rec;
           Store.meta_URL := Store.rec_URL rec |} /\
    (forall id, id <> Store.rec_ID rec ->
       Store.lookupItemMeta db' id = Store.lookupItemMeta db id).
Proof.
  rewrite (UpsertItem_ok now db rec Hfault Hid Htype Hnumber).
  eexists. split; [reflexivity|].
  unfold Store.lookupItemMeta. rewrite Hfault.
  cbn [Store.set_items Store.items]. split.
  - rewrite lookup_insert_eq.
    destruct (Store.items db !! Store.rec_ID rec); reflexivity.
  - intros id Hne. rewrite lookup_insert_ne by congruence. reflexivity.
Qed.

Lemma UpsertItem_then_lookup_witness :
  exists db',
    @Store.UpsertItem Store.plainSqlite 9%Z (Some Store.sampleDB)
      Store.issueOneEdited = (None, Some db') /\
    @Store.lookupItemMeta Store.plainSqlite db' (str "issue/1") =
      Store.Found
        {| Store.meta_ID := str "issue/1"; Store.meta_Type := str "issue";
           Store.meta_Number := 1; Store.meta_Title := str "one, edited";
           Store.meta_State := str "closed"; Store.meta_URL := str "u" |} /\
    (forall id, id <> str "issue/1" ->
       @Store.lookupItemMeta Store.plainSqlite db' id =
       @Store.lookupItemMeta Store.plainSqlite Store.sampleDB id).
Proof.
  apply (@UpsertItem_then_lookup Store.plainSqlite 9%Z Store.sampleDB
           Store.issueOneEdited eq_refl).
  - vm_compute. discriminate.
  - vm_compute. discriminate.
  - reflexivity.
Defined.

(** X11. Storing the same record again keeps the creation time of the
    first write and touches no other row; when the record carries its
    own update time, or the clock has not moved, the second write
    leaves the whole database as the first one left it. *)
Theorem UpsertItem_repeat `{Store.Sqlite} (now1 now2 : Store.Time) (db : Store.DB)
    (rec : Store.ItemRecord)
    (Hfault : Store.fault = None)
    (Hid : TrimSpace (Store.rec_ID rec) <> [])
    (Htype : TrimSpace (Store.rec_Type rec) <> [])
    (Hnumber : (0 < Store.rec_Number rec)%Z) :
  exists db1 db2 row1 row2,
    Store.UpsertItem now1 (Some db) rec = (None, Some db1) /\
    Store.UpsertItem now2 (Some db1) rec = (None, Some db2) /\
    Store.items db1 !! Store.rec_ID rec = Some row1 /\
    Store.items db2 !! Store.rec_ID rec = Some row2 /\
    Store.row_created_at row2 = Store.row_created_at row1 /\
    Store.row_updated_at row2 =
      (if Store.IsZero (Store.rec_UpdatedAt rec) then now2
       else Store.rec_UpdatedAt rec) /\
    (forall id, id <> Store.rec_ID rec ->
       Store.items db2 !! id = Store.items db1 !! id) /\
    (Store.IsZero (Store.rec_UpdatedAt rec) = false \/ now2 = now1 -> db2 = db1).
Proof.
  pose proof (UpsertItem_ok now1 db rec Hfault Hid Htype Hnumber) as H1.
  match type of H1 with _ = (None, Some ?d) => set (db1 := d) in H1 end.
  pose proof (UpsertItem_ok now2 db1 rec Hfault Hid Htype Hnumber) as H2.
  match type of H2 with _ = (None, Some ?d) => set (db2 := d) in H2 end.
  assert (Hl1 : exists row1, Store.items db1 !! Store.rec_ID rec = Some row1).
  { subst db1. cbn [Store.set_items Store.items]. rewrite lookup_insert_eq. eauto. }
  destruct Hl1 as [row1 Hl1].
  assert (Hl2 : Store.items db2 !! Store.rec_ID rec =
                Some (Store.upsertRow
                        (Store.excludedRow rec
                           (if Store.IsZero (Store.rec_CreatedAt rec) then now2
                            else Store.rec_CreatedAt rec)
                           (if Store.IsZero (Store.rec_UpdatedAt rec) then now2
                            else Store.rec_UpdatedAt rec)) (Some row1))).
  { subst db2. cbn [Store.set_items Store.items]. rewrite lookup_insert_eq, Hl1.
    reflexivity. }
  exists db1, db2, row1. eexists.
  split; [exact H1|]. split; [exact H2|].
  split; [exact Hl1|]. split; [exact Hl2|].
  split; [reflexivity|]. split; [reflexivity|].
  split.
  { intros id Hne. subst db2. cbn [Store.set_items Store.items].
    rewrite lookup_insert_ne by congruence. reflexivity. }
  intros Hsame.
  assert (Hupd : (if Store.IsZero (Store.rec_UpdatedAt rec) then now2
                  else Store.rec_UpdatedAt rec) =
                 (if Store.IsZero (Store.rec_UpdatedAt rec) then now1
                  else Store.rec_UpdatedAt rec)).
  { destruct Hsame as [-> | ->]; reflexivity. }
  assert (Hrow : Store.upsertRow
                   (Store.excludedRow rec
                      (if Store.IsZero (Store.rec_CreatedAt rec) then now2
                       else Store.rec_CreatedAt rec)
                      (if Store.IsZero (Store.rec_UpdatedAt rec) then now2
                       else Store.rec_UpdatedAt rec)) (Some row1) = row1).
  { rewrite Hupd. subst db1. cbn [Store.set_items Store.items] in Hl1.
    rewrite lookup_insert_eq in Hl1. injection Hl1 as <-.
    destruct (Store.items db !! Store.rec_ID rec); reflexivity. }
  subst db2. rewrite Hl1, Hrow.
  rewrite (insert_id _ _ _ Hl1).
  destruct db1; reflexivity.
Qed.

Lemma UpsertItem_repeat_witness :
  exists db1 db2,
    @Store.UpsertItem Store.plainSqlite 9%Z (Some Store.sampleDB)
      Store.issueOneEdited = (None, Some db1) /\
    @Store.UpsertItem Store.plainSqlite 20%Z (Some db1)
      Store.issueOneEdited = (None, Some db2) /\
    db2 = db1.
Proof.
  destruct (@UpsertItem_repeat Store.plainSqlite 9%Z 20%Z Store.sampleDB
              Store.issueOneEdited eq_refl)
    as (db1 & db2 & row1 & row2 & H1 & H2 & _ & _ & _ & _ & _ & Hsame).
  - vm_compute. discriminate.
  - vm_compute. discriminate.
  - reflexivity.
  - exists db1, db2. split; [exact H1|]. split; [exact H2|].
    apply Hsame. left. reflexivity.
Defined.

(** ** Stored vectors *)

Lemma hasVector_deleteVector (id : list Z) (rows : list (list Z * Store.storedVector)) :
  Store.hasVector id (Store.deleteVector id rows) = false.
Proof.
  unfold Store.hasVector, Store.deleteVector.
  induction rows as [|row rows IH]; [reflexivity|].
  cbn [List.filter]. destruct (bool_decide (row.1 = id)) eqn:E; cbn [negb].
  - exact IH.
  - cbn [existsb]. rewrite E, IH. reflexivity.
Qed.

Lemma deleteVector_idem (id : list Z) (rows : list (list Z * Store.storedVector)) :
  Store.deleteVector id (Store.deleteVector id rows) = Store.deleteVector id rows.
Proof.
  unfold Store.deleteVector.
  induction rows as [|row rows IH]; [reflexivity|].
  cbn [List.filter]. destruct (bool_decide (row.1 = id)) eqn:E; cbn [negb].
  - exact IH.
  - cbn [List.filter]. rewrite E. cbn [negb]. rewrite IH. reflexivity.
Qed.

Lemma deleteVector_absent (id : list Z) (rows : list (list Z * Store.storedVector)) :
  Store.hasVector id rows = false -> Store.deleteVector id rows = rows.
Proof.
  unfold Store.hasVector, Store.deleteVector.
  induction rows as [|row rows IH]; [reflexivity|].
  cbn [existsb List.filter]. intros Hn. apply orb_false_iff in Hn as [E Hn].
  rewrite E. cbn [negb]. rewrite IH by exact Hn. reflexivity.
Qed.

Lemma deleteVector_In (id : list Z) (rows : list (list Z * Store.storedVector))
    (row : list Z * Store.storedVector) :
  In row (Store.deleteVector id rows) <-> In row rows /\ fst row <> id.
Proof.
  unfold Store.deleteVector. rewrite filter_In.
  rewrite negb_true_iff, bool_decide_eq_false. reflexivity.
Qed.

Lemma deleteVector_NoDup (id : list Z) (rows : list (list Z * Store.storedVector)) :
  List.NoDup (map fst rows) -> List.NoDup (map fst (Store.deleteVector id rows)).
Proof.
  unfold Store.deleteVector.
  induction rows as [|row rows IH]; [intros _; constructor|].
  cbn [map List.filter]. intros Hnd. inversion Hnd as [|? ? Hnotin Hnd']; subst.
  destruct (negb (bool_decide (row.1 = id))); [|apply IH, Hnd'].
  cbn [map]. constructor; [|apply IH, Hnd'].
  intros Hin. apply Hnotin. apply in_map_iff in Hin as (r & Hr & Hin).
  apply filter_In in Hin as [Hin _]. apply in_map_iff. eauto.
Qed.

Lemma unique_message_matches `{UnicodeCase} :
  lower_ascii ->
  Contains (ToLower (str "UNIQUE constraint failed on items_vec primary key"))
    (str "unique constraint failed") = true.
Proof.
  intros Hlow. rewrite (ToLower_ascii _ Hlow).
  - vm_compute. reflexivity.
  - vm_compute. repeat constructor; discriminate.
Qed.

(** The rows of [items_vec] after a successful [UpsertVector]. *)
Lemma UpsertVector_rows `{Store.Sqlite} `{Store.Vec0Build} `{UnicodeCase}
    (db : Store.DB) (id : list Z) (embedding : list Q) :
  lower_ascii -> Store.fault = None ->
  TrimSpace id <> [] -> embedding <> [] ->
  Store.UpsertVector (Some db) id embedding =
    (None,
     Some (Store.set_items_vec
             (Store.deleteVector id (Store.items_vec db) ++ [(id, Some embedding)])
             db)).
Proof.
  intros Hlow Hfault Hid Hemb. unfold Store.UpsertVector.
  rewrite bool_decide_eq_false_2 by exact Hid.
  destruct embedding as [|x embedding]; [contradiction|]. cbn [length Nat.eqb].
  unfold Store.insertOrReplaceVector. rewrite Hfault.
  destruct (Store.rejects_replace && Store.hasVector id (Store.items_vec db)) eqn:Erej;
    [|reflexivity].
  rewrite (unique_message_matches Hlow). cbn [negb].
  unfold Store.exec, Store.insertVector. rewrite Hfault.
  cbn [Store.set_items_vec Store.items_vec].
  rewrite hasVector_deleteVector.
  unfold Store.set_items_vec. cbn [Store.schema_version Store.objects Store.items
                                    Store.items_vec].
  reflexivity.
Qed.

(** X12. [UpsertVector] replaces: after a successful call [items_vec]
    holds exactly one row for the id, with the new embedding, and every
    row of another id is as before, in the same order.  This is so on a
    build that accepts [INSERT OR REPLACE] and on one that rejects it
    for a stored id, where the delete-then-insert path runs.  A nil
    store, a blank id and an empty embedding are refused and nothing is
    written. *)
Theorem UpsertVector_replaces `{Store.Sqlite} `{Store.Vec0Build} `{UnicodeCase}
    (Hlow : lower_ascii) (s : Store.Store) (id : list Z) (embedding : list Q) :
  (s = None \/ TrimSpace id = [] \/ embedding = [] ->
     exists err, Store.UpsertVector s id embedding = (Some err, s)) /\
  (forall db,
     s = Some db -> Store.fault = None -> TrimSpace id <> [] -> embedding <> [] ->
     exists db',
       Store.UpsertVector s id embedding = (None, Some db') /\
       List.filter (fun row => bool_decide (fst row = id)) (Store.items_vec db') =
         [(id, Some embedding)] /\
       Store.deleteVector id (Store.items_vec db') =
         Store.deleteVector id (Store.items_vec db) /\
       (List.NoDup (map fst (Store.items_vec db)) ->
        List.NoDup (map fst (Store.items_vec db'))) /\
       Store.items db' = Store.items db /\
       Store.schema_version db' = Store.schema_version db /\
       Store.objects db' = Store.objects db).
Proof.
  split.
  - intros Hbad. unfold Store.UpsertVector. destruct s as [db|]; [|eauto].
    destruct Hbad as [Hn|[Hid|Hemb]]; [discriminate| |].
    + rewrite bool_decide_eq_true_2 by exact Hid. eauto.
    + subst embedding. destruct (bool_decide (TrimSpace id = [])); eauto.
  - intros db -> Hfault Hid Hemb.
    rewrite (UpsertVector_rows db id embedding Hlow Hfault Hid Hemb).
    eexists. split; [reflexivity|].
    cbn [Store.set_items_vec Store.items_vec Store.items Store.schema_version
         Store.objects].
    split.
    { rewrite List.filter_app. cbn [List.filter fst].
      rewrite bool_decide_eq_true_2 by reflexivity.
      replace (List.filter (fun row => bool_decide (fst row = id))
                 (Store.deleteVector id (Store.items_vec db))) with
        (@nil (list Z * Store.storedVector)); [reflexivity|].
      symmetry. pose proof (hasVector_deleteVector id (Store.items_vec db)) as Hno.
      unfold Store.hasVector in Hno.
      induction (Store.deleteVector id (Store.items_vec db)) as [|row rows IH];
        [reflexivity|].
      cbn [existsb] in Hno. apply orb_false_iff in Hno as [E Hno].
      cbn [List.filter]. rewrite E. apply IH, Hno. }
    split.
    { unfold Store.deleteVector at 1. rewrite List.filter_app.
      cbn [List.filter fst]. rewrite bool_decide_eq_true_2 by reflexivity.
      cbn [negb]. rewrite app_nil_r. apply deleteVector_idem. }
    split; [|auto].
    intros Hnd. rewrite map_app. cbn [map fst].
    apply List.NoDup_app.
    + apply deleteVector_NoDup, Hnd.
    + constructor; [intros []|constructor].
    + intros x Hin [<-|[]].
      apply in_map_iff in Hin as (row & Heq & Hrow).
      apply deleteVector_In in Hrow as [_ Hne]. contradiction.
Qed.

Lemma UpsertVector_replaces_witness :
  exists db',
    @Store.UpsertVector Store.plainSqlite true ascii_ToLower
      (Some Store.sampleDB) (str "issue/2") [0; 1; 0]%Q = (None, Some db') /\
    map fst (Store.items_vec db') =
      [str "issue/4"; str "issue/3"; str "issue/1"; str "issue/2"] /\
    List.filter (fun row => bool_decide (fst row = str "issue/2"))
      (Store.items_vec db') = [(str "issue/2", Some [0; 1; 0]%Q)].
Proof.
  destruct (proj2 (@UpsertVector_replaces Store.plainSqlite true ascii_ToLower
                     ascii_table_lower_ascii (Some Store.sampleDB)
                     (str "issue/2") [0; 1; 0]%Q) Store.sampleDB eq_refl eq_refl)
    as (db' & Hrun & Hone & _).
  - vm_compute. discriminate.
  - discriminate.
  - exists db'. split; [exact Hrun|]. split; [|exact Hone].
    vm_compute in Hrun. injection Hrun as <-. reflexivity.
Defined.

(** ** The vector codec *)

Lemma land_shiftl_disjoint (a b n : Z) :
  (0 <= n)%Z -> (0 <= a < 2 ^ n)%Z -> Z.land a (b * 2 ^ n) = 0%Z.
Proof.
  intros Hn Ha. apply Z.bits_inj'. intros i Hi.
  rewrite Z.land_spec, Z.bits_0.
  destruct (Z.lt_ge_cases i n) as [Hlt|Hge].
  - rewrite Z.mul_pow2_bits_low by exact Hlt. apply andb_false_r.
  - rewrite <- (Z.mod_small a (2 ^ n)) by exact Ha.
    rewrite Z.mod_pow2_bits_high by lia. reflexivity.
Qed.

Lemma lor_shiftl_add (a b n : Z) :
  (0 <= n)%Z -> (0 <= a < 2 ^ n)%Z ->
  Z.lor a (Z.shiftl b n) = (a + b * 2 ^ n)%Z.
Proof.
  intros Hn Ha. rewrite Z.shiftl_mul_pow2 by exact Hn.
  pose proof (land_shiftl_disjoint a b n Hn Ha) as Hd.
  rewrite <- Z.lxor_lor by exact Hd. symmetry. apply Z.add_nocarry_lxor, Hd.
Qed.


Lemma float32bits_sum (b0 b1 b2 b3 : Z) :
  Store.isByte b0 -> Store.isByte b1 -> Store.isByte b2 -> Store.isByte b3 ->
  Store.float32bits b0 b1 b2 b3 =
    (b0 + b1 * 2 ^ 8 + b2 * 2 ^ 16 + b3 * 2 ^ 24)%Z.
Proof.
  unfold Store.isByte, Store.float32bits. intros H0 H1 H2 H3.
  rewrite (lor_shiftl_add b0 b1 8) by lia.
  rewrite (lor_shiftl_add _ b2 16) by lia.
  rewrite (lor_shiftl_add _ b3 24) by lia.
  reflexivity.
Qed.

Lemma littleEndian32_div (w : Z) :
  Store.littleEndian32 w =
    [w mod 2 ^ 8; (w / 2 ^ 8) mod 2 ^ 8; (w / 2 ^ 16) mod 2 ^ 8;
     (w / 2 ^ 24) mod 2 ^ 8]%Z.
Proof.
  unfold Store.littleEndian32.
  change 255%Z with (Z.ones 8).
  rewrite !Z.land_ones by lia. rewrite !Z.shiftr_div_pow2 by lia. reflexivity.
Qed.

Lemma littleEndian32_float32bits (b0 b1 b2 b3 : Z) :
  Store.isByte b0 -> Store.isByte b1 -> Store.isByte b2 -> Store.isByte b3 ->
  Store.littleEndian32 (Store.float32bits b0 b1 b2 b3) = [b0; b1; b2; b3] /\
  Store.isWord32 (Store.float32bits b0 b1 b2 b3).
Proof.
  intros H0 H1 H2 H3. rewrite littleEndian32_div, float32bits_sum by assumption.
  unfold Store.isByte, Store.isWord32 in *.
  change (2 ^ 8)%Z with 256%Z. change (2 ^ 16)%Z with 65536%Z.
  change (2 ^ 24)%Z with 16777216%Z. change (2 ^ 32)%Z with 4294967296%Z.
  split; [|lia].
  repeat f_equal; Z.div_mod_to_equations; lia.
Qed.

Lemma float32bits_littleEndian32 (w : Z) :
  Store.isWord32 w ->
  match Store.littleEndian32 w with
  | [b0; b1; b2; b3] =>
      Store.float32bits b0 b1 b2 b3 = w /\
      Store.isByte b0 /\ Store.isByte b1 /\ Store.isByte b2 /\ Store.isByte b3
  | _ => False
  end.
Proof.
  intros Hw. rewrite littleEndian32_div. unfold Store.isWord32 in Hw.
  assert (Hb : forall x, Store.isByte (x mod 2 ^ 8)).
  { intros x. unfold Store.isByte. change (2 ^ 8)%Z with 256%Z.
    Z.div_mod_to_equations; lia. }
  split; [|auto].
  rewrite float32bits_sum by apply Hb.
  change (2 ^ 8)%Z with 256%Z. change (2 ^ 16)%Z with 65536%Z.
  change (2 ^ 24)%Z with 16777216%Z. change (2 ^ 32)%Z with 4294967296%Z in Hw.
  Z.div_mod_to_equations; lia.
Qed.

Lemma decodeWords_encodeWords (ws : list Z) :
  Forall Store.isWord32 ws ->
  Store.decodeWords (Store.encodeWords ws) = ws /\
  length (Store.encodeWords ws) = (4 * length ws)%nat /\
  Forall Store.isByte (Store.encodeWords ws).
Proof.
  induction 1 as [|w ws Hw _ (IHd & IHl & IHb)]; [repeat split; constructor|].
  unfold Store.encodeWords. cbn [flat_map].
  fold (Store.encodeWords ws).
  pose proof (float32bits_littleEndian32 w Hw) as Hle.
  destruct (Store.littleEndian32 w) as [|b0 [|b1 [|b2 [|b3 [|? ?]]]]]; try contradiction.
  destruct Hle as (Hbits & H0 & H1 & H2 & H3).
  cbn [app Store.decodeWords length]. rewrite Hbits, IHd, IHl.
  split; [reflexivity|]. split; [lia|].
  repeat (constructor; [assumption|]). exact IHb.
Qed.

Lemma decodeWords_length (n : nat) :
  forall blob, length blob = (4 * n)%nat ->
    length (Store.decodeWords blob) = n /\
    (Forall Store.isByte blob ->
       Forall Store.isWord32 (Store.decodeWords blob) /\
       Store.encodeWords (Store.decodeWords blob) = blob).
Proof.
  induction n as [|n IH]; intros blob Hlen.
  - destruct blob; [|discriminate]. repeat split; constructor.
  - destruct blob as [|b0 [|b1 [|b2 [|b3 rest]]]]; try (cbn in Hlen; lia).
    cbn [length] in Hlen. destruct (IH rest ltac:(lia)) as [Hl Hrt].
    cbn [Store.decodeWords length]. split; [lia|].
    intros Hb. inversion Hb as [|? ? H0 Hb1]; subst.
    inversion Hb1 as [|? ? H1 Hb2]; subst.
    inversion Hb2 as [|? ? H2 Hb3]; subst.
    inversion Hb3 as [|? ? H3 Hb4]; subst.
    destruct (Hrt Hb4) as [Hw Henc].
    destruct (littleEndian32_float32bits b0 b1 b2 b3 H0 H1 H2 H3) as [Hle Hword].
    split; [constructor; assumption|].
    unfold Store.encodeWords. cbn [flat_map]. fold (Store.encodeWords (Store.decodeWords rest)).
    rewrite Hle, Henc. reflexivity.
Qed.

(** X13. [decodeFloat32Vector] reads a blob as little-endian 32-bit
    words: it fails exactly when the length is not a multiple of four,
    otherwise it returns one word for every four bytes; on bytes it
    loses nothing (writing the words back lowest byte first gives the
    blob again) and it inverts that layout (the blob of any list of
    32-bit words decodes to the list). *)
Theorem decodeFloat32Vector_little_endian :
  (forall blob,
     (Z.of_nat (length blob) mod 4 <> 0)%Z <->
     exists msg, Store.decodeFloat32Vector blob = Err msg) /\
  (forall blob ws,
     Store.decodeFloat32Vector blob = Ok ws ->
     length blob = (4 * length ws)%nat /\
     (Forall Store.isByte blob ->
        Forall Store.isWord32 ws /\ Store.encodeWords ws = blob)) /\
  (forall ws,
     Forall Store.isWord32 ws ->
     Store.decodeFloat32Vector (Store.encodeWords ws) = Ok ws).
Proof.
  split; [|split].
  - intros blob. unfold Store.decodeFloat32Vector.
    destruct (Z.eqb_spec (Z.of_nat (length blob) mod 4) 0) as [E|E]; cbn [negb].
    + split; [intros Hn; contradiction|intros [msg Hm]; discriminate].
    + split; [eauto|intros _; exact E].
  - intros blob ws. unfold Store.decodeFloat32Vector.
    destruct (Z.eqb_spec (Z.of_nat (length blob) mod 4) 0) as [E|E]; cbn [negb];
      [|discriminate].
    intros [= <-].
    assert (Hlen : length blob = (4 * Z.to_nat (Z.of_nat (length blob) / 4))%nat).
    { Z.div_mod_to_equations. lia. }
    destruct (decodeWords_length _ blob Hlen) as [Hl Hrt].
    split; [lia|exact Hrt].
  - intros ws Hws. destruct (decodeWords_encodeWords ws Hws) as (Hd & Hl & _).
    unfold Store.decodeFloat32Vector. rewrite Hl, Hd.
    destruct (Z.eqb_spec (Z.of_nat (4 * length ws) mod 4) 0) as [E|E]; [reflexivity|].
    exfalso. apply E. Z.div_mod_to_equations. lia.
Qed.

Example decodeFloat32Vector_one :
  Store.decodeFloat32Vector [0; 0; 128; 63]%Z = Ok [1065353216%Z] /\
  Store.encodeWords [1065353216%Z] = [0; 0; 128; 63]%Z /\
  exists msg, Store.decodeFloat32Vector [0; 0; 128]%Z = Err msg.
Proof. split; [reflexivity|]. split; [reflexivity|]. eexists. reflexivity. Qed.

(** ** The brute-force search returns the nearest rows *)

Lemma StronglySorted_app_cross {A} (R : A -> A -> Prop) (l1 l2 : list A) :
  StronglySorted R (l1 ++ l2) ->
  forall x y, In x l1 -> In y l2 -> R x y.
Proof.
  induction l1 as [|a l1 IH]; intros Hs x y Hx Hy; [destruct Hx|].
  cbn [app] in Hs. apply StronglySorted_inv in Hs as [Hs Hall].
  destruct Hx as [<-|Hx].
  - rewrite List.Forall_forall in Hall. apply Hall. apply in_or_app. right. exact Hy.
  - apply IH; assumption.
Qed.

Lemma scanVectors_In `{Store.VectorMath} (queryEmbedding : list Q)
    (rows : list (list Z * Store.storedVector)) (h : Store.vectorHit) :
  In h (Store.scanVectors queryEmbedding rows) <->
  exists candidate,
    In (Store.hit_ID h, Some candidate) rows /\
    h = {| Store.hit_ID := Store.hit_ID h;
           Store.hit_Distance := Store.cosineDistance queryEmbedding candidate |}.
Proof.
  induction rows as [|[id [candidate|]] rows IH]; cbn [Store.scanVectors In].
  - split; [intros []|intros (c & [] & _)].
  - rewrite IH. split.
    + intros [<-|(c & Hin & Hh)]; [exists candidate; split; [left|]; reflexivity|].
      exists c. split; [right; exact Hin|exact Hh].
    + intros (c & [Heq|Hin] & Hh).
      * injection Heq as -> ->. left. symmetry. exact Hh.
      * right. exists c. split; assumption.
  - rewrite IH. split.
    + intros (c & Hin & Hh). exists c. split; [right; exact Hin|exact Hh].
    + intros (c & [Heq|Hin] & Hh); [discriminate|]. exists c. split; assumption.
Qed.

(** X14. The brute-force search returns the nearest stored vectors: the
    hits are the rows whose blob decodes, each with its cosine distance
    to the query, ordered by distance and then id; the list is cut at
    the candidate limit, and no row that was left out is nearer than a
    row that was kept. *)
Theorem bruteForce_nearest `{Store.Sqlite} `{Store.VectorMath}
    (db : Store.DB) (queryEmbedding : list Q) (k : Z)
    (Hfault : Store.fault = None) (Hk : (0 <= k)%Z) :
  exists hits rest,
    Store.vectorOnlySearchBruteForce db queryEmbedding k = Ok hits /\
    Permutation (hits ++ rest) (Store.scanVectors queryEmbedding (Store.items_vec db)) /\
    Z.of_nat (length hits) =
      Z.min k (Z.of_nat (length (Store.scanVectors queryEmbedding (Store.items_vec db)))) /\
    StronglySorted Store.hitBefore hits /\
    (forall h h', In h hits -> In h' rest -> Store.hitBefore h h') /\
    Forall (fun h =>
      exists candidate,
        In (Store.hit_ID h, Some candidate) (Store.items_vec db) /\
        Store.hit_Distance h = Store.cosineDistance queryEmbedding candidate) hits.
Proof.
  unfold Store.vectorOnlySearchBruteForce. rewrite Hfault.
  set (scan := Store.scanVectors queryEmbedding (Store.items_vec db)).
  set (sorted := Store.sortSlice Store.hitLess scan).
  pose proof (sortSlice_hits_sorted scan) as Hsorted. fold sorted in Hsorted.
  pose proof (sortSlice_perm Store.hitLess scan) as Hperm. fold sorted in Hperm.
  exists (firstn (Z.to_nat k) sorted), (skipn (Z.to_nat k) sorted).
  rewrite truncateTo_firstn by exact Hk.
  split; [reflexivity|].
  split; [rewrite firstn_skipn; symmetry; exact Hperm|].
  split.
  { rewrite length_firstn, <- (Permutation_length Hperm). lia. }
  split; [apply StronglySorted_firstn, Hsorted|].
  split.
  { apply StronglySorted_app_cross. rewrite firstn_skipn. exact Hsorted. }
  apply List.Forall_forall. intros h Hh.
  assert (Hin : In h scan).
  { eapply Permutation_in; [symmetry; exact Hperm|].
    rewrite <- (firstn_skipn (Z.to_nat k) sorted). apply in_or_app. left. exact Hh. }
  apply scanVectors_In in Hin as (c & Hrow & Heq).
  exists c. split; [exact Hrow|]. rewrite Heq. reflexivity.
Qed.

Lemma bruteForce_nearest_witness :
  exists hits rest,
    @Store.vectorOnlySearchBruteForce Store.plainSqlite Store.unitCosine
      Store.sampleDB [1; 0; 0]%Q 2 = Ok hits /\
    map Store.hit_ID hits = [str "issue/1"; str "issue/2"] /\
    (forall h h', In h hits -> In h' rest -> Store.hitBefore h h').
Proof.
  destruct (@bruteForce_nearest Store.plainSqlite Store.unitCosine Store.sampleDB
              [1; 0; 0]%Q 2 eq_refl)
    as (hits & rest & Hrun & _ & _ & _ & Hcross & _).
  - lia.
  - exists hits, rest. split; [exact Hrun|]. split; [|exact Hcross].
    vm_compute in Hrun. injection Hrun as <-. reflexivity.
Defined.

(** ** Query terms *)

Section Tokenize.
Context `{Store.UnicodeClass} `{UnicodeCase}.

Local Abbreviation isTerm :=
  (fun word : list Z => word <> [] /\ Forall (fun r => Store.wordChar r = true) word).

Lemma splitWordsFrom_words (input : list Z) :
  forall b words,
    Forall (fun r => Store.wordChar r = true) b ->
    Forall isTerm words ->
    Forall isTerm (Store.splitWordsFrom input b words).
Proof.
  induction input as [|r rest IH]; intros b words Hb Hwords.
  - cbn [Store.splitWordsFrom]. destruct b as [|c b]; [exact Hwords|].
    apply Forall_app. split; [exact Hwords|].
    constructor; [|constructor]. split; [discriminate|exact Hb].
  - cbn [Store.splitWordsFrom].
    fold (Store.wordChar r). destruct (Store.wordChar r) eqn:Er.
    + apply IH; [|exact Hwords]. apply Forall_app. split; [exact Hb|].
      constructor; [exact Er|constructor].
    + apply IH; [constructor|]. destruct b as [|c b]; [exact Hwords|].
      apply Forall_app. split; [exact Hwords|].
      constructor; [|constructor]. split; [discriminate|exact Hb].
Qed.

Lemma splitWordsFrom_concat (input : list Z) :
  forall b words,
    concat (Store.splitWordsFrom input b words) =
    concat words ++ b ++ List.filter Store.wordChar input.
Proof.
  induction input as [|r rest IH]; intros b words.
  - cbn [Store.splitWordsFrom List.filter]. rewrite app_nil_r.
    destruct b as [|c b]; [rewrite app_nil_r; reflexivity|].
    rewrite concat_app. cbn [concat]. rewrite app_nil_r. reflexivity.
  - cbn [Store.splitWordsFrom List.filter].
    fold (Store.wordChar r). destruct (Store.wordChar r) eqn:Er.
    + rewrite IH, <- !app_assoc. reflexivity.
    + rewrite IH. cbn [app].
      destruct b as [|c b]; [reflexivity|].
      rewrite concat_app. cbn [concat]. rewrite app_nil_r, <- app_assoc. reflexivity.
Qed.

Lemma Join_nil_iff (parts : list (list Z)) (sep : list Z) :
  Forall (fun p => p <> []) parts -> (Join parts sep = [] <-> parts = []).
Proof.
  intros Hparts. split; [|intros ->; reflexivity].
  destruct Hparts as [|p rest Hp Hrest]; [reflexivity|].
  intros Hj. exfalso. destruct p as [|c p]; [contradiction|].
  destruct rest; discriminate Hj.
Qed.

End Tokenize.

(** X15. The terms [tokenizeFTSQuery] hands to the search: each is a
    non-empty run of letters, digits and underscores of the lowercased
    query and is not a stop word; splitting loses no word character and
    keeps no other one.  The FTS5 query text is empty exactly when
    there is no term, and then [SearchFTS] answers with no result and
    without an error. *)
Theorem tokenizeFTSQuery_terms `{Store.UnicodeClass} `{UnicodeCase} (input : list Z) :
  Forall (fun term =>
    term <> [] /\ Forall (fun r => Store.wordChar r = true) term /\
    ~ In term Store.ftsStopWords) (Store.tokenizeFTSQuery input) /\
  concat (Store.splitWords input) = List.filter Store.wordChar (ToLower input) /\
  (Store.buildFTS5Query input = [] <-> Store.tokenizeFTSQuery input = []) /\
  (forall (sqlite : Store.Sqlite) (db : Store.DB) (excludeID : list Z) (limit : Z),
     Store.tokenizeFTSQuery input = [] ->
     Store.SearchFTS (Some db) input excludeID limit = Ok []).
Proof.
  split; [|split; [|split]].
  - apply List.Forall_forall. intros term Hin.
    unfold Store.tokenizeFTSQuery in Hin.
    apply list_elem_of_In, list_elem_of_filter in Hin as [Hstop Hword].
    pose proof (splitWordsFrom_words (ToLower input) [] []
                  (List.Forall_nil _) (List.Forall_nil _)) as Hall.
    rewrite List.Forall_forall in Hall.
    apply list_elem_of_In, Hall in Hword as [Hne Hchars].
    split; [exact Hne|]. split; [exact Hchars|].
    intros Hs. apply list_elem_of_In in Hs.
    apply negb_prop_elim in Hstop. apply Hstop. apply bool_decide_pack. exact Hs.
  - unfold Store.splitWords. rewrite splitWordsFrom_concat. reflexivity.
  - unfold Store.buildFTS5Query. rewrite Join_nil_iff.
    + split; [apply map_eq_nil|intros ->; reflexivity].
    + apply List.Forall_forall. intros p Hp.
      apply in_map_iff in Hp as (term & <- & _). discriminate.
  - intros sqlite db excludeID limit Hnone. unfold Store.SearchFTS.
    rewrite Hnone. destruct (limit <=? 0)%Z; reflexivity.
Qed.

Example tokenizeFTSQuery_example :
  let _ : UnicodeCase := ascii_ToLower in
  let _ : Store.UnicodeClass :=
    {| Store.unicode_IsLetter := fun r => ((97 <=? r) && (r <=? 122))%Z;
       Store.unicode_IsDigit := fun r => ((48 <=? r) && (r <=? 57))%Z |} in
  Store.tokenizeFTSQuery (str "The login_page is DOWN, again!") =
    [str "login_page"; str "down"; str "again"] /\
  Store.tokenizeFTSQuery (str "is it the") = [].
Proof. split; vm_compute; reflexivity. Qed.

(** ** The fallback text search *)

Lemma CountFrom_nonneg (s sub : list Z) : forall skip, (0 <= CountFrom skip s sub)%Z.
Proof.
  induction s as [|c s IH]; intros skip; cbn [CountFrom]; [lia|].
  destruct skip as [|k]; [|apply IH].
  destruct (HasPrefix (c :: s) sub); [|apply IH].
  pose proof (IH (Nat.pred (length sub))). lia.
Qed.

Lemma Count_nonneg (s sub : list Z) : (0 <= Count s sub)%Z.
Proof. unfold Count. destruct sub; [lia|apply CountFrom_nonneg]. Qed.

Lemma fallbackTermFrequency_nonneg (text : list Z) (terms : list (list Z)) :
  (0 <= Store.fallbackTermFrequency text terms)%Z.
Proof.
  unfold Store.fallbackTermFrequency.
  assert (Hgen : forall a, (0 <= a)%Z ->
            (0 <= fold_left (fun score term => (score + Count text term)%Z) terms a)%Z).
  { induction terms as [|t terms IH]; intros a Ha; cbn [fold_left]; [exact Ha|].
    apply IH. pose proof (Count_nonneg text t). lia. }
  apply Hgen. lia.
Qed.

Lemma fallbackLess_asym (terms : list (list Z)) (a b : Store.fallbackFTSRow) :
  Store.fallbackLess terms a b = true -> Store.fallbackLess terms b a = false.
Proof.
  unfold Store.fallbackLess.
  destruct (Z.eqb_spec (Store.fallbackTermFrequency (Store.fb_LowerText a) terms)
              (Store.fallbackTermFrequency (Store.fb_LowerText b) terms)) as [E|E].
  - rewrite E, Z.eqb_refl. apply ltb_asym.
  - destruct (Z.eqb_spec (Store.fallbackTermFrequency (Store.fb_LowerText b) terms)
                (Store.fallbackTermFrequency (Store.fb_LowerText a) terms));
      [congruence|].
    intros Hlt. apply Z.ltb_lt in Hlt. apply Z.ltb_ge. lia.
Qed.

Lemma fallbackLess_notAfter (terms : list (list Z)) (a b : Store.fallbackFTSRow) :
  Store.notAfter (Store.fallbackLess terms) a b <->
  (Store.fallbackTermFrequency (Store.fb_LowerText b) terms <
   Store.fallbackTermFrequency (Store.fb_LowerText a) terms)%Z \/
  (Store.fallbackTermFrequency (Store.fb_LowerText a) terms =
   Store.fallbackTermFrequency (Store.fb_LowerText b) terms /\
   ltb (Store.fb_ID b) (Store.fb_ID a) = false).
Proof.
  unfold Store.notAfter, Store.fallbackLess.
  destruct (Z.eqb_spec (Store.fallbackTermFrequency (Store.fb_LowerText b) terms)
              (Store.fallbackTermFrequency (Store.fb_LowerText a) terms)) as [E|E].
  - split; [intros Hid; right; split; [congruence|exact Hid]|].
    intros [Hlt|[_ Hid]]; [lia|exact Hid].
  - rewrite Z.ltb_ge. split; [intros Hle; left; lia|].
    intros [Hlt|[Heq _]]; [lia|congruence].
Qed.

Lemma fallbackLess_notAfter_trans (terms : list (list Z))
    (a b c : Store.fallbackFTSRow) :
  Store.notAfter (Store.fallbackLess terms) a b ->
  Store.notAfter (Store.fallbackLess terms) b c ->
  Store.notAfter (Store.fallbackLess terms) a c.
Proof.
  rewrite !fallbackLess_notAfter.
  intros [H1|[E1 L1]] [H2|[E2 L2]]; try (left; lia).
  right. split; [congruence|]. eapply ltb_false_trans; eassumption.
Qed.

Lemma StronglySorted_map {A B} (R : A -> A -> Prop) (S : B -> B -> Prop)
    (f : A -> B) (l : list A) :
  (forall a b, R a b -> S (f a) (f b)) ->
  StronglySorted R l -> StronglySorted S (map f l).
Proof.
  intros Hf. induction 1 as [|a l Hs IH Hall]; cbn [map]; constructor.
  - exact IH.
  - apply List.Forall_forall. intros y Hy.
    apply in_map_iff in Hy as (x & <- & Hx). apply Hf.
    rewrite List.Forall_forall in Hall. apply Hall, Hx.
Qed.

(** X16. The results of the fallback text search are ranked and cut:
    at most [limit] results, ordered by the number of occurrences of
    the terms (most first) and then by id; each raw score is the
    negated count, so it is never positive, each text score lies in
    [0, 1), and each result is one of the rows the [LIKE] query gave. *)
Theorem searchFTSFallback_ranked `{Store.Sqlite} (db : Store.DB)
    (terms : list (list Z)) (excludeID : list Z) (limit : Z)
    (results : list Store.FTSResult)
    (Hlimit : (0 <= limit)%Z)
    (Hrun : Store.searchFTSFallback db terms excludeID limit = Ok results) :
  (Z.of_nat (length results) <= limit)%Z /\
  StronglySorted Store.ftsBefore results /\
  Forall (fun r =>
    (Store.fts_RawBM25 r <= 0)%Q /\
    (0 <= Store.fts_FTSScore r)%Q /\ (Store.fts_FTSScore r < 1)%Q) results /\
  exists rows,
    Store.like_match db excludeID terms (Store.candidateLimit limit) = Ok rows /\
    Forall (fun r =>
      exists row, In row rows /\ Store.fts_ID r = Store.fb_ID row /\
        Store.fts_RawBM25 r =
          (- inject_Z (Store.fallbackTermFrequency (Store.fb_LowerText row) terms))%Q)
      results.
Proof.
  unfold Store.searchFTSFallback in Hrun.
  destruct (Store.like_match db excludeID terms (Store.candidateLimit limit))
    as [rows|err] eqn:Hlike; [|discriminate].
  injection Hrun as <-.
  rewrite truncateTo_firstn by exact Hlimit.
  set (sorted := Store.sortSlice (Store.fallbackLess terms) rows).
  assert (Hsorted : StronglySorted (Store.notAfter (Store.fallbackLess terms)) sorted).
  { apply sortSlice_strongly_sorted.
    - apply fallbackLess_asym.
    - apply fallbackLess_notAfter_trans. }
  split.
  { rewrite length_map, length_firstn. lia. }
  split.
  { eapply StronglySorted_map; [|apply StronglySorted_firstn, Hsorted].
    intros a b Hab. apply fallbackLess_notAfter in Hab.
    unfold Store.ftsBefore. cbn [Store.fts_RawBM25 Store.fts_ID].
    destruct Hab as [Hlt|[Heq Hid]].
    - left. apply Qopp_lt_compat. rewrite <- Zlt_Qlt. exact Hlt.
    - right. split; [rewrite Heq; reflexivity|exact Hid]. }
  split.
  { apply Forall_map. apply List.Forall_forall. intros row _.
    cbn [Store.fts_RawBM25 Store.fts_FTSScore].
    split.
    - pose proof (fallbackTermFrequency_nonneg (Store.fb_LowerText row) terms) as Hn.
      apply (Qopp_le_compat 0). rewrite (Zle_Qle 0) in Hn. exact Hn.
    - apply normalizeBM25_range. }
  exists rows. split; [reflexivity|].
  apply Forall_map. apply List.Forall_forall. intros row Hrow.
  exists row. split; [|split; reflexivity].
  eapply Permutation_in; [symmetry; apply (sortSlice_perm (Store.fallbackLess terms))|].
  fold sorted. rewrite <- (firstn_skipn (Z.to_nat limit) sorted).
  apply in_or_app. left. exact Hrow.
Qed.

Lemma searchFTSFallback_ranked_witness :
  match @Store.searchFTSFallback Store.likeSqlite Store.sampleDB
          [str "login"] [] 1 with
  | Ok results =>
      (Z.of_nat (length results) <= 1)%Z /\
      StronglySorted Store.ftsBefore results /\
      map Store.fts_ID results = [str "issue/1"]
  | Err _ => False
  end.
Proof.
  destruct (@Store.searchFTSFallback Store.likeSqlite Store.sampleDB
              [str "login"] [] 1) as [results|err] eqn:Hrun.
  - destruct (@searchFTSFallback_ranked Store.likeSqlite Store.sampleDB
                [str "login"] [] 1 results ltac:(lia) Hrun) as (Hlen & Hsorted & _).
    split; [exact Hlen|]. split; [exact Hsorted|].
    vm_compute in Hrun. injection Hrun as <-. reflexivity.
  - vm_compute in Hrun. discriminate Hrun.
Defined.

(** ** The managed comment *)

Lemma TrimLeftSpace_app_nonspace (a b : list Z) (c : Z) :
  isSpace c = false -> TrimLeftSpace (a ++ c :: b) = TrimLeftSpace a ++ c :: b.
Proof.
  intros Hc. induction a as [|x a IH]; cbn [app TrimLeftSpace].
  - rewrite Hc. reflexivity.
  - destruct (isSpace x); [exact IH|reflexivity].
Qed.

Lemma TrimSpace_last (s : list Z) :
  TrimSpace s <> [] ->
  exists pre c, TrimSpace s = pre ++ [c] /\ isSpace c = false.
Proof.
  intros Hne. unfold TrimSpace, TrimRightSpace in *.
  destruct (TrimLeftSpace (rev (TrimLeftSpace s))) as [|c w] eqn:E;
    [contradiction Hne; reflexivity|].
  exists (rev w), c. split; [reflexivity|]. eapply TrimLeftSpace_head, E.
Qed.

(** A text that starts and ends with a character that is not a space
    is its own trimming. *)
Lemma TrimSpace_fixed (c d : Z) (mid : list Z) :
  isSpace c = false -> isSpace d = false ->
  TrimSpace (c :: mid ++ [d]) = c :: mid ++ [d].
Proof.
  intros Hc Hd. unfold TrimSpace. cbn [TrimLeftSpace]. rewrite Hc.
  unfold TrimRightSpace.
  change (c :: mid ++ [d]) with ((c :: mid) ++ [d]).
  generalize (c :: mid). intros l.
  rewrite rev_app_distr. change (rev [d]) with [d].
  cbn [app TrimLeftSpace]. rewrite Hd.
  cbn [rev]. rewrite rev_involutive. reflexivity.
Qed.

Lemma normalizeCommentBody_trimmed (body : list Z) :
  TrimSpace (Github.normalizeCommentBody body) = Github.normalizeCommentBody body.
Proof.
  unfold Github.normalizeCommentBody.
  case_bool_decide as Hb; [reflexivity|].
  destruct (HasPrefix (TrimSpace body) Github.CommentMarker); [apply TrimSpace_idem|].
  destruct (TrimSpace_last body Hb) as (pre & d & -> & Hd).
  destruct CommentMarker_head as [rest ->].
  cbn [app].
  replace (rest ++ 10%Z :: pre ++ [d]) with ((rest ++ 10%Z :: pre) ++ [d])
    by (rewrite <- app_assoc; reflexivity).
  apply TrimSpace_fixed; [reflexivity|exact Hd].
Qed.

Lemma normalizeCommentBody_idem (body : list Z) :
  Github.normalizeCommentBody (Github.normalizeCommentBody body) =
  Github.normalizeCommentBody body.
Proof.
  destruct (decide (TrimSpace body = [])) as [Hb|Hb].
  - assert (E : Github.normalizeCommentBody body = []).
    { unfold Github.normalizeCommentBody. case_bool_decide; [reflexivity|contradiction]. }
    rewrite E. reflexivity.
  - destruct (normalizeCommentBody_marker body Hb) as [Hprefix _].
    unfold Github.normalizeCommentBody at 1.
    rewrite normalizeCommentBody_trimmed, Hprefix.
    case_bool_decide as Hn; [|reflexivity]. symmetry. exact Hn.
Qed.

(** X17. [normalizeCommentBody] is idempotent and its result is already
    trimmed; the body of every comment the bot writes for a text that
    is not blank starts with the marker, so [FindTriageComment]
    recognises the comment as the managed one. *)
Theorem normalizeCommentBody_idempotent (body : list Z) :
  let normalizedBody := Github.normalizeCommentBody body in
  Github.normalizeCommentBody normalizedBody = normalizedBody /\
  TrimSpace normalizedBody = normalizedBody /\
  (normalizedBody = [] <-> TrimSpace body = []) /\
  (normalizedBody <> [] ->
     HasPrefix normalizedBody Github.CommentMarker = true /\
     forall id author before after,
       Forall (fun c => Contains (Github.ic_Body c) Github.CommentMarker = false) before ->
       Github.FindTriageComment
         (before ++ {| Github.ic_ID := id; Github.ic_Body := normalizedBody;
                       Github.ic_Author := author |} :: after) =
       ({| Github.ic_ID := id; Github.ic_Body := normalizedBody;
           Github.ic_Author := author |}, true)).
Proof.
  cbv zeta.
  split; [apply normalizeCommentBody_idem|].
  split; [apply normalizeCommentBody_trimmed|].
  assert (Hblank : Github.normalizeCommentBody body = [] <-> TrimSpace body = []).
  { rewrite <- normalizeCommentBody_blank, normalizeCommentBody_trimmed. reflexivity. }
  split; [exact Hblank|].
  intros Hne.
  assert (Hb : TrimSpace body <> []) by (intros Hb; apply Hne, Hblank, Hb).
  destruct (normalizeCommentBody_marker body Hb) as [Hprefix _].
  split; [exact Hprefix|].
  intros id author before after Hbefore.
  induction Hbefore as [|c before Hc _ IH]; cbn [app Github.FindTriageComment].
  - cbn [Github.ic_Body]. rewrite (HasPrefix_Contains _ _ Hprefix). reflexivity.
  - rewrite Hc. exact IH.
Qed.

(** X18. [FindTriageComment] returns the first comment, in the order
    of the listing, whose body contains the marker: no comment before
    it contains the marker.  When no comment contains it the answer is
    the zero comment with [false]. *)
Theorem FindTriageComment_first (comments : list Github.IssueComment) :
  match Github.FindTriageComment comments with
  | (existing, true) =>
      exists before after,
        comments = before ++ existing :: after /\
        Forall (fun c => Contains (Github.ic_Body c) Github.CommentMarker = false)
          before /\
        Contains (Github.ic_Body existing) Github.CommentMarker = true
  | (existing, false) =>
      existing = {| Github.ic_ID := 0; Github.ic_Body := []; Github.ic_Author := [] |} /\
      Forall (fun c => Contains (Github.ic_Body c) Github.CommentMarker = false)
        comments
  end.
Proof.
  induction comments as [|c comments IH]; cbn [Github.FindTriageComment].
  - split; [reflexivity|constructor].
  - destruct (Contains (Github.ic_Body c) Github.CommentMarker) eqn:Ec.
    + exists [], comments. split; [reflexivity|]. split; [constructor|exact Ec].
    + destruct (Github.FindTriageComment comments) as [existing [|]].
      * destruct IH as (before & after & -> & Hbefore & He).
        exists (c :: before), after. split; [reflexivity|].
        split; [constructor; assumption|exact He].
      * destruct IH as [-> Hall]. split; [reflexivity|constructor; assumption].
Qed.

(** ** Reconciling twice *)

Lemma FindTriageComment_after_update (comments : list Github.IssueComment)
    (existing : Github.IssueComment) (body : list Z) :
  Github.FindTriageComment comments = (existing, true) ->
  Contains body Github.CommentMarker = true ->
  Github.FindTriageComment
    (map (fun old =>
            if (Github.ic_ID old =? Github.ic_ID existing)%Z
            then {| Github.ic_ID := Github.ic_ID existing; Github.ic_Body := body;
                    Github.ic_Author := [] |}
            else old) comments) =
  ({| Github.ic_ID := Github.ic_ID existing; Github.ic_Body := body;
      Github.ic_Author := [] |}, true).
Proof.
  intros Hfind Hbody.
  induction comments as [|c comments IH]; [discriminate|].
  cbn [Github.FindTriageComment map] in *.
  destruct (Contains (Github.ic_Body c) Github.CommentMarker) eqn:Ec.
  - injection Hfind as <-. rewrite Z.eqb_refl. cbn [Github.ic_Body].
    rewrite Hbody. reflexivity.
  - destruct (Github.ic_ID c =? Github.ic_ID existing)%Z.
    + cbn [Github.ic_Body]. rewrite Hbody. reflexivity.
    + rewrite Ec. apply IH, Hfind.
Qed.

Lemma FindTriageComment_after_create (comments : list Github.IssueComment)
    (existing created : Github.IssueComment) :
  Github.FindTriageComment comments = (existing, false) ->
  Contains (Github.ic_Body created) Github.CommentMarker = true ->
  Github.FindTriageComment (comments ++ [created]) = (created, true).
Proof.
  intros Hfind Hbody.
  induction comments as [|c comments IH]; cbn [app Github.FindTriageComment] in *.
  - rewrite Hbody. reflexivity.
  - destruct (Contains (Github.ic_Body c) Github.CommentMarker); [discriminate|].
    apply IH, Hfind.
Qed.

(** X19. On a platform that keeps the comments of the issue in a list,
    reconciling with a text that is not blank leaves a state that a
    second reconcile with the same text accepts: the managed comment
    then carries the normalized body (up to surrounding white space),
    and the second call answers [noop] and changes nothing. *)
Theorem UpsertTriageComment_settles (owner repo : list Z) (number : Z)
    (body : list Z) (comments : list Github.IssueComment)
    (Hbody : TrimSpace body <> []) :
  let upsert := @Github.UpsertTriageComment _ Github.memoryAPI owner repo number body in
  exists action comments',
    upsert comments = (Ok action, comments') /\
    TrimSpace (Github.ic_Body (fst (Github.FindTriageComment comments'))) =
      Github.normalizeCommentBody body /\
    snd (Github.FindTriageComment comments') = true /\
    upsert comments' = (Ok Github.CommentActionNoop, comments').
Proof.
  cbv zeta.
  destruct (normalizeCommentBody_marker body Hbody) as [Hprefix _].
  pose proof (HasPrefix_Contains _ _ Hprefix) as Hcontains.
  pose proof (normalizeCommentBody_trimmed body) as Htrim.
  assert (Hnb : TrimSpace (Github.normalizeCommentBody body) <> []).
  { rewrite normalizeCommentBody_blank. exact Hbody. }
  assert (Hnoop : forall comments' existing,
            Github.FindTriageComment comments' = (existing, true) ->
            TrimSpace (Github.ic_Body existing) = Github.normalizeCommentBody body ->
            @Github.UpsertTriageComment _ Github.memoryAPI owner repo number body
              comments' = (Ok Github.CommentActionNoop, comments')).
  { intros comments' existing Hfind Hsame.
    unfold Github.UpsertTriageComment, bind, ret.
    cbn [Github.ListIssueComments Github.memoryAPI].
    rewrite Hfind. rewrite bool_decide_eq_false_2 by exact Hnb.
    rewrite Hsame, Htrim. rewrite bool_decide_eq_true_2 by reflexivity. reflexivity. }
  unfold Github.UpsertTriageComment at 1, bind, ret.
  cbn [Github.ListIssueComments Github.memoryAPI].
  destruct (Github.FindTriageComment comments) as [existing found] eqn:Hfind.
  rewrite bool_decide_eq_false_2 by exact Hnb.
  destruct found.
  - case_bool_decide as Hsame.
    + (* the managed comment already carries the text *)
      rewrite Htrim in Hsame.
      exists Github.CommentActionNoop, comments.
      split; [reflexivity|]. rewrite Hfind. cbn [fst snd].
      split; [exact Hsame|]. split; [reflexivity|].
      apply (Hnoop comments existing Hfind Hsame).
    + (* it is updated *)
      cbn [Github.UpdateIssueComment Github.memoryAPI].
      pose proof (FindTriageComment_after_update comments existing
                    (Github.normalizeCommentBody body) Hfind Hcontains) as Hafter.
      eexists. eexists. split; [reflexivity|].
      rewrite Hafter. cbn [fst snd Github.ic_Body].
      split; [exact Htrim|]. split; [reflexivity|].
      apply (Hnoop _ _ Hafter). exact Htrim.
  - (* it is created *)
    cbn [Github.CreateIssueComment Github.memoryAPI].
    pose proof (FindTriageComment_after_create comments existing
                  {| Github.ic_ID := Github.nextCommentID comments;
                     Github.ic_Body := Github.normalizeCommentBody body;
                     Github.ic_Author := [] |} Hfind Hcontains) as Hafter.
    eexists. eexists. split; [reflexivity|].
    rewrite Hafter. cbn [fst snd Github.ic_Body].
    split; [exact Htrim|]. split; [reflexivity|].
    apply (Hnoop _ _ Hafter). exact Htrim.
Qed.

Lemma UpsertTriageComment_settles_witness :
  let upsert := @Github.UpsertTriageComment _ Github.memoryAPI
                  (str "acme") (str "repo") 7 (str "### Triage Report") in
  let stale := [ {| Github.ic_ID := 4; Github.ic_Body := str "thanks!";
                    Github.ic_Author := str "bob" |};
                 {| Github.ic_ID := 5;
                    Github.ic_Body := Github.CommentMarker ++ str " old report";
                    Github.ic_Author := str "bot" |} ] in
  exists action comments',
    upsert stale = (Ok action, comments') /\
    TrimSpace (Github.ic_Body (fst (Github.FindTriageComment comments'))) =
      Github.normalizeCommentBody (str "### Triage Report") /\
    snd (Github.FindTriageComment comments') = true /\
    upsert comments' = (Ok Github.CommentActionNoop, comments').
Proof.
  cbv zeta.
  apply (UpsertTriageComment_settles (str "acme") (str "repo") 7
           (str "### Triage Report")).
  vm_compute. discriminate.
Defined.

(** ** The state transport *)

(** X20. [Pull] reports that the index was found only after it has
    copied the fetched file to the destination, and never together
    with an error: a run that answers [true] has made the copy from
    the temporary clone to [dstPath], the copy succeeded, and the
    temporary directory was removed afterwards. *)
Theorem Pull_found_means_copied {W} `{Github.CommandRunner W} `{Github.FileSystem W}
    `{UnicodeCase} (m : Github.StateManager) (dstPath : list Z) (w w' : W)
    (err : option (list Z))
    (Hrun : Github.Pull m dstPath w = ((true, err), w')) :
  err = None /\
  TrimSpace dstPath <> [] /\
  exists tmpDir w1 w2,
    Github.copyFile (Github.pathJoin tmpDir Github.defaultIndexFileName) dstPath w1
      = (None, w2) /\
    Github.RemoveAll tmpDir w2 = (tt, w').
Proof.
  unfold Github.Pull in Hrun.
  destruct (Github.remoteURL m) as [url|e]; [|discriminate].
  case_bool_decide as Hdst; [discriminate|].
  unfold bind, ret in Hrun.
  destruct (Github.MkdirTemp (str "triage-state-pull-*") w) as [[tmpDir|e] w0];
    [|discriminate].
  destruct (Github.pullInto m url dstPath tmpDir w0) as [[found e] w2] eqn:Hpull.
  destruct (Github.RemoveAll tmpDir w2) as [[] w3] eqn:Hrm.
  injection Hrun as -> -> ->.
  unfold Github.pullInto, bind, ret in Hpull.
  repeat match type of Hpull with
         | context [let (_, _) := ?c in _] => destruct c as [[? [?|]] ?] eqn:?
         | context [match ?c with _ => _ end] => destruct c eqn:?
         end; cbn [snd] in Hpull; try discriminate.
  all: repeat match type of Hpull with
         | context [let (_, _) := ?c in _] => destruct c as [[?|] ?] eqn:?
         | context [match ?c with _ => _ end] => destruct c eqn:?
         end; cbn [snd] in Hpull; try discriminate.
  all: injection Hpull as <- <-.
  all: split; [reflexivity|]; split; [exact Hdst|]; eauto.
Qed.

Lemma Pull_found_means_copied_witness :
  let run := @Github.Pull _ Github.emptyTreeRunner Github.fakeFileSystem ascii_ToLower
               Github.sampleManager (str "/work/index.db") Github.emptyWorld in
  fst run = (true, None) /\
  Github.copied (snd run) =
    [(str "/tmp/triage-state-pull-1/index.db", str "/work/index.db")] /\
  exists tmpDir w1 w2,
    @Github.copyFile _ Github.fakeFileSystem
      (Github.pathJoin tmpDir Github.defaultIndexFileName) (str "/work/index.db") w1
      = (None, w2) /\
    @Github.RemoveAll _ Github.fakeFileSystem tmpDir w2 = (tt, snd run).
Proof.
  cbv zeta. split; [vm_compute; reflexivity|]. split; [vm_compute; reflexivity|].
  refine (proj2 (proj2 (@Pull_found_means_copied _ Github.emptyTreeRunner
            Github.fakeFileSystem ascii_ToLower Github.sampleManager (str "/work/index.db")
            Github.emptyWorld _ None _))).
  vm_compute. reflexivity.
Defined.

(** X21. [Push] checks before it acts, and a failing [git rm] does not
    stop it.  With a blank token, owner, repository or source path it
    fails and nothing is run; when the source file is missing only the
    [Stat] call has been made.  On a runner where [git rm] fails and
    every other command succeeds (a first push, into an empty tree)
    [Push] succeeds: it copies the index into the clone and runs, in
    this order, init, remote add, checkout --orphan, rm, add, commit
    and the forced push of the branch. *)
Theorem Push_checks_then_publishes :
  (forall (W : Type) (runner : Github.CommandRunner W) (fs : Github.FileSystem W)
          (m : Github.StateManager) (srcPath : list Z) (w : W),
     TrimSpace (Github.Token m) = [] \/ TrimSpace (Github.Owner m) = [] \/
     TrimSpace (Github.Repo m) = [] \/ TrimSpace srcPath = [] ->
     exists err, Github.Push m srcPath w = (Some err, w)) /\
  (forall (W : Type) (runner : Github.CommandRunner W) (fs : Github.FileSystem W)
          (m : Github.StateManager) (srcPath url : list Z) (w w1 : W) (err : list Z),
     Github.remoteURL m = Ok url -> TrimSpace srcPath <> [] ->
     Github.Stat srcPath w = (Some err, w1) ->
     Github.Push m srcPath w = (Some (str "source index file missing: " ++ err), w1)) /\
  (forall (m : Github.StateManager) (srcPath url : list Z) (w : Github.FakeWorld),
     Github.remoteURL m = Ok url -> TrimSpace srcPath <> [] ->
     @Github.Push _ Github.emptyTreeRunner Github.fakeFileSystem m srcPath w =
       (None,
        {| Github.commands :=
             Github.commands w ++
             [ [str "git"; str "init"];
               [str "git"; str "remote"; str "add"; str "origin"; url];
               [str "git"; str "checkout"; str "--orphan"; Github.branchName m];
               [str "git"; str "rm"; str "-rf"; str "."];
               [str "git"; str "add"; str "index.db"];
               [str "git"; str "-c"; str "user.name=triage-bot"; str "-c";
                str "user.email=triage-bot@users.noreply.github.com";
                str "commit"; str "-m"; str "Update triage index [skip ci]"];
               [str "git"; str "push"; str "origin"; Github.branchName m;
                str "--force"] ];
           Github.copied :=
             Github.copied w ++
             [(srcPath, Github.pathJoin (str "/tmp/triage-state-pull-1")
                          Github.defaultIndexFileName)] |})).
Proof.
  split; [|split].
  - intros W runner fs m srcPath w Hblank. unfold Github.Push, Github.remoteURL.
    destruct Hblank as [Ht|[Ho|[Hr|Hs]]].
    + rewrite (bool_decide_eq_true_2 _ Ht). eauto.
    + destruct (bool_decide (TrimSpace (Github.Token m) = [])); [eauto|].
      rewrite (bool_decide_eq_true_2 _ Ho). cbn [orb]. eauto.
    + destruct (bool_decide (TrimSpace (Github.Token m) = [])); [eauto|].
      rewrite (bool_decide_eq_true_2 _ Hr), orb_true_r. eauto.
    + destruct (bool_decide (TrimSpace (Github.Token m) = [])); [eauto|].
      destruct (_ || _); [eauto|].
      rewrite (bool_decide_eq_true_2 _ Hs). eauto.
  - intros W runner fs m srcPath url w w1 err Hurl Hsrc Hstat.
    unfold Github.Push. rewrite Hurl, (bool_decide_eq_false_2 _ Hsrc).
    unfold bind, ret. rewrite Hstat. reflexivity.
  - intros m srcPath url w Hurl Hsrc.
    unfold Github.Push. rewrite Hurl, (bool_decide_eq_false_2 _ Hsrc).
    destruct w as [cmds copies].
    unfold bind, ret, Github.pushFrom, bind, ret.
    generalize (Github.branchName m). intros branch.
    cbv -[app]. rewrite <- !app_assoc. reflexivity.
Qed.

(** ** The repository of the event *)

Lemma splitOn_single (sep : Z) (b : list Z) :
  ~ In sep b -> Github.splitOn sep b = [b].
Proof.
  induction b as [|c b IH]; intros Hn; cbn [Github.splitOn]; [reflexivity|].
  destruct (Z.eqb_spec c sep) as [->|Hne]; [exfalso; apply Hn; left; reflexivity|].
  rewrite IH; [reflexivity|]. intros Hin. apply Hn. right. exact Hin.
Qed.

Lemma splitOn_app (sep : Z) (a rest : list Z) :
  ~ In sep a ->
  Github.splitOn sep (a ++ sep :: rest) = a :: Github.splitOn sep rest.
Proof.
  induction a as [|c a IH]; intros Hn; cbn [app Github.splitOn].
  - rewrite Z.eqb_refl. reflexivity.
  - destruct (Z.eqb_spec c sep) as [->|Hne]; [exfalso; apply Hn; left; reflexivity|].
    rewrite IH; [reflexivity|]. intros Hin. apply Hn. right. exact Hin.
Qed.

Lemma splitOn_Join (sep : Z) (s : list Z) :
  Join (Github.splitOn sep s) [sep] = s /\
  Forall (fun part => ~ In sep part) (Github.splitOn sep s) /\
  Github.splitOn sep s <> [].
Proof.
  induction s as [|c s (IHj & IHp & IHn)]; cbn [Github.splitOn].
  - split; [reflexivity|]. split; [constructor; [intros []|constructor]|discriminate].
  - destruct (Z.eqb_spec c sep) as [->|Hne].
    + split; [|split; [constructor; [intros []|exact IHp]|discriminate]].
      destruct (Github.splitOn sep s) as [|p ps]; [contradiction|].
      change (Join ([] :: p :: ps) [sep]) with ([] ++ [sep] ++ Join (p :: ps) [sep]).
      rewrite IHj. reflexivity.
    + destruct (Github.splitOn sep s) as [|p ps]; [contradiction|].
      split; [|split; [|discriminate]].
      * destruct ps as [|q ps].
        -- cbn [Join] in *. rewrite IHj. reflexivity.
        -- change (Join ((c :: p) :: q :: ps) [sep])
             with (c :: (p ++ [sep] ++ Join (q :: ps) [sep])).
           change (Join (p :: q :: ps) [sep])
             with (p ++ [sep] ++ Join (q :: ps) [sep]) in IHj.
           rewrite IHj. reflexivity.
      * inversion IHp as [|? ? Hp Hps]; subst. constructor; [|exact Hps].
        intros [Hc|Hin]; [congruence|contradiction].
Qed.

Lemma splitOn_two (sep : Z) (s a b : list Z) :
  Github.splitOn sep s = [a; b] <->
  s = a ++ [sep] ++ b /\ ~ In sep a /\ ~ In sep b.
Proof.
  split.
  - intros Hs. destruct (splitOn_Join sep s) as (Hj & Hp & _).
    rewrite Hs in Hj, Hp. cbn [Join] in Hj.
    inversion Hp as [|? ? Ha Hp']; subst. inversion Hp' as [|? ? Hb _]; subst.
    auto.
  - intros (-> & Ha & Hb). cbn [app].
    rewrite splitOn_app by exact Ha. rewrite splitOn_single by exact Hb. reflexivity.
Qed.

Lemma TrimSpace_In (s : list Z) (c : Z) : In c (TrimSpace s) -> In c s.
Proof.
  intros Hin. destruct (TrimSpace_split s) as (pre & post & Hs).
  rewrite Hs. apply in_or_app. right. apply in_or_app. left. exact Hin.
Qed.

Lemma ParseRepository_iff (repository owner repo : list Z) :
  Github.ParseRepository repository = Ok (owner, repo) <->
  exists o r,
    TrimSpace repository = o ++ [47%Z] ++ r /\
    ~ In 47%Z o /\ ~ In 47%Z r /\
    TrimSpace o <> [] /\ TrimSpace r <> [] /\
    owner = TrimSpace o /\ repo = TrimSpace r.
Proof.
  unfold Github.ParseRepository. split.
  - destruct (Github.splitOn 47 (TrimSpace repository)) as [|o [|r [|? ?]]] eqn:Hs;
      try discriminate.
    apply splitOn_two in Hs as (Hs & Ho & Hr).
    repeat case_bool_decide; cbn [orb]; try discriminate.
    intros [= <- <-]. exists o, r. auto 10.
  - intros (o & r & Hs & Ho & Hr & Hob & Hrb & -> & ->).
    rewrite (proj2 (splitOn_two 47 _ o r)) by auto.
    rewrite !bool_decide_eq_false_2 by assumption. reflexivity.
Qed.

Lemma ParseRepository_remoteURL (repository owner repo token branch : list Z) :
  Github.ParseRepository repository = Ok (owner, repo) ->
  TrimSpace token <> [] ->
  Github.remoteURL {| Github.Owner := owner; Github.Repo := repo;
                      Github.Token := token; Github.Branch := branch |} =
  Ok (str "https://x-access-token:" ++ token ++ str "@github.com/" ++
      owner ++ str "/" ++ repo ++ str ".git").
Proof.
  intros Hok Htoken.
  apply ParseRepository_iff in Hok as (o & r & _ & _ & _ & Hob & Hrb & -> & ->).
  unfold Github.remoteURL. cbn [Github.Owner Github.Repo Github.Token].
  rewrite !TrimSpace_idem.
  rewrite !bool_decide_eq_false_2 by assumption. reflexivity.
Qed.

(** X22. [ParseRepository] accepts exactly the texts that, once
    trimmed, are an owner and a repository around a single slash, both
    non-blank.  What it returns is trimmed, not empty and free of
    slashes, and a state manager built from it with a token has a
    remote URL. *)
Theorem ParseRepository_owner_repo (repository : list Z) :
  (forall owner repo,
     Github.ParseRepository repository = Ok (owner, repo) <->
     exists o r,
       TrimSpace repository = o ++ [47%Z] ++ r /\
       ~ In 47%Z o /\ ~ In 47%Z r /\
       TrimSpace o <> [] /\ TrimSpace r <> [] /\
       owner = TrimSpace o /\ repo = TrimSpace r) /\
  (forall owner repo,
     Github.ParseRepository repository = Ok (owner, repo) ->
     owner <> [] /\ repo <> [] /\
     TrimSpace owner = owner /\ TrimSpace repo = repo /\
     ~ In 47%Z owner /\ ~ In 47%Z repo /\
     forall token branch,
       TrimSpace token <> [] ->
       Github.remoteURL {| Github.Owner := owner; Github.Repo := repo;
                           Github.Token := token; Github.Branch := branch |} =
       Ok (str "https://x-access-token:" ++ token ++ str "@github.com/" ++
           owner ++ str "/" ++ repo ++ str ".git")).
Proof.
  split; [intros owner repo; apply ParseRepository_iff|].
  intros owner repo Hok.
  pose proof (ParseRepository_remoteURL repository owner repo) as Hurl.
  specialize (fun token branch => Hurl token branch Hok).
  apply ParseRepository_iff in Hok as (o & r & _ & Ho & Hr & Hob & Hrb & -> & ->).
  split; [exact Hob|]. split; [exact Hrb|].
  split; [apply TrimSpace_idem|]. split; [apply TrimSpace_idem|].
  split; [intros Hin; apply Ho, TrimSpace_In, Hin|].
  split; [intros Hin; apply Hr, TrimSpace_In, Hin|].
  exact Hurl.
Qed.

Example ParseRepository_examples :
  Github.ParseRepository (str " acme/repo ") = Ok (str "acme", str "repo") /\
  (exists msg, Github.ParseRepository (str "acme/repo/x") = Err msg) /\
  (exists msg, Github.ParseRepository (str "acme/ ") = Err msg) /\
  (exists msg, Github.ParseRepository (str "acme") = Err msg).
Proof.
  split; [vm_compute; reflexivity|].
  repeat split; eexists; vm_compute; reflexivity.
Qed.

(** ** Retrying the embedding request *)

Lemma shiftOne_small (attempt : Z) :
  (0 <= attempt <= 62)%Z -> Embed.shiftOne attempt = (2 ^ attempt)%Z.
Proof.
  intros Ha. unfold Embed.shiftOne.
  assert (Hp : (0 < 2 ^ attempt <= 2 ^ 62)%Z).
  { split; [apply Z.pow_pos_nonneg; lia|apply Z.pow_le_mono_r; lia]. }
  change (2 ^ 62)%Z with 4611686018427387904%Z in Hp.
  change (2 ^ 63)%Z with 9223372036854775808%Z.
  change (2 ^ 64)%Z with 18446744073709551616%Z.
  rewrite Z.mod_small by lia. lia.
Qed.

Lemma shiftOne_large (attempt : Z) :
  (63 <= attempt)%Z -> (Embed.shiftOne attempt <= 0)%Z.
Proof.
  intros Ha. unfold Embed.shiftOne.
  replace attempt with (63 + (attempt - 63))%Z by lia.
  rewrite Z.pow_add_r by lia.
  assert (Hp : (0 < 2 ^ (attempt - 63))%Z) by (apply Z.pow_pos_nonneg; lia).
  generalize dependent (2 ^ (attempt - 63))%Z. intros k Hk.
  change (2 ^ 63)%Z with 9223372036854775808%Z.
  change (2 ^ 64)%Z with 18446744073709551616%Z.
  Z.div_mod_to_equations. lia.
Qed.

(** X23. [backoffDuration] doubles from one second and is capped at
    thirty: 1, 2, 4, 8 and 16 seconds for attempts 0 to 4 and 30
    seconds for attempts 5 to 62.  It always lies between one second
    and thirty seconds.  From attempt 63 on the shift overflows [int]
    and the wait falls back to one second; a negative attempt makes the
    shift panic. *)
Theorem backoffDuration_schedule (attempt : Z) :
  ((attempt < 0)%Z -> Embed.backoffDuration attempt = None) /\
  ((0 <= attempt)%Z ->
     exists d, Embed.backoffDuration attempt = Some d /\
               (Embed.Second <= d <= 30 * Embed.Second)%Z) /\
  ((0 <= attempt <= 4)%Z ->
     Embed.backoffDuration attempt = Some (2 ^ attempt * Embed.Second)%Z) /\
  ((5 <= attempt <= 62)%Z ->
     Embed.backoffDuration attempt = Some (30 * Embed.Second)%Z) /\
  ((63 <= attempt)%Z -> Embed.backoffDuration attempt = Some Embed.Second).
Proof.
  unfold Embed.backoffDuration.
  split; [intros Hn; rewrite (proj2 (Z.ltb_lt _ _)) by exact Hn; reflexivity|].
  split; [|split; [|split]]; intros Ha; rewrite (proj2 (Z.ltb_ge _ _)) by lia.
  - eexists. split; [reflexivity|]. unfold Embed.Second. cbv zeta.
    destruct (Z.ltb_spec (Embed.shiftOne attempt) 1);
      [cbn|destruct (Z.ltb_spec 30 (Embed.shiftOne attempt))]; lia.
  - rewrite shiftOne_small by lia.
    assert (Hp : attempt = 0%Z \/ attempt = 1%Z \/ attempt = 2%Z \/ attempt = 3%Z \/
                 attempt = 4%Z) by lia.
    destruct Hp as [->|[->|[->|[->| ->]]]]; reflexivity.
  - rewrite shiftOne_small by lia.
    assert (Hp : (2 ^ 5 <= 2 ^ attempt)%Z) by (apply Z.pow_le_mono_r; lia).
    change (2 ^ 5)%Z with 32%Z in Hp. cbv zeta.
    destruct (Z.ltb_spec (2 ^ attempt) 1); [lia|].
    destruct (Z.ltb_spec 30 (2 ^ attempt)); [reflexivity|lia].
  - pose proof (shiftOne_large attempt Ha) as Hs. cbv zeta.
    destruct (Z.ltb_spec (Embed.shiftOne attempt) 1); [|lia].
    cbn. reflexivity.
Qed.

Lemma retryLoop_success (g : Embed.GitHubModelsEmbedder) (truncated : list (list Z))
    (vectors : list (list Q)) (rest : list Embed.response)
    (failures : list (Z * list Z)) :
  forall (fuel : nat) (attempt : Z) (lastErr : list Z) (w : Embed.Scripted),
    (length failures < fuel)%nat ->
    (attempt + Z.of_nat fuel = Embed.maxRetries g + 1)%Z ->
    Embed.script w = map Embed.failed failures ++ Embed.Vectors vectors :: rest ->
    @Embed.retryLoop _ Embed.scriptedTransport g fuel attempt truncated lastErr w =
      (Ok vectors,
       {| Embed.script := rest;
          Embed.asked := Embed.asked w ++ repeat truncated (S (length failures));
          Embed.slept := Embed.slept w ++ Embed.waitsFrom attempt failures |}).
Proof.
  induction failures as [|f fs IH]; intros fuel attempt lastErr w Hfuel Hsum Hscript;
    (destruct fuel as [|fuel']; [cbn [length] in Hfuel; lia|]);
    cbn [Embed.retryLoop]; unfold bind, ret;
    cbn [Embed.requestEmbeddings Embed.scriptedTransport];
    rewrite Hscript; cbn [map app Embed.failed].
  - cbn [length repeat Embed.waitsFrom]. rewrite app_nil_r. reflexivity.
  - cbn [length] in Hfuel.
    destruct (Z.eqb_spec attempt (Embed.maxRetries g)) as [E|E]; [lia|].
    cbn [Embed.sleep Embed.scriptedTransport].
    rewrite (IH fuel' (attempt + 1)%Z); [|lia|lia|reflexivity].
    cbn [Embed.asked Embed.slept Embed.script length Embed.waitsFrom repeat].
    rewrite <- !app_assoc. reflexivity.
Qed.

Lemma retryLoop_exhausted (g : Embed.GitHubModelsEmbedder) (truncated : list (list Z))
    (rest : list Embed.response) (failures : list (Z * list Z)) :
  forall (fuel : nat) (attempt : Z) (lastErr : list Z) (w : Embed.Scripted),
    length failures = fuel -> (0 < fuel)%nat ->
    (attempt + Z.of_nat fuel = Embed.maxRetries g + 1)%Z ->
    Embed.script w = map Embed.failed failures ++ rest ->
    exists msg,
      @Embed.retryLoop _ Embed.scriptedTransport g fuel attempt truncated lastErr w =
        (Err msg,
         {| Embed.script := rest;
            Embed.asked := Embed.asked w ++ repeat truncated (length failures);
            Embed.slept :=
              Embed.slept w ++ Embed.waitsFrom attempt (removelast failures) |}).
Proof.
  induction failures as [|f fs IH]; intros fuel attempt lastErr w Hlen Hpos Hsum Hscript;
    [cbn [length] in Hlen; lia|].
  destruct fuel as [|fuel']; [lia|]. cbn [length] in Hlen.
  cbn [Embed.retryLoop]. unfold bind, ret.
  cbn [Embed.requestEmbeddings Embed.scriptedTransport].
  rewrite Hscript. cbn [map app Embed.failed].
  destruct fs as [|f' fs'].
  - cbn [length] in Hlen.
    destruct (Z.eqb_spec attempt (Embed.maxRetries g)) as [E|E]; [|lia].
    eexists. cbn [length repeat removelast Embed.waitsFrom]. rewrite app_nil_r.
    reflexivity.
  - destruct (Z.eqb_spec attempt (Embed.maxRetries g)) as [E|E];
      [cbn [length] in Hlen; lia|].
    cbn [Embed.sleep Embed.scriptedTransport].
    match goal with
    | |- context [Embed.retryLoop g fuel' ?a truncated ?e ?w'] =>
        destruct (IH fuel' a e w') as [msg Hmsg];
          [lia|cbn [length] in Hlen; lia|lia|reflexivity|]
    end.
    exists msg. rewrite Hmsg.
    cbn [Embed.asked Embed.slept Embed.script].
    change (removelast (f :: f' :: fs')) with (f :: removelast (f' :: fs')).
    cbn [length Embed.waitsFrom repeat].
    rewrite <- !app_assoc. reflexivity.
Qed.

(** X24. [EmbedBatch] asks at most [maxRetries + 1] times and sleeps
    only between attempts.  When the first answers are failures and the
    next one, within the limit, is a success, it returns those vectors
    after one request per answer and one sleep per failure: the wait
    the failure asked for, or the backoff of the attempt when it asked
    for none.  When [maxRetries + 1] answers in a row are failures it
    gives up with an error after exactly that many requests, without
    sleeping after the last.  Every request carries the truncated
    texts; with no text it asks nothing. *)
Theorem EmbedBatch_retries (g : Embed.GitHubModelsEmbedder) (texts : list (list Z))
    (failures : list (Z * list Z)) (rest : list Embed.response) (w : Embed.Scripted)
    (Htexts : texts <> []) (Hretries : (0 <= Embed.maxRetries g)%Z) :
  let truncated :=
    map (fun text => Embed.truncateForEmbedding text (Embed.maxChars g)) texts in
  (forall vectors,
     (Z.of_nat (length failures) <= Embed.maxRetries g)%Z ->
     Embed.script w = map Embed.failed failures ++ Embed.Vectors vectors :: rest ->
     @Embed.EmbedBatch _ Embed.scriptedTransport g texts w =
       (Ok vectors,
        {| Embed.script := rest;
           Embed.asked := Embed.asked w ++ repeat truncated (S (length failures));
           Embed.slept := Embed.slept w ++ Embed.waitsFrom 0 failures |})) /\
  (Z.of_nat (length failures) = (Embed.maxRetries g + 1)%Z ->
   Embed.script w = map Embed.failed failures ++ rest ->
   exists msg,
     @Embed.EmbedBatch _ Embed.scriptedTransport g texts w =
       (Err msg,
        {| Embed.script := rest;
           Embed.asked := Embed.asked w ++ repeat truncated (length failures);
           Embed.slept :=
             Embed.slept w ++ Embed.waitsFrom 0 (removelast failures) |})) /\
  @Embed.EmbedBatch _ Embed.scriptedTransport g [] w = (Ok [], w).
Proof.
  cbv zeta. unfold Embed.EmbedBatch.
  destruct texts as [|text texts]; [contradiction|]. cbn [length Nat.eqb].
  split; [|split; [|reflexivity]].
  - intros vectors Hlen Hscript. apply retryLoop_success; [lia|lia|exact Hscript].
  - intros Hlen Hscript. apply retryLoop_exhausted; [lia|lia|lia|exact Hscript].
Qed.

Lemma EmbedBatch_retries_witness :
  let g := Embed.NewGitHubModelsEmbedder 3 0 0 in
  let w := {| Embed.script :=
                [Embed.Failed (2 * Embed.Second) (str "rate limited");
                 Embed.Failed 0 (str "server error");
                 Embed.Vectors [[0.4; 0.5]%Q]];
              Embed.asked := []; Embed.slept := [] |} in
  @Embed.EmbedBatch _ Embed.scriptedTransport g [str "hello"] w =
    (Ok [[0.4; 0.5]%Q],
     {| Embed.script := [];
        Embed.asked := [[str "hello"]; [str "hello"]; [str "hello"]];
        Embed.slept := [2 * Embed.Second; 2 * Embed.Second]%Z |}).
Proof.
  cbv zeta.
  refine (proj1 (EmbedBatch_retries (Embed.NewGitHubModelsEmbedder 3 0 0) [str "hello"]
                   [((2 * Embed.Second)%Z, str "rate limited"); (0%Z, str "server error")]
                   [] _ _ _) [[0.4; 0.5]%Q] _ _).
  - discriminate.
  - vm_compute. discriminate.
  - vm_compute. discriminate.
  - reflexivity.
Defined.

(** ** The pipeline *)

Lemma FuseResults_nil (excludeID : list Z) (config : Store.FuseConfig) :
  Store.FuseResults [] [] excludeID config = [].
Proof.
  unfold Store.FuseResults, Store.accumulate. cbn [Store.fuseVec Store.fuseFTS].
  rewrite map_to_list_empty. unfold Store.rankEntries. cbn [map omap Store.sortSlice].
  unfold Store.truncateTo. destruct (_ <? _)%Z; [apply firstn_nil|reflexivity].
Qed.

(** X25. An event without text is stored and its comment is cleared,
    and nothing else happens: when the content to embed is blank
    [Handle] calls neither the embedder nor a search nor
    [UpsertVector]; it upserts the item row and then reconciles the
    triage comment with an empty body. *)
Theorem Handle_without_text {W} `{UnicodeCase} (e : Engine.Engine W)
    (store : Engine.SearchIndexer W) (comments : Engine.CommentManager W)
    (event : Engine.Event) (w : W)
    (Hstore : Engine.eng_Store e = Some store)
    (Hcomments : Engine.eng_Comments e = Some comments)
    (Hblank : TrimSpace (Engine.buildEmbeddableContent event) = []) :
  Engine.Handle (Some e) event w =
    let (err, w1) :=
      Engine.UpsertItem store
        (Engine.buildItemRecord event (Engine.currentID event)) w in
    match err with
    | Some err => (Some (str "upsert item: " ++ err), w1)
    | None =>
        let (r, w2) :=
          comments (Engine.ev_Owner event) (Engine.ev_Repo event)
            (Engine.ev_Number event) [] w1 in
        (match r with
         | Err err => Some (str "upsert triage comment: " ++ err)
         | Ok _ => None
         end, w2)
    end.
Proof.
  unfold Engine.Handle. rewrite Hstore, Hcomments.
  unfold Engine.searchAndFuse. rewrite (bool_decide_eq_true_2 _ Hblank).
  cbn [negb]. rewrite FuseResults_nil. unfold bind, ret.
  destruct (Engine.UpsertItem store _ w) as [[err|] w1]; [reflexivity|].
  cbn [length Nat.ltb Nat.leb].
  destruct (comments _ _ _ [] w1) as [[action|err] w2]; reflexivity.
Qed.

Lemma Handle_without_text_witness :
  @Engine.Handle _ ascii_ToLower (Some Engine.tracingEngine) Engine.blankIssue [] =
    (None, [str "UpsertItem issue/12"; str "UpsertTriageComment "]).
Proof.
  rewrite (@Handle_without_text _ ascii_ToLower Engine.tracingEngine
             Engine.tracingStore
             (fun _ _ _ body w =>
                (Ok Github.CommentActionNoop, w ++ [str "UpsertTriageComment " ++ body]))
             Engine.blankIssue [] eq_refl eq_refl).
  - vm_compute. reflexivity.
  - vm_compute. reflexivity.
Defined.

(** X26. [Handle] reports success only when every stage succeeded, in
    order: the search stage gave an embedding and a fused list, the
    item was upserted under the id of the event, the embedding (when
    there is one) was upserted under the same id, and the comment
    manager accepted the report, which is empty when nothing was
    fused. *)
Theorem Handle_success {W} `{UnicodeCase} (e : option (Engine.Engine W))
    (event : Engine.Event) (w w' : W)
    (Hrun : Engine.Handle e event w = (None, w')) :
  exists eng store comments embedding fused w1 w2 w3 action,
    e = Some eng /\
    Engine.eng_Store eng = Some store /\
    Engine.eng_Comments eng = Some comments /\
    Engine.searchAndFuse eng store event w = (Ok (embedding, fused), w1) /\
    Engine.UpsertItem store
      (Engine.buildItemRecord event (Engine.currentID event)) w1 = (None, w2) /\
    (if (0 <? length embedding)%nat
     then Engine.UpsertVector store (Engine.currentID event) embedding w2
     else (None, w2)) = (None, w3) /\
    comments (Engine.ev_Owner event) (Engine.ev_Repo event) (Engine.ev_Number event)
      (if (0 <? length fused)%nat
       then match Engine.eng_Formatter eng with
            | Some format => format event fused
            | None => Engine.defaultReport event fused
            end
       else []) w3 = (Ok action, w').
Proof.
  unfold Engine.Handle in Hrun.
  destruct e as [eng|]; [|discriminate].
  destruct (Engine.eng_Store eng) as [store|] eqn:Hstore; [|discriminate].
  destruct (Engine.eng_Comments eng) as [comments|] eqn:Hcomments; [|discriminate].
  unfold bind, ret in Hrun.
  destruct (Engine.searchAndFuse eng store event w) as [[[embedding fused]|err] w1]
    eqn:Hsearch; [|discriminate].
  destruct (Engine.UpsertItem store _ w1) as [[err|] w2] eqn:Hitem; [discriminate|].
  destruct (0 <? length embedding)%nat eqn:Hlen.
  - destruct (Engine.UpsertVector store (Engine.currentID event) embedding w2)
      as [[err|] w3] eqn:Hvec; [discriminate|].
    destruct (comments _ _ _ _ w3) as [[action|err] w4] eqn:Hcomment; [|discriminate].
    injection Hrun as <-.
    exists eng, store, comments, embedding, fused, w1, w2, w3, action.
    rewrite Hlen. auto 10.
  - destruct (comments _ _ _ _ w2) as [[action|err] w4] eqn:Hcomment; [|discriminate].
    injection Hrun as <-.
    exists eng, store, comments, embedding, fused, w1, w2, w2, action.
    rewrite Hlen. auto 10.
Qed.

Lemma Handle_success_witness :
  exists embedding fused,
    @Engine.searchAndFuse _ ascii_ToLower Engine.tracingEngine Engine.tracingStore
      Engine.editedIssue [] =
      (Ok (embedding, fused), [str "Embed"; str "SearchVector"; str "SearchFTS"]) /\
    snd (@Engine.Handle _ ascii_ToLower (Some Engine.tracingEngine)
           Engine.editedIssue []) =
      [str "Embed"; str "SearchVector"; str "SearchFTS"; str "UpsertItem issue/10";
       str "UpsertVector issue/10"; str "UpsertTriageComment "].
Proof.
  destruct (@Handle_success _ ascii_ToLower (Some Engine.tracingEngine)
              Engine.editedIssue []
              [str "Embed"; str "SearchVector"; str "SearchFTS";
               str "UpsertItem issue/10"; str "UpsertVector issue/10";
               str "UpsertTriageComment "])
    as (eng & store & comments & embedding & fused & w1 & w2 & w3 & action &
        He & Hstore & Hcomments & Hsearch & _).
  - vm_compute. reflexivity.
  - injection He as <-. injection Hstore as <-.
    exists embedding, fused. split; [|vm_compute; reflexivity].
    rewrite Hsearch. f_equal.
    vm_compute in Hsearch. injection Hsearch as _ _ <-. reflexivity.
Defined.

Lemma clamp01_pos (v : Q) : (0 < v)%Q -> (0 < Store.clamp01 v)%Q.
Proof.
  intros Hv. unfold Store.clamp01.
  destruct (Store.Qltb v 0) eqn:E0; [apply Qltb_lt in E0; lra|].
  destruct (Store.Qltb 1 v); [reflexivity|exact Hv].
Qed.

(** X27. The engine never runs the fusion on its built-in defaults: a
    threshold of the configuration that is zero or negative is replaced
    by 0.75 (similarity) or 0.92 (duplicate) and a limit below one by
    5, so the configuration handed to [FuseResults] has positive
    thresholds and a positive limit; [FuseResults] then only cuts a
    threshold above one down to one. *)
Theorem fuseConfig_effective {W} (e : Engine.Engine W) :
  (0 < Engine.similarityThreshold e)%Q /\
  (0 < Engine.duplicateThreshold e)%Q /\
  (1 <= Engine.maxResults e)%Z /\
  Store.normalized (Engine.fuseConfig e) =
    {| Store.SimilarityThreshold := Store.clamp01 (Engine.similarityThreshold e);
       Store.DuplicateThreshold := Store.clamp01 (Engine.duplicateThreshold e);
       Store.MaxResults := Engine.maxResults e |} /\
  (0 < Store.SimilarityThreshold (Store.normalized (Engine.fuseConfig e)) <= 1)%Q /\
  (0 < Store.DuplicateThreshold (Store.normalized (Engine.fuseConfig e)) <= 1)%Q.
Proof.
  assert (Hs : (0 < Engine.similarityThreshold e)%Q).
  { unfold Engine.similarityThreshold.
    destruct (Qle_bool _ 0) eqn:E; [reflexivity|].
    apply Qnot_le_lt. intros Hle. apply Qle_bool_iff in Hle. congruence. }
  assert (Hd : (0 < Engine.duplicateThreshold e)%Q).
  { unfold Engine.duplicateThreshold.
    destruct (Qle_bool _ 0) eqn:E; [reflexivity|].
    apply Qnot_le_lt. intros Hle. apply Qle_bool_iff in Hle. congruence. }
  assert (Hm : (1 <= Engine.maxResults e)%Z).
  { unfold Engine.maxResults.
    destruct (Z.leb_spec (Engine.cfg_MaxResults (Engine.eng_Config e)) 0); lia. }
  assert (Hn : Store.normalized (Engine.fuseConfig e) =
    {| Store.SimilarityThreshold := Store.clamp01 (Engine.similarityThreshold e);
       Store.DuplicateThreshold := Store.clamp01 (Engine.duplicateThreshold e);
       Store.MaxResults := Engine.maxResults e |}).
  { unfold Store.normalized, Store.is_zero_config, Engine.fuseConfig.
    cbn [Store.SimilarityThreshold Store.DuplicateThreshold Store.MaxResults].
    rewrite (proj2 (Z.eqb_neq _ 0)) by lia. rewrite andb_false_r.
    rewrite (proj2 (Z.leb_gt _ _)) by lia. reflexivity. }
  repeat (split; [assumption|]).
  rewrite Hn. cbn [Store.SimilarityThreshold Store.DuplicateThreshold].
  pose proof (clamp01_range (Engine.similarityThreshold e)).
  pose proof (clamp01_range (Engine.duplicateThreshold e)).
  pose proof (clamp01_pos _ Hs). pose proof (clamp01_pos _ Hd).
  split; split; tauto.
Qed.

(** ** The default report is a managed comment *)

Lemma TrimSpace_marker_app (rest : list Z) :
  TrimSpace (Github.CommentMarker ++ rest) =
  Github.CommentMarker ++ TrimRightSpace rest.
Proof.
  assert (Hlast : exists m, Github.CommentMarker = m ++ [62%Z]).
  { exists (removelast Github.CommentMarker). vm_compute. reflexivity. }
  destruct Hlast as [m Hm].
  unfold TrimSpace.
  assert (Hleft : TrimLeftSpace (Github.CommentMarker ++ rest) =
                  Github.CommentMarker ++ rest).
  { destruct CommentMarker_head as [t ->]. reflexivity. }
  rewrite Hleft. unfold TrimRightSpace. rewrite Hm.
  rewrite rev_app_distr, (rev_app_distr m [62%Z]). cbn [rev app].
  rewrite TrimLeftSpace_app_nonspace by reflexivity.
  rewrite rev_app_distr. cbn [rev]. rewrite rev_involutive. reflexivity.
Qed.

(** X28. The report [defaultReport] writes is already a managed comment:
    it starts with the marker, so [normalizeCommentBody] only trims it
    and adds no second marker, and the body that reaches the platform
    starts with the marker. *)
Theorem defaultReport_is_managed (event : Engine.Event)
    (results : list Store.FusedResult) :
  let report := Engine.defaultReport event results in
  HasPrefix report Github.CommentMarker = true /\
  Github.normalizeCommentBody report = TrimSpace report /\
  HasPrefix (Github.normalizeCommentBody report) Github.CommentMarker = true /\
  Github.normalizeCommentBody report <> [].
Proof.
  cbv zeta. unfold Engine.defaultReport.
  match goal with
  | |- context [Github.CommentMarker ++ ?x] => generalize x
  end.
  intros rest.
  assert (Hp : forall post, HasPrefix (Github.CommentMarker ++ post) Github.CommentMarker = true).
  { intros post. apply HasPrefix_app, HasPrefix_refl. }
  assert (Hn : Github.normalizeCommentBody (Github.CommentMarker ++ rest) =
               TrimSpace (Github.CommentMarker ++ rest)).
  { unfold Github.normalizeCommentBody. rewrite TrimSpace_marker_app, Hp.
    case_bool_decide as Hb; [|reflexivity].
    destruct CommentMarker_head as [t Ht]. rewrite Ht in Hb. discriminate Hb. }
  split; [apply Hp|]. split; [exact Hn|].
  rewrite Hn, TrimSpace_marker_app. split; [apply Hp|].
  destruct CommentMarker_head as [t ->]. discriminate.
Qed.

(** ** The configuration of a run *)

Lemma flt_range (x : Main.float64) :
  Main.flt x (Main.Finite 0) || Main.flt (Main.Finite 1) x = false ->
  Main.inUnitOrNaN x.
Proof.
  unfold Main.inUnitOrNaN. destruct x as [| | |q]; cbn [Main.flt orb];
    try discriminate; [left; reflexivity|].
  intros Hr. apply orb_false_iff in Hr as [H0 H1].
  apply Qltb_ge in H0, H1. right. exists q. auto.
Qed.

(** X29. A configuration that [parseConfigFromEnv] accepts is usable:
    the token, event name, event path and repository are not blank, the
    result limit lies between 1 and 20, the index branch is trimmed and
    not empty, and with the owner and repository that [ParseRepository]
    reads from it the state manager has a remote URL and uses that
    branch.  Each threshold lies in [0, 1] or is NaN, which the range
    check lets through.  An input that is not set takes its default:
    0.75, 0.92, 5 and triage-index. *)
Theorem parseConfigFromEnv_validated `{Main.Strconv} (getenv : list Z -> list Z)
    (cfg : Main.config)
    (Hok : Main.parseConfigFromEnv getenv = Ok cfg) :
  (TrimSpace (Main.Token cfg) <> [] /\ TrimSpace (Main.EventName cfg) <> [] /\
   TrimSpace (Main.EventPath cfg) <> [] /\ TrimSpace (Main.Repository cfg) <> []) /\
  (1 <= Main.MaxResults cfg <= 20)%Z /\
  Main.inUnitOrNaN (Main.SimilarityThreshold cfg) /\
  Main.inUnitOrNaN (Main.DuplicateThreshold cfg) /\
  (Main.IndexBranch cfg <> [] /\ TrimSpace (Main.IndexBranch cfg) = Main.IndexBranch cfg) /\
  (forall owner repo,
     Github.ParseRepository (Main.Repository cfg) = Ok (owner, repo) ->
     Github.branchName (Main.stateManager cfg owner repo) = Main.IndexBranch cfg /\
     exists url, Github.remoteURL (Main.stateManager cfg owner repo) = Ok url) /\
  (TrimSpace (getenv (str "INPUT_SIMILARITY_THRESHOLD")) = [] ->
     Main.SimilarityThreshold cfg = Main.Finite 0.75) /\
  (TrimSpace (getenv (str "INPUT_DUPLICATE_THRESHOLD")) = [] ->
     Main.DuplicateThreshold cfg = Main.Finite 0.92) /\
  (TrimSpace (getenv (str "INPUT_MAX_RESULTS")) = [] -> Main.MaxResults cfg = 5%Z) /\
  (TrimSpace (getenv (str "INPUT_INDEX_BRANCH")) = [] ->
     Main.IndexBranch cfg = str "triage-index").
Proof.
  unfold Main.parseConfigFromEnv in Hok.
  destruct (Main.firstMissing getenv Main.required) as [key|] eqn:Hreq; [discriminate|].
  unfold Main.required in Hreq. cbn [Main.firstMissing] in Hreq.
  repeat match type of Hreq with
         | context [bool_decide ?P] =>
             let Hset := fresh "Hset" in
             destruct (decide P) as [Hset|Hset];
               [rewrite (bool_decide_eq_true_2 _ Hset) in Hreq; discriminate
               |rewrite (bool_decide_eq_false_2 _ Hset) in Hreq]
         end.
  clear Hreq.
  destruct (Main.parseFloatInput _ (Main.Finite 0.75)) as [similarity|e] eqn:Hsim;
    [|discriminate].
  destruct (Main.parseFloatInput _ (Main.Finite 0.92)) as [duplicate|e] eqn:Hdup;
    [|discriminate].
  destruct (Main.parseIntInput _ 5) as [maxResults|e] eqn:Hmax; [|discriminate].
  destruct ((maxResults <? 1)%Z || (20 <? maxResults)%Z) eqn:Hrange; [discriminate|].
  destruct (Main.flt similarity (Main.Finite 0) || Main.flt (Main.Finite 1) similarity)
    eqn:Hs; [discriminate|].
  destruct (Main.flt duplicate (Main.Finite 0) || Main.flt (Main.Finite 1) duplicate)
    eqn:Hd; [discriminate|].
  injection Hok as <-.
  cbn [Main.Token Main.EventName Main.EventPath Main.Repository Main.MaxResults
       Main.SimilarityThreshold Main.DuplicateThreshold Main.IndexBranch].
  apply orb_false_iff in Hrange as [Hlo Hhi].
  apply Z.ltb_ge in Hlo, Hhi.
  set (branch := if bool_decide (TrimSpace (getenv (str "INPUT_INDEX_BRANCH")) = [])
                 then str "triage-index"
                 else TrimSpace (getenv (str "INPUT_INDEX_BRANCH"))).
  assert (Hbranch : branch <> [] /\ TrimSpace branch = branch).
  { subst branch. case_bool_decide as Hb; [split; [discriminate|reflexivity]|].
    split; [exact Hb|apply TrimSpace_idem]. }
  split; [repeat split; assumption|]. split; [lia|].
  split; [apply flt_range, Hs|]. split; [apply flt_range, Hd|].
  split; [exact Hbranch|].
  split.
  { intros owner repo Hparse. split.
    - unfold Github.branchName, Main.stateManager. cbn [Github.Branch Main.IndexBranch].
      fold branch. destruct Hbranch as [Hne Htrim]. rewrite Htrim.
      rewrite bool_decide_eq_false_2 by exact Hne. reflexivity.
    - unfold Main.stateManager. cbn [Main.Token Main.IndexBranch].
      eexists. eapply ParseRepository_remoteURL; [exact Hparse|assumption]. }
  unfold Main.parseFloatInput, Main.parseIntInput in Hsim, Hdup, Hmax.
  split; [intros Hb; rewrite (bool_decide_eq_true_2 _ Hb) in Hsim; congruence|].
  split; [intros Hb; rewrite (bool_decide_eq_true_2 _ Hb) in Hdup; congruence|].
  split; [intros Hb; rewrite (bool_decide_eq_true_2 _ Hb) in Hmax; congruence|].
  intros Hb. subst branch. rewrite (bool_decide_eq_true_2 _ Hb). reflexivity.
Qed.

Lemma parseConfigFromEnv_validated_witness :
  exists cfg,
    @Main.parseConfigFromEnv Main.nanParser
      (Main.workflowEnv [(str "INPUT_SIMILARITY_THRESHOLD", str " NaN ")]) = Ok cfg /\
    Main.SimilarityThreshold cfg = Main.NaN /\
    Main.inUnitOrNaN (Main.SimilarityThreshold cfg) /\
    Main.MaxResults cfg = 5%Z /\
    Main.IndexBranch cfg = str "triage-index".
Proof.
  destruct (@Main.parseConfigFromEnv Main.nanParser
              (Main.workflowEnv [(str "INPUT_SIMILARITY_THRESHOLD", str " NaN ")]))
    as [cfg|err] eqn:Hrun; [|vm_compute in Hrun; discriminate Hrun].
  exists cfg. split; [reflexivity|].
  destruct (@parseConfigFromEnv_validated Main.nanParser _ cfg Hrun)
    as (_ & _ & Hsim & _ & _ & _ & _ & _ & Hmax & Hbranch).
  split; [vm_compute in Hrun; injection Hrun as <-; reflexivity|].
  split; [exact Hsim|].
  split; [apply Hmax; vm_compute; reflexivity|apply Hbranch; vm_compute; reflexivity].
Defined.
